(** * PatientPathwayPrototype: the voice control of the pathway view

    A shallow embedding of [PathwayControlComponent]
    (pathway-control.component.ts) and the properties of its voice command
    orchestration: the command switch of the recognition-result handler, the
    subscription bookkeeping around [restartSpeechRecognition], the dialog
    round trip of the appointment creator and the voice list filter.

    The component is embedded as state-passing code over a record [World]
    that holds the component's fields, the subscriptions that are currently
    active on the collaborators' observables and the log of calls the
    component made to its collaborators. *)

From Stdlib Require Import List Bool Arith NArith ZArith Lia String Ascii.
Import ListNotations.

(* ================================================================== *)
(** ** JavaScript strings *)
(* ================================================================== *)

(** A JavaScript string is a sequence of UTF-16 code units. *)
Definition jsstring := list N.

(** Literals are written as they stand in the TypeScript file (UTF-8) and
    decoded to code units; every literal of the component lies in the Basic
    Multilingual Plane, so one to three bytes per code unit suffice. *)
Fixpoint utf16_of_utf8 (bytes : list N) : jsstring :=
  match bytes with
  | [] => []
  | b :: rest =>
      if (b <? 128)%N then b :: utf16_of_utf8 rest
      else if (b <? 224)%N then
        match rest with
        | c :: rest' => ((b - 192) * 64 + (c - 128))%N :: utf16_of_utf8 rest'
        | [] => []
        end
      else
        match rest with
        | c :: d :: rest' =>
            ((b - 224) * 4096 + (c - 128) * 64 + (d - 128))%N
              :: utf16_of_utf8 rest'
        | _ => []
        end
  end.

Definition js (s : string) : jsstring :=
  utf16_of_utf8 (map N_of_ascii (list_ascii_of_string s)).

Arguments js : simpl never.

Definition jsstring_eqb (a b : jsstring) : bool :=
  if list_eq_dec N.eq_dec a b then true else false.

(** *** Code points

    [toLowerCase] works on the code points of a string, not on its code
    units. *)

Definition isLeadingSurrogate (c : N) : bool :=
  ((0xD800 <=? c) && (c <=? 0xDBFF))%N.

Definition isTrailingSurrogate (c : N) : bool :=
  ((0xDC00 <=? c) && (c <=? 0xDFFF))%N.

(** StringToCodePoints: a leading surrogate that is followed by a trailing
    one stands with it for one code point beyond U+FFFF, every other code
    unit for itself. *)
Fixpoint stringToCodePoints (s : jsstring) : list N :=
  match s with
  | [] => []
  | lead :: s' =>
      match s' with
      | trail :: s'' =>
          if isLeadingSurrogate lead && isTrailingSurrogate trail
          then (0x10000 + (lead - 0xD800) * 0x400 + (trail - 0xDC00))%N
                 :: stringToCodePoints s''
          else lead :: stringToCodePoints s'
      | [] => [lead]
      end
  end.

(** UTF16EncodeCodePoint. A number above U+10FFFF is no code point and is
    handed on as it is. *)
Definition utf16EncodeCodePoint (cp : N) : jsstring :=
  if ((cp <? 0x10000) || (0x10FFFF <? cp))%N then [cp]
  else [ (0xD800 + (cp - 0x10000) / 0x400)%N;
         (0xDC00 + (cp - 0x10000) mod 0x400)%N ].

(** CodePointsToString. *)
Definition codePointsToString (cps : list N) : jsstring :=
  flat_map utf16EncodeCodePoint cps.

(** *** The case data of Unicode

    The lower-case mappings and the properties Cased and Case_Ignorable of
    the Unicode Character Database, version 14.0, as runs of code points in
    ascending order. *)

(** A run of code points with a lower-case mapping: in [Run first last
    target] the code points from [first] to [last] map to [target] and its
    successors; in [Pairs first last] every second code point, from [first]
    on, maps to the code point after it. *)
Inductive CaseBlock : Type :=
| Run (first last target : N)
| Pairs (first last : N).

Fixpoint lowerIn (blocks : list CaseBlock) (cp : N) : N :=
  match blocks with
  | [] => cp
  | Run first last target :: rest =>
      if (cp <? first)%N then cp
      else if (cp <=? last)%N then (target + (cp - first))%N
      else lowerIn rest cp
  | Pairs first last :: rest =>
      if (cp <? first)%N then cp
      else if (cp <=? last)%N then
        (if N.even (cp - first) then cp + 1 else cp)%N
      else lowerIn rest cp
  end.

Fixpoint inRanges (ranges : list (N * N)) (cp : N) : bool :=
  match ranges with
  | [] => false
  | (first, last) :: rest =>
      if (cp <? first)%N then false
      else if (cp <=? last)%N then true
      else inRanges rest cp
  end.

(** The simple lower-case mappings (UnicodeData.txt). *)
Definition lowercaseBlocks : list CaseBlock :=
  [ Run 0x41 0x5A 0x61; Run 0xC0 0xD6 0xE0; Run 0xD8 0xDE 0xF8;
    Pairs 0x100 0x12E; Run 0x130 0x130 0x69; Pairs 0x132 0x136;
    Pairs 0x139 0x147; Pairs 0x14A 0x176; Run 0x178 0x178 0xFF;
    Pairs 0x179 0x17D; Run 0x181 0x181 0x253; Pairs 0x182 0x184;
    Run 0x186 0x186 0x254; Run 0x187 0x187 0x188; Run 0x189 0x18A 0x256;
    Run 0x18B 0x18B 0x18C; Run 0x18E 0x18E 0x1DD; Run 0x18F 0x18F 0x259;
    Run 0x190 0x190 0x25B; Run 0x191 0x191 0x192; Run 0x193 0x193 0x260;
    Run 0x194 0x194 0x263; Run 0x196 0x196 0x269; Run 0x197 0x197 0x268;
    Run 0x198 0x198 0x199; Run 0x19C 0x19C 0x26F; Run 0x19D 0x19D 0x272;
    Run 0x19F 0x19F 0x275; Pairs 0x1A0 0x1A4; Run 0x1A6 0x1A6 0x280;
    Run 0x1A7 0x1A7 0x1A8; Run 0x1A9 0x1A9 0x283; Run 0x1AC 0x1AC 0x1AD;
    Run 0x1AE 0x1AE 0x288; Run 0x1AF 0x1AF 0x1B0; Run 0x1B1 0x1B2 0x28A;
    Pairs 0x1B3 0x1B5; Run 0x1B7 0x1B7 0x292; Run 0x1B8 0x1B8 0x1B9;
    Run 0x1BC 0x1BC 0x1BD; Run 0x1C4 0x1C4 0x1C6; Run 0x1C5 0x1C5 0x1C6;
    Run 0x1C7 0x1C7 0x1C9; Run 0x1C8 0x1C8 0x1C9; Run 0x1CA 0x1CA 0x1CC;
    Pairs 0x1CB 0x1DB; Pairs 0x1DE 0x1EE; Run 0x1F1 0x1F1 0x1F3;
    Pairs 0x1F2 0x1F4; Run 0x1F6 0x1F6 0x195; Run 0x1F7 0x1F7 0x1BF;
    Pairs 0x1F8 0x21E; Run 0x220 0x220 0x19E; Pairs 0x222 0x232;
    Run 0x23A 0x23A 0x2C65; Run 0x23B 0x23B 0x23C; Run 0x23D 0x23D 0x19A;
    Run 0x23E 0x23E 0x2C66; Run 0x241 0x241 0x242; Run 0x243 0x243 0x180;
    Run 0x244 0x244 0x289; Run 0x245 0x245 0x28C; Pairs 0x246 0x24E;
    Pairs 0x370 0x372; Run 0x376 0x376 0x377; Run 0x37F 0x37F 0x3F3;
    Run 0x386 0x386 0x3AC; Run 0x388 0x38A 0x3AD; Run 0x38C 0x38C 0x3CC;
    Run 0x38E 0x38F 0x3CD; Run 0x391 0x3A1 0x3B1; Run 0x3A3 0x3AB 0x3C3;
    Run 0x3CF 0x3CF 0x3D7; Pairs 0x3D8 0x3EE; Run 0x3F4 0x3F4 0x3B8;
    Run 0x3F7 0x3F7 0x3F8; Run 0x3F9 0x3F9 0x3F2; Run 0x3FA 0x3FA 0x3FB;
    Run 0x3FD 0x3FF 0x37B; Run 0x400 0x40F 0x450; Run 0x410 0x42F 0x430;
    Pairs 0x460 0x480; Pairs 0x48A 0x4BE; Run 0x4C0 0x4C0 0x4CF;
    Pairs 0x4C1 0x4CD; Pairs 0x4D0 0x52E; Run 0x531 0x556 0x561;
    Run 0x10A0 0x10C5 0x2D00; Run 0x10C7 0x10C7 0x2D27;
    Run 0x10CD 0x10CD 0x2D2D; Run 0x13A0 0x13EF 0xAB70;
    Run 0x13F0 0x13F5 0x13F8; Run 0x1C90 0x1CBA 0x10D0;
    Run 0x1CBD 0x1CBF 0x10FD; Pairs 0x1E00 0x1E94; Run 0x1E9E 0x1E9E 0xDF;
    Pairs 0x1EA0 0x1EFE; Run 0x1F08 0x1F0F 0x1F00; Run 0x1F18 0x1F1D 0x1F10;
    Run 0x1F28 0x1F2F 0x1F20; Run 0x1F38 0x1F3F 0x1F30;
    Run 0x1F48 0x1F4D 0x1F40; Run 0x1F59 0x1F59 0x1F51;
    Run 0x1F5B 0x1F5B 0x1F53; Run 0x1F5D 0x1F5D 0x1F55;
    Run 0x1F5F 0x1F5F 0x1F57; Run 0x1F68 0x1F6F 0x1F60;
    Run 0x1F88 0x1F8F 0x1F80; Run 0x1F98 0x1F9F 0x1F90;
    Run 0x1FA8 0x1FAF 0x1FA0; Run 0x1FB8 0x1FB9 0x1FB0;
    Run 0x1FBA 0x1FBB 0x1F70; Run 0x1FBC 0x1FBC 0x1FB3;
    Run 0x1FC8 0x1FCB 0x1F72; Run 0x1FCC 0x1FCC 0x1FC3;
    Run 0x1FD8 0x1FD9 0x1FD0; Run 0x1FDA 0x1FDB 0x1F76;
    Run 0x1FE8 0x1FE9 0x1FE0; Run 0x1FEA 0x1FEB 0x1F7A;
    Run 0x1FEC 0x1FEC 0x1FE5; Run 0x1FF8 0x1FF9 0x1F78;
    Run 0x1FFA 0x1FFB 0x1F7C; Run 0x1FFC 0x1FFC 0x1FF3;
    Run 0x2126 0x2126 0x3C9; Run 0x212A 0x212A 0x6B; Run 0x212B 0x212B 0xE5;
    Run 0x2132 0x2132 0x214E; Run 0x2160 0x216F 0x2170;
    Run 0x2183 0x2183 0x2184; Run 0x24B6 0x24CF 0x24D0;
    Run 0x2C00 0x2C2F 0x2C30; Run 0x2C60 0x2C60 0x2C61;
    Run 0x2C62 0x2C62 0x26B; Run 0x2C63 0x2C63 0x1D7D;
    Run 0x2C64 0x2C64 0x27D; Pairs 0x2C67 0x2C6B; Run 0x2C6D 0x2C6D 0x251;
    Run 0x2C6E 0x2C6E 0x271; Run 0x2C6F 0x2C6F 0x250;
    Run 0x2C70 0x2C70 0x252; Run 0x2C72 0x2C72 0x2C73;
    Run 0x2C75 0x2C75 0x2C76; Run 0x2C7E 0x2C7F 0x23F; Pairs 0x2C80 0x2CE2;
    Pairs 0x2CEB 0x2CED; Run 0x2CF2 0x2CF2 0x2CF3; Pairs 0xA640 0xA66C;
    Pairs 0xA680 0xA69A; Pairs 0xA722 0xA72E; Pairs 0xA732 0xA76E;
    Pairs 0xA779 0xA77B; Run 0xA77D 0xA77D 0x1D79; Pairs 0xA77E 0xA786;
    Run 0xA78B 0xA78B 0xA78C; Run 0xA78D 0xA78D 0x265; Pairs 0xA790 0xA792;
    Pairs 0xA796 0xA7A8; Run 0xA7AA 0xA7AA 0x266; Run 0xA7AB 0xA7AB 0x25C;
    Run 0xA7AC 0xA7AC 0x261; Run 0xA7AD 0xA7AD 0x26C;
    Run 0xA7AE 0xA7AE 0x26A; Run 0xA7B0 0xA7B0 0x29E;
    Run 0xA7B1 0xA7B1 0x287; Run 0xA7B2 0xA7B2 0x29D;
    Run 0xA7B3 0xA7B3 0xAB53; Pairs 0xA7B4 0xA7C2; Run 0xA7C4 0xA7C4 0xA794;
    Run 0xA7C5 0xA7C5 0x282; Run 0xA7C6 0xA7C6 0x1D8E; Pairs 0xA7C7 0xA7C9;
    Run 0xA7D0 0xA7D0 0xA7D1; Pairs 0xA7D6 0xA7D8; Run 0xA7F5 0xA7F5 0xA7F6;
    Run 0xFF21 0xFF3A 0xFF41; Run 0x10400 0x10427 0x10428;
    Run 0x104B0 0x104D3 0x104D8; Run 0x10570 0x1057A 0x10597;
    Run 0x1057C 0x1058A 0x105A3; Run 0x1058C 0x10592 0x105B3;
    Run 0x10594 0x10595 0x105BB; Run 0x10C80 0x10CB2 0x10CC0;
    Run 0x118A0 0x118BF 0x118C0; Run 0x16E40 0x16E5F 0x16E60;
    Run 0x1E900 0x1E921 0x1E922 ].

(** Cased (DerivedCoreProperties.txt): the code points that are Lowercase,
    Uppercase or title case letters. *)
Definition casedRanges : list (N * N) :=
  [ (0x41, 0x5A); (0x61, 0x7A); (0xAA, 0xAA); (0xB5, 0xB5); (0xBA, 0xBA);
    (0xC0, 0xD6); (0xD8, 0xF6); (0xF8, 0x1BA); (0x1BC, 0x1BF);
    (0x1C4, 0x293); (0x295, 0x2B8); (0x2C0, 0x2C1); (0x2E0, 0x2E4);
    (0x345, 0x345); (0x370, 0x373); (0x376, 0x377); (0x37A, 0x37D);
    (0x37F, 0x37F); (0x386, 0x386); (0x388, 0x38A); (0x38C, 0x38C);
    (0x38E, 0x3A1); (0x3A3, 0x3F5); (0x3F7, 0x481); (0x48A, 0x52F);
    (0x531, 0x556); (0x560, 0x588); (0x10A0, 0x10C5); (0x10C7, 0x10C7);
    (0x10CD, 0x10CD); (0x10D0, 0x10FA); (0x10FD, 0x10FF); (0x13A0, 0x13F5);
    (0x13F8, 0x13FD); (0x1C80, 0x1C88); (0x1C90, 0x1CBA); (0x1CBD, 0x1CBF);
    (0x1D00, 0x1DBF); (0x1E00, 0x1F15); (0x1F18, 0x1F1D); (0x1F20, 0x1F45);
    (0x1F48, 0x1F4D); (0x1F50, 0x1F57); (0x1F59, 0x1F59); (0x1F5B, 0x1F5B);
    (0x1F5D, 0x1F5D); (0x1F5F, 0x1F7D); (0x1F80, 0x1FB4); (0x1FB6, 0x1FBC);
    (0x1FBE, 0x1FBE); (0x1FC2, 0x1FC4); (0x1FC6, 0x1FCC); (0x1FD0, 0x1FD3);
    (0x1FD6, 0x1FDB); (0x1FE0, 0x1FEC); (0x1FF2, 0x1FF4); (0x1FF6, 0x1FFC);
    (0x2071, 0x2071); (0x207F, 0x207F); (0x2090, 0x209C); (0x2102, 0x2102);
    (0x2107, 0x2107); (0x210A, 0x2113); (0x2115, 0x2115); (0x2119, 0x211D);
    (0x2124, 0x2124); (0x2126, 0x2126); (0x2128, 0x2128); (0x212A, 0x212D);
    (0x212F, 0x2134); (0x2139, 0x2139); (0x213C, 0x213F); (0x2145, 0x2149);
    (0x214E, 0x214E); (0x2160, 0x217F); (0x2183, 0x2184); (0x24B6, 0x24E9);
    (0x2C00, 0x2CE4); (0x2CEB, 0x2CEE); (0x2CF2, 0x2CF3); (0x2D00, 0x2D25);
    (0x2D27, 0x2D27); (0x2D2D, 0x2D2D); (0xA640, 0xA66D); (0xA680, 0xA69D);
    (0xA722, 0xA787); (0xA78B, 0xA78E); (0xA790, 0xA7CA); (0xA7D0, 0xA7D1);
    (0xA7D3, 0xA7D3); (0xA7D5, 0xA7D9); (0xA7F5, 0xA7F6); (0xA7F8, 0xA7FA);
    (0xAB30, 0xAB5A); (0xAB5C, 0xAB68); (0xAB70, 0xABBF); (0xFB00, 0xFB06);
    (0xFB13, 0xFB17); (0xFF21, 0xFF3A); (0xFF41, 0xFF5A); (0x10400, 0x1044F);
    (0x104B0, 0x104D3); (0x104D8, 0x104FB); (0x10570, 0x1057A);
    (0x1057C, 0x1058A); (0x1058C, 0x10592); (0x10594, 0x10595);
    (0x10597, 0x105A1); (0x105A3, 0x105B1); (0x105B3, 0x105B9);
    (0x105BB, 0x105BC); (0x10780, 0x10780); (0x10783, 0x10785);
    (0x10787, 0x107B0); (0x107B2, 0x107BA); (0x10C80, 0x10CB2);
    (0x10CC0, 0x10CF2); (0x118A0, 0x118DF); (0x16E40, 0x16E7F);
    (0x1D400, 0x1D454); (0x1D456, 0x1D49C); (0x1D49E, 0x1D49F);
    (0x1D4A2, 0x1D4A2); (0x1D4A5, 0x1D4A6); (0x1D4A9, 0x1D4AC);
    (0x1D4AE, 0x1D4B9); (0x1D4BB, 0x1D4BB); (0x1D4BD, 0x1D4C3);
    (0x1D4C5, 0x1D505); (0x1D507, 0x1D50A); (0x1D50D, 0x1D514);
    (0x1D516, 0x1D51C); (0x1D51E, 0x1D539); (0x1D53B, 0x1D53E);
    (0x1D540, 0x1D544); (0x1D546, 0x1D546); (0x1D54A, 0x1D550);
    (0x1D552, 0x1D6A5); (0x1D6A8, 0x1D6C0); (0x1D6C2, 0x1D6DA);
    (0x1D6DC, 0x1D6FA); (0x1D6FC, 0x1D714); (0x1D716, 0x1D734);
    (0x1D736, 0x1D74E); (0x1D750, 0x1D76E); (0x1D770, 0x1D788);
    (0x1D78A, 0x1D7A8); (0x1D7AA, 0x1D7C2); (0x1D7C4, 0x1D7CB);
    (0x1DF00, 0x1DF09); (0x1DF0B, 0x1DF1E); (0x1E900, 0x1E943);
    (0x1F130, 0x1F149); (0x1F150, 0x1F169); (0x1F170, 0x1F189) ]%N.

(** Case_Ignorable (DerivedCoreProperties.txt). *)
Definition caseIgnorableRanges : list (N * N) :=
  [ (0x27, 0x27); (0x2E, 0x2E); (0x3A, 0x3A); (0x5E, 0x5E); (0x60, 0x60);
    (0xA8, 0xA8); (0xAD, 0xAD); (0xAF, 0xAF); (0xB4, 0xB4); (0xB7, 0xB8);
    (0x2B0, 0x36F); (0x374, 0x375); (0x37A, 0x37A); (0x384, 0x385);
    (0x387, 0x387); (0x483, 0x489); (0x559, 0x559); (0x55F, 0x55F);
    (0x591, 0x5BD); (0x5BF, 0x5BF); (0x5C1, 0x5C2); (0x5C4, 0x5C5);
    (0x5C7, 0x5C7); (0x5F4, 0x5F4); (0x600, 0x605); (0x610, 0x61A);
    (0x61C, 0x61C); (0x640, 0x640); (0x64B, 0x65F); (0x670, 0x670);
    (0x6D6, 0x6DD); (0x6DF, 0x6E8); (0x6EA, 0x6ED); (0x70F, 0x70F);
    (0x711, 0x711); (0x730, 0x74A); (0x7A6, 0x7B0); (0x7EB, 0x7F5);
    (0x7FA, 0x7FA); (0x7FD, 0x7FD); (0x816, 0x82D); (0x859, 0x85B);
    (0x888, 0x888); (0x890, 0x891); (0x898, 0x89F); (0x8C9, 0x902);
    (0x93A, 0x93A); (0x93C, 0x93C); (0x941, 0x948); (0x94D, 0x94D);
    (0x951, 0x957); (0x962, 0x963); (0x971, 0x971); (0x981, 0x981);
    (0x9BC, 0x9BC); (0x9C1, 0x9C4); (0x9CD, 0x9CD); (0x9E2, 0x9E3);
    (0x9FE, 0x9FE); (0xA01, 0xA02); (0xA3C, 0xA3C); (0xA41, 0xA42);
    (0xA47, 0xA48); (0xA4B, 0xA4D); (0xA51, 0xA51); (0xA70, 0xA71);
    (0xA75, 0xA75); (0xA81, 0xA82); (0xABC, 0xABC); (0xAC1, 0xAC5);
    (0xAC7, 0xAC8); (0xACD, 0xACD); (0xAE2, 0xAE3); (0xAFA, 0xAFF);
    (0xB01, 0xB01); (0xB3C, 0xB3C); (0xB3F, 0xB3F); (0xB41, 0xB44);
    (0xB4D, 0xB4D); (0xB55, 0xB56); (0xB62, 0xB63); (0xB82, 0xB82);
    (0xBC0, 0xBC0); (0xBCD, 0xBCD); (0xC00, 0xC00); (0xC04, 0xC04);
    (0xC3C, 0xC3C); (0xC3E, 0xC40); (0xC46, 0xC48); (0xC4A, 0xC4D);
    (0xC55, 0xC56); (0xC62, 0xC63); (0xC81, 0xC81); (0xCBC, 0xCBC);
    (0xCBF, 0xCBF); (0xCC6, 0xCC6); (0xCCC, 0xCCD); (0xCE2, 0xCE3);
    (0xD00, 0xD01); (0xD3B, 0xD3C); (0xD41, 0xD44); (0xD4D, 0xD4D);
    (0xD62, 0xD63); (0xD81, 0xD81); (0xDCA, 0xDCA); (0xDD2, 0xDD4);
    (0xDD6, 0xDD6); (0xE31, 0xE31); (0xE34, 0xE3A); (0xE46, 0xE4E);
    (0xEB1, 0xEB1); (0xEB4, 0xEBC); (0xEC6, 0xEC6); (0xEC8, 0xECD);
    (0xF18, 0xF19); (0xF35, 0xF35); (0xF37, 0xF37); (0xF39, 0xF39);
    (0xF71, 0xF7E); (0xF80, 0xF84); (0xF86, 0xF87); (0xF8D, 0xF97);
    (0xF99, 0xFBC); (0xFC6, 0xFC6); (0x102D, 0x1030); (0x1032, 0x1037);
    (0x1039, 0x103A); (0x103D, 0x103E); (0x1058, 0x1059); (0x105E, 0x1060);
    (0x1071, 0x1074); (0x1082, 0x1082); (0x1085, 0x1086); (0x108D, 0x108D);
    (0x109D, 0x109D); (0x10FC, 0x10FC); (0x135D, 0x135F); (0x1712, 0x1714);
    (0x1732, 0x1733); (0x1752, 0x1753); (0x1772, 0x1773); (0x17B4, 0x17B5);
    (0x17B7, 0x17BD); (0x17C6, 0x17C6); (0x17C9, 0x17D3); (0x17D7, 0x17D7);
    (0x17DD, 0x17DD); (0x180B, 0x180F); (0x1843, 0x1843); (0x1885, 0x1886);
    (0x18A9, 0x18A9); (0x1920, 0x1922); (0x1927, 0x1928); (0x1932, 0x1932);
    (0x1939, 0x193B); (0x1A17, 0x1A18); (0x1A1B, 0x1A1B); (0x1A56, 0x1A56);
    (0x1A58, 0x1A5E); (0x1A60, 0x1A60); (0x1A62, 0x1A62); (0x1A65, 0x1A6C);
    (0x1A73, 0x1A7C); (0x1A7F, 0x1A7F); (0x1AA7, 0x1AA7); (0x1AB0, 0x1ACE);
    (0x1B00, 0x1B03); (0x1B34, 0x1B34); (0x1B36, 0x1B3A); (0x1B3C, 0x1B3C);
    (0x1B42, 0x1B42); (0x1B6B, 0x1B73); (0x1B80, 0x1B81); (0x1BA2, 0x1BA5);
    (0x1BA8, 0x1BA9); (0x1BAB, 0x1BAD); (0x1BE6, 0x1BE6); (0x1BE8, 0x1BE9);
    (0x1BED, 0x1BED); (0x1BEF, 0x1BF1); (0x1C2C, 0x1C33); (0x1C36, 0x1C37);
    (0x1C78, 0x1C7D); (0x1CD0, 0x1CD2); (0x1CD4, 0x1CE0); (0x1CE2, 0x1CE8);
    (0x1CED, 0x1CED); (0x1CF4, 0x1CF4); (0x1CF8, 0x1CF9); (0x1D2C, 0x1D6A);
    (0x1D78, 0x1D78); (0x1D9B, 0x1DFF); (0x1FBD, 0x1FBD); (0x1FBF, 0x1FC1);
    (0x1FCD, 0x1FCF); (0x1FDD, 0x1FDF); (0x1FED, 0x1FEF); (0x1FFD, 0x1FFE);
    (0x200B, 0x200F); (0x2018, 0x2019); (0x2024, 0x2024); (0x2027, 0x2027);
    (0x202A, 0x202E); (0x2060, 0x2064); (0x2066, 0x206F); (0x2071, 0x2071);
    (0x207F, 0x207F); (0x2090, 0x209C); (0x20D0, 0x20F0); (0x2C7C, 0x2C7D);
    (0x2CEF, 0x2CF1); (0x2D6F, 0x2D6F); (0x2D7F, 0x2D7F); (0x2DE0, 0x2DFF);
    (0x2E2F, 0x2E2F); (0x3005, 0x3005); (0x302A, 0x302D); (0x3031, 0x3035);
    (0x303B, 0x303B); (0x3099, 0x309E); (0x30FC, 0x30FE); (0xA015, 0xA015);
    (0xA4F8, 0xA4FD); (0xA60C, 0xA60C); (0xA66F, 0xA672); (0xA674, 0xA67D);
    (0xA67F, 0xA67F); (0xA69C, 0xA69F); (0xA6F0, 0xA6F1); (0xA700, 0xA721);
    (0xA770, 0xA770); (0xA788, 0xA78A); (0xA7F2, 0xA7F4); (0xA7F8, 0xA7F9);
    (0xA802, 0xA802); (0xA806, 0xA806); (0xA80B, 0xA80B); (0xA825, 0xA826);
    (0xA82C, 0xA82C); (0xA8C4, 0xA8C5); (0xA8E0, 0xA8F1); (0xA8FF, 0xA8FF);
    (0xA926, 0xA92D); (0xA947, 0xA951); (0xA980, 0xA982); (0xA9B3, 0xA9B3);
    (0xA9B6, 0xA9B9); (0xA9BC, 0xA9BD); (0xA9CF, 0xA9CF); (0xA9E5, 0xA9E6);
    (0xAA29, 0xAA2E); (0xAA31, 0xAA32); (0xAA35, 0xAA36); (0xAA43, 0xAA43);
    (0xAA4C, 0xAA4C); (0xAA70, 0xAA70); (0xAA7C, 0xAA7C); (0xAAB0, 0xAAB0);
    (0xAAB2, 0xAAB4); (0xAAB7, 0xAAB8); (0xAABE, 0xAABF); (0xAAC1, 0xAAC1);
    (0xAADD, 0xAADD); (0xAAEC, 0xAAED); (0xAAF3, 0xAAF4); (0xAAF6, 0xAAF6);
    (0xAB5B, 0xAB5F); (0xAB69, 0xAB6B); (0xABE5, 0xABE5); (0xABE8, 0xABE8);
    (0xABED, 0xABED); (0xFB1E, 0xFB1E); (0xFBB2, 0xFBC2); (0xFE00, 0xFE0F);
    (0xFE13, 0xFE13); (0xFE20, 0xFE2F); (0xFE52, 0xFE52); (0xFE55, 0xFE55);
    (0xFEFF, 0xFEFF); (0xFF07, 0xFF07); (0xFF0E, 0xFF0E); (0xFF1A, 0xFF1A);
    (0xFF3E, 0xFF3E); (0xFF40, 0xFF40); (0xFF70, 0xFF70); (0xFF9E, 0xFF9F);
    (0xFFE3, 0xFFE3); (0xFFF9, 0xFFFB); (0x101FD, 0x101FD);
    (0x102E0, 0x102E0); (0x10376, 0x1037A); (0x10780, 0x10785);
    (0x10787, 0x107B0); (0x107B2, 0x107BA); (0x10A01, 0x10A03);
    (0x10A05, 0x10A06); (0x10A0C, 0x10A0F); (0x10A38, 0x10A3A);
    (0x10A3F, 0x10A3F); (0x10AE5, 0x10AE6); (0x10D24, 0x10D27);
    (0x10EAB, 0x10EAC); (0x10F46, 0x10F50); (0x10F82, 0x10F85);
    (0x11001, 0x11001); (0x11038, 0x11046); (0x11070, 0x11070);
    (0x11073, 0x11074); (0x1107F, 0x11081); (0x110B3, 0x110B6);
    (0x110B9, 0x110BA); (0x110BD, 0x110BD); (0x110C2, 0x110C2);
    (0x110CD, 0x110CD); (0x11100, 0x11102); (0x11127, 0x1112B);
    (0x1112D, 0x11134); (0x11173, 0x11173); (0x11180, 0x11181);
    (0x111B6, 0x111BE); (0x111C9, 0x111CC); (0x111CF, 0x111CF);
    (0x1122F, 0x11231); (0x11234, 0x11234); (0x11236, 0x11237);
    (0x1123E, 0x1123E); (0x112DF, 0x112DF); (0x112E3, 0x112EA);
    (0x11300, 0x11301); (0x1133B, 0x1133C); (0x11340, 0x11340);
    (0x11366, 0x1136C); (0x11370, 0x11374); (0x11438, 0x1143F);
    (0x11442, 0x11444); (0x11446, 0x11446); (0x1145E, 0x1145E);
    (0x114B3, 0x114B8); (0x114BA, 0x114BA); (0x114BF, 0x114C0);
    (0x114C2, 0x114C3); (0x115B2, 0x115B5); (0x115BC, 0x115BD);
    (0x115BF, 0x115C0); (0x115DC, 0x115DD); (0x11633, 0x1163A);
    (0x1163D, 0x1163D); (0x1163F, 0x11640); (0x116AB, 0x116AB);
    (0x116AD, 0x116AD); (0x116B0, 0x116B5); (0x116B7, 0x116B7);
    (0x1171D, 0x1171F); (0x11722, 0x11725); (0x11727, 0x1172B);
    (0x1182F, 0x11837); (0x11839, 0x1183A); (0x1193B, 0x1193C);
    (0x1193E, 0x1193E); (0x11943, 0x11943); (0x119D4, 0x119D7);
    (0x119DA, 0x119DB); (0x119E0, 0x119E0); (0x11A01, 0x11A0A);
    (0x11A33, 0x11A38); (0x11A3B, 0x11A3E); (0x11A47, 0x11A47);
    (0x11A51, 0x11A56); (0x11A59, 0x11A5B); (0x11A8A, 0x11A96);
    (0x11A98, 0x11A99); (0x11C30, 0x11C36); (0x11C38, 0x11C3D);
    (0x11C3F, 0x11C3F); (0x11C92, 0x11CA7); (0x11CAA, 0x11CB0);
    (0x11CB2, 0x11CB3); (0x11CB5, 0x11CB6); (0x11D31, 0x11D36);
    (0x11D3A, 0x11D3A); (0x11D3C, 0x11D3D); (0x11D3F, 0x11D45);
    (0x11D47, 0x11D47); (0x11D90, 0x11D91); (0x11D95, 0x11D95);
    (0x11D97, 0x11D97); (0x11EF3, 0x11EF4); (0x13430, 0x13438);
    (0x16AF0, 0x16AF4); (0x16B30, 0x16B36); (0x16B40, 0x16B43);
    (0x16F4F, 0x16F4F); (0x16F8F, 0x16F9F); (0x16FE0, 0x16FE1);
    (0x16FE3, 0x16FE4); (0x1AFF0, 0x1AFF3); (0x1AFF5, 0x1AFFB);
    (0x1AFFD, 0x1AFFE); (0x1BC9D, 0x1BC9E); (0x1BCA0, 0x1BCA3);
    (0x1CF00, 0x1CF2D); (0x1CF30, 0x1CF46); (0x1D167, 0x1D169);
    (0x1D173, 0x1D182); (0x1D185, 0x1D18B); (0x1D1AA, 0x1D1AD);
    (0x1D242, 0x1D244); (0x1DA00, 0x1DA36); (0x1DA3B, 0x1DA6C);
    (0x1DA75, 0x1DA75); (0x1DA84, 0x1DA84); (0x1DA9B, 0x1DA9F);
    (0x1DAA1, 0x1DAAF); (0x1E000, 0x1E006); (0x1E008, 0x1E018);
    (0x1E01B, 0x1E021); (0x1E023, 0x1E024); (0x1E026, 0x1E02A);
    (0x1E130, 0x1E13D); (0x1E2AE, 0x1E2AE); (0x1E2EC, 0x1E2EF);
    (0x1E8D0, 0x1E8D6); (0x1E944, 0x1E94B); (0x1F3FB, 0x1F3FF);
    (0xE0001, 0xE0001); (0xE0020, 0xE007F); (0xE0100, 0xE01EF) ]%N.

Definition simpleLowercase (cp : N) : N := lowerIn lowercaseBlocks cp.

Definition cased (cp : N) : bool := inRanges casedRanges cp.

Definition caseIgnorable (cp : N) : bool := inRanges caseIgnorableRanges cp.

Arguments simpleLowercase : simpl never.
Arguments cased : simpl never.
Arguments caseIgnorable : simpl never.

(** The full lower-case mapping of a code point, apart from the capital
    sigma: the one unconditional entry of SpecialCasing.txt turns U+0130
    into an i followed by a combining dot above. *)
Definition lowerCodePoint (cp : N) : list N :=
  if (cp =? 0x130)%N then [0x69; 0x307]%N else [simpleLowercase cp].

(** The second half of the condition Final_Sigma, as the engines evaluate
    it: the case-ignorable code points that follow are skipped, and the
    first other one decides. *)
Fixpoint followedByCasedLetter (cps : list N) : bool :=
  match cps with
  | [] => false
  | cp :: rest =>
      if caseIgnorable cp then followedByCasedLetter rest else cased cp
  end.

(** What the code point [cp] becomes when it stands before [rest].
    [afterCased] is the first half of Final_Sigma: going back from [cp]
    over the case-ignorable code points, the first other code point is
    cased. A capital sigma for which Final_Sigma holds becomes a final
    small sigma. *)
Definition lowerAt (afterCased : bool) (cp : N) (rest : list N) : list N :=
  if (cp =? 0x3A3)%N then
    [ if afterCased && negb (followedByCasedLetter rest)
      then 0x3C2%N else 0x3C3%N ]
  else lowerCodePoint cp.

(** [afterCased] for the code point that follows [cp]. *)
Definition casedBefore (afterCased : bool) (cp : N) : bool :=
  if caseIgnorable cp then afterCased else cased cp.

(** toLowercase of the Unicode default case conversion, without a
    locale. *)
Fixpoint toLowercase (afterCased : bool) (cps : list N) : list N :=
  match cps with
  | [] => []
  | cp :: rest =>
      lowerAt afterCased cp rest ++ toLowercase (casedBefore afterCased cp) rest
  end.

(** [String.prototype.toLowerCase]. *)
Definition toLowerCase (s : jsstring) : jsstring :=
  codePointsToString (toLowercase false (stringToCodePoints s)).

(** ECMAScript WhiteSpace and LineTerminator code units: what [trim]
    strips, and what [\s] matches in a regular expression. *)
Definition isWhiteSpace (c : N) : bool :=
  ((9 <=? c) && (c <=? 13) || (c =? 32) || (c =? 160) || (c =? 5760)
   || (8192 <=? c) && (c <=? 8202) || (c =? 8232) || (c =? 8233)
   || (c =? 8239) || (c =? 8287) || (c =? 12288) || (c =? 65279))%N.

(** [\w] without the unicode flag: [A-Za-z0-9_]. *)
Definition isWordChar (c : N) : bool :=
  ((65 <=? c) && (c <=? 90) || (97 <=? c) && (c <=? 122)
   || (48 <=? c) && (c <=? 57) || (c =? 95))%N.

Fixpoint trimStart (s : jsstring) : jsstring :=
  match s with
  | c :: s' => if isWhiteSpace c then trimStart s' else s
  | [] => []
  end.

Definition trimEnd (s : jsstring) : jsstring := rev (trimStart (rev s)).

Definition trim (s : jsstring) : jsstring := trimEnd (trimStart s).

Fixpoint startsWith (s pat : jsstring) {struct pat} : bool :=
  match pat, s with
  | [], _ => true
  | p :: pat', c :: s' => (c =? p)%N && startsWith s' pat'
  | _ :: _, [] => false
  end.

Fixpoint indexOfFrom (s pat : jsstring) (i : Z) : Z :=
  if startsWith s pat then i
  else match s with
       | [] => (-1)%Z
       | _ :: s' => indexOfFrom s' pat (i + 1)%Z
       end.

(** [s.indexOf(pat)]: the index of the first occurrence, or -1. *)
Definition indexOf (s pat : jsstring) : Z := indexOfFrom s pat 0%Z.

(** [s.substr(start)] with one argument: a negative [start] counts from the
    end of the string. *)
Definition substr (s : jsstring) (start : Z) : jsstring :=
  let len := Z.of_nat (List.length s) in
  let from := if (start <? 0)%Z then Z.max (len + start) 0 else Z.min start len in
  skipn (Z.to_nat from) s.

(** A string is truthy when it is not empty. *)
Definition nonEmpty (s : jsstring) : bool :=
  match s with [] => false | _ :: _ => true end.

(* ================================================================== *)
(** ** The regular expressions of the command switch *)
(* ================================================================== *)

(** The five patterns are sequences of single characters, of the class [\s]
    and of starred classes [\w*]; the capture groups only delimit literals
    and none of them is read ([match(...)?.input] is the whole subject). *)
Inductive Atom : Type :=
| Chr (c : N)
| Cls (p : N -> bool).

Inductive Piece : Type :=
| One (a : Atom)
| Many (a : Atom).

Definition Regex := list Piece.

Definition atomMatches (a : Atom) (c : N) : bool :=
  match a with
  | Chr x => (c =? x)%N
  | Cls p => p c
  end.

(** Is there a match of [re] that starts at the head of [s]? *)
Fixpoint matchHere (re : Regex) (s : jsstring) : bool :=
  match re with
  | [] => true
  | One a :: re' =>
      match s with
      | c :: s' => atomMatches a c && matchHere re' s'
      | [] => false
      end
  | Many a :: re' =>
      (fix many (s : jsstring) : bool :=
         matchHere re' s
         || match s with
            | c :: s' => atomMatches a c && many s'
            | [] => false
            end) s
  end.

(** [s.match(re)] without the global flag succeeds when a match starts at
    some index of [s]. *)
Fixpoint regexMatch (re : Regex) (s : jsstring) : bool :=
  matchHere re s
  || match s with
     | [] => false
     | _ :: s' => regexMatch re s'
     end.

Definition lit (s : jsstring) : Regex := map (fun c => One (Chr c)) s.

Definition w_star : Piece := Many (Cls isWordChar).
Definition ws : Piece := One (Cls isWhiteSpace).

(** [/\w*(neuer)\s(termin)\w*/] *)
Definition rxNeuerTermin : Regex :=
  w_star :: lit (js "neuer") ++ ws :: lit (js "termin") ++ [w_star].

(** [/\w*(auf)\s(ein)\s(wiederhören)\w*/] *)
Definition rxAufEinWiederhoeren : Regex :=
  w_star :: lit (js "auf") ++ ws :: lit (js "ein") ++ ws
    :: lit (js "wiederhören") ++ [w_star].

(** [/\w*(hilfe)\w*/] *)
Definition rxHilfe : Regex := w_star :: lit (js "hilfe") ++ [w_star].

(** [/(lösche)\w*/] *)
Definition rxLoesche : Regex := lit (js "lösche") ++ [w_star].

(** [/(zeige)\w*/] *)
Definition rxZeige : Regex := lit (js "zeige") ++ [w_star].

(** The command a transcript stands for: one constructor per [case] of the
    switch in the recognition-result handler, in the order of the switch,
    and [Unrecognized] for its [default]. The delete and show branches
    compute the name of the event as their first statement. *)
Inductive Command : Type :=
| CreateAppointment
| EndSession
| Help
| Delete (eventName : jsstring)
| Show (eventName : jsstring)
| Unrecognized.

(** [recognitionResult.substr(recognitionResult.indexOf(" ")).trim()] *)
Definition extractEventName (recognitionResult : jsstring) : jsstring :=
  trim (substr recognitionResult (indexOf recognitionResult (js " "))).

(** [switch (recognitionResult) { case recognitionResult.match(re)?.input: ... }]:
    a case label is the subject itself when [re] matches and [undefined]
    otherwise, so the first case whose pattern matches is taken. *)
Definition classify (recognitionResult : jsstring) : Command :=
  if regexMatch rxNeuerTermin recognitionResult then CreateAppointment
  else if regexMatch rxAufEinWiederhoeren recognitionResult then EndSession
  else if regexMatch rxHilfe recognitionResult then Help
  else if regexMatch rxLoesche recognitionResult then
    Delete (extractEventName recognitionResult)
  else if regexMatch rxZeige recognitionResult then
    Show (extractEventName recognitionResult)
  else Unrecognized.

(* ================================================================== *)
(** ** JavaScript values that cross the component's boundary *)
(* ================================================================== *)

(** What the appointment creator dialog hands back is typed
    [PathwayEvent | WebSpeechSynthesisMessage] but inspected at run time
    only; it is embedded as an untyped value. Numbers are the integers and
    NaN (any other number is truthy, like a non-zero integer); an object is
    the list of its properties. *)
#[warnings="-register-all"]
Inductive JsValue : Type :=
| JsUndefined
| JsNull
| JsBoolean (b : bool)
| JsNumber (z : Z)
| JsNaN
| JsString (s : jsstring)
| JsObject (properties : list (jsstring * JsValue)).

(** ToBoolean. *)
Definition truthy (v : JsValue) : bool :=
  match v with
  | JsUndefined | JsNull | JsNaN => false
  | JsBoolean b => b
  | JsNumber z => negb (z =? 0)%Z
  | JsString s => nonEmpty s
  | JsObject _ => true
  end.

Fixpoint lookupProperty (key : jsstring) (properties : list (jsstring * JsValue))
  : JsValue :=
  match properties with
  | [] => JsUndefined
  | (k, v) :: rest => if jsstring_eqb k key then v else lookupProperty key rest
  end.

(** [v?.key]; it is also [v.key] wherever the component reads a property of
    a value it has just tested to be truthy. The properties read
    ([date], [header], [content], [data]) exist on no primitive value. *)
Definition getProperty (v : JsValue) (key : jsstring) : JsValue :=
  match v with
  | JsObject properties => lookupProperty key properties
  | _ => JsUndefined
  end.

(** [SpeechSynthesisVoice]. *)
Record Voice : Type := mkVoice {
  voiceURI : jsstring;
  name : jsstring;
  lang : jsstring;
  localService : bool;
  default : bool
}.

(* ================================================================== *)
(** ** Collaborators: observables, dialogs and the call log *)
(* ================================================================== *)

Inductive DialogKind : Type :=
| PathwayControlHelpDialogComponent
| PathwayAppointmentCreatorComponent.

(** The callbacks the component passes to [subscribe], one constructor per
    arrow function of the source. A dialog callback remembers the dialog
    whose [afterClosed] it was given to. *)
Inductive Handler : Type :=
| OnSpeechRecognitionResultAvailable
| OnSpeechRecognitionStarted
| OnSpeechRecognitionEnded
| OnSpeechRecognitionError
| OnPathwayEventDeleted
| OnVoiceListUpdated
| OnSpeechStartAfterDeletion
| OnSpeechEndAfterDeleteCommand
| OnSpeechEndAfterCreatorDialog
| HelpDialogAfterClosed (dialog : nat)
| CreatorDialogAfterClosed (dialog : nat).

(** An rxjs [Subscription]: the object [subscribe] returns. Every call of
    [subscribe] makes a new one. *)
Record Subscription : Type := mkSubscription {
  sid : nat;
  handler : Handler
}.

Definition Handler_eq_dec (a b : Handler) : {a = b} + {a <> b}.
Proof. decide equality; apply Nat.eq_dec. Defined.

Definition Subscription_eq_dec (a b : Subscription) : {a = b} + {a <> b}.
Proof. decide equality; [apply Handler_eq_dec | apply Nat.eq_dec]. Defined.

Definition sameSubscription (a b : Subscription) : bool :=
  if Subscription_eq_dec a b then true else false.

(** The calls the component makes on its collaborators: the two speech
    services, the snack bar, the dialog service, its own three event
    emitters and the console. *)
Inductive Call : Type :=
| InitRecognition
| StartRecognition
| StopRecognition
| SpeakUtterance (text : JsValue)
| SetVoice (voice : Voice)
| SnackBarOpen (message : JsValue)
| DialogOpen (kind : DialogKind) (dialog : nat)
| NewPathwayEventCreated (event : JsValue)
| UserWantsToOpenEvent (eventName : jsstring)
| UserWantsDoDeleteEvent (eventName : jsstring)
| ConsoleLog (text : jsstring)
| ConsoleWarn (text : jsstring).

(** What reaches the component from outside: the events of the observables
    it subscribes to, the closing of a dialog it opened, and the three
    methods its template binds to the microphone button and the voice
    selection. *)
Inductive Event : Type :=
| SpeechRecognitionResultAvailable (data : jsstring)
| SpeechRecognitionStarted
| SpeechRecognitionEnded
| SpeechRecognitionError (data : jsstring)
| SpeechStart
| SpeechEnd
| VoiceListUpdated (allVoices : list Voice)
| PathwayEventDeleted (result : bool)
| DialogClosed (dialog : nat) (result : JsValue)
| ActivateVoiceControl
| DeactivateVoiceControl
| VoiceChanged (chosenVoiceURI : jsstring).

(** The component's fields, followed by the state of its collaborators as
    far as the component can observe it. *)
Record World : Type := mkWorld {
  availableVoices : list Voice;
  speechRecognitionAvailable : bool;
  pathIsListening : bool;
  currentSpeechRecognitionServiceSubscriptions : list Subscription;
  (* what [initRecognition] answers in this browser *)
  recognitionSupported : bool;
  (* the subscriptions that are active, oldest first *)
  subscriptions : list Subscription;
  nextSubscription : nat;
  nextDialog : nat;
  (* the calls made so far, oldest first *)
  calls : list Call
}.

Definition initial (supported : bool) : World :=
  {| availableVoices := [];
     speechRecognitionAvailable := false;
     pathIsListening := false;
     currentSpeechRecognitionServiceSubscriptions := [];
     recognitionSupported := supported;
     subscriptions := [];
     nextSubscription := 0;
     nextDialog := 0;
     calls := [] |}.

(** *** A state monad over [World] *)

Definition M (A : Type) : Type := World -> A * World.

Definition ret {A : Type} (a : A) : M A := fun w => (a, w).

Definition bind {A B : Type} (m : M A) (k : A -> M B) : M B :=
  fun w => let r := m w in k (fst r) (snd r).

Definition exec {A : Type} (m : M A) (w : World) : World := snd (m w).

Declare Scope comp_scope.
Delimit Scope comp_scope with comp.
Bind Scope comp_scope with M.
Notation "x <- m ;; k" := (bind m (fun x => k))
  (at level 61, m at next level, right associativity) : comp_scope.
Notation "m ;; k" := (bind m (fun _ => k))
  (at level 61, right associativity) : comp_scope.
Local Open Scope comp_scope.

Definition modify (f : World -> World) : M unit := fun w => (tt, f w).

Definition setAvailableVoices (v : list Voice) (w : World) : World :=
  mkWorld v (speechRecognitionAvailable w) (pathIsListening w)
    (currentSpeechRecognitionServiceSubscriptions w) (recognitionSupported w)
    (subscriptions w) (nextSubscription w) (nextDialog w) (calls w).

Definition setSpeechRecognitionAvailable (b : bool) (w : World) : World :=
  mkWorld (availableVoices w) b (pathIsListening w)
    (currentSpeechRecognitionServiceSubscriptions w) (recognitionSupported w)
    (subscriptions w) (nextSubscription w) (nextDialog w) (calls w).

Definition setPathIsListening (b : bool) (w : World) : World :=
  mkWorld (availableVoices w) (speechRecognitionAvailable w) b
    (currentSpeechRecognitionServiceSubscriptions w) (recognitionSupported w)
    (subscriptions w) (nextSubscription w) (nextDialog w) (calls w).

Definition setCurrentSubscriptions (l : list Subscription) (w : World) : World :=
  mkWorld (availableVoices w) (speechRecognitionAvailable w) (pathIsListening w)
    l (recognitionSupported w)
    (subscriptions w) (nextSubscription w) (nextDialog w) (calls w).

Definition setSubscriptions (l : list Subscription) (w : World) : World :=
  mkWorld (availableVoices w) (speechRecognitionAvailable w) (pathIsListening w)
    (currentSpeechRecognitionServiceSubscriptions w) (recognitionSupported w)
    l (nextSubscription w) (nextDialog w) (calls w).

Definition setNextSubscription (n : nat) (w : World) : World :=
  mkWorld (availableVoices w) (speechRecognitionAvailable w) (pathIsListening w)
    (currentSpeechRecognitionServiceSubscriptions w) (recognitionSupported w)
    (subscriptions w) n (nextDialog w) (calls w).

Definition setNextDialog (n : nat) (w : World) : World :=
  mkWorld (availableVoices w) (speechRecognitionAvailable w) (pathIsListening w)
    (currentSpeechRecognitionServiceSubscriptions w) (recognitionSupported w)
    (subscriptions w) (nextSubscription w) n (calls w).

Definition setCalls (l : list Call) (w : World) : World :=
  mkWorld (availableVoices w) (speechRecognitionAvailable w) (pathIsListening w)
    (currentSpeechRecognitionServiceSubscriptions w) (recognitionSupported w)
    (subscriptions w) (nextSubscription w) (nextDialog w) l.

(** *** The collaborators' operations *)

(** Modelled from the spec: [SpeechRecognitionService],
    [SpeechSynthesisService] and [PathwayService] (shared/services) are not
    among the sources, nor are the dialog service and the snack bar. A call
    to one of them is recorded in the log and has no other effect at the
    time of the call; their events arrive later, as an [Event]. *)
Definition call (c : Call) : M unit :=
  modify (fun w => setCalls (calls w ++ [c]) w).

(** Modelled from the spec: the observables the missing services return
    ([onSpeechRecognitionResultAvailable()], [onSpeechEnd()], ...).
    [observable.subscribe(callback)] registers the callback and returns a
    new [Subscription]. *)
Definition subscribe (h : Handler) : M Subscription :=
  fun w =>
    let s := mkSubscription (nextSubscription w) h in
    (s, setNextSubscription (S (nextSubscription w))
          (setSubscriptions (subscriptions w ++ [s]) w)).

(** Modelled from the spec: the subscriptions of those observables.
    [subscription.unsubscribe()] removes that subscription; unsubscribing
    twice is harmless. *)
Definition unsubscribe (s : Subscription) : M unit :=
  modify (fun w =>
    setSubscriptions
      (filter (fun x => negb (sameSubscription x s)) (subscriptions w)) w).

(** [array.forEach(f)] *)
Fixpoint forEach {A : Type} (l : list A) (f : A -> M unit) : M unit :=
  match l with
  | [] => ret tt
  | x :: l' => f x ;; forEach l' f
  end.

(** Modelled from the spec: [SpeechRecognitionService.initRecognition],
    which is not among the sources; [initRecognition() -> boolean] answers
    whether recognition is available. *)
Definition initRecognition : M bool :=
  call InitRecognition ;;
  fun w => (recognitionSupported w, w).

Definition startRecognition : M unit := call StartRecognition.
Definition stopRecognition : M unit := call StopRecognition.
Definition speakUtterance (text : JsValue) : M unit := call (SpeakUtterance text).

(** Modelled from the spec: the dialog collaborator ([MatDialog]).
    [dialog.open(component, config)] shows a new dialog and returns its
    reference. *)
Definition dialogOpen (kind : DialogKind) : M nat :=
  fun w =>
    let d := nextDialog w in
    (d, setNextDialog (S d) (setCalls (calls w ++ [DialogOpen kind d]) w)).

(* ================================================================== *)
(** ** The component *)
(* ================================================================== *)

Definition displayMessage (errorMessage : JsValue) : M unit :=
  call (SnackBarOpen errorMessage).

Definition push (s : Subscription) : M unit :=
  modify (fun w =>
    setCurrentSubscriptions
      (currentSpeechRecognitionServiceSubscriptions w ++ [s]) w).

Definition setupSpeechRecognitionBehaviour : M unit :=
  s1 <- subscribe OnSpeechRecognitionResultAvailable ;; push s1 ;;
  s2 <- subscribe OnSpeechRecognitionStarted ;; push s2 ;;
  s3 <- subscribe OnSpeechRecognitionEnded ;; push s3 ;;
  s4 <- subscribe OnSpeechRecognitionError ;; push s4.

Definition unsubscribeFromAllSubscriptions : M unit :=
  (fun w => forEach (currentSpeechRecognitionServiceSubscriptions w)
              unsubscribe w) ;;
  modify (setCurrentSubscriptions []).

Definition restartSpeechRecognition : M unit :=
  call (ConsoleLog (js "Restarting speech recognition")) ;;
  unsubscribeFromAllSubscriptions ;;
  stopRecognition ;;
  _ <- initRecognition ;;
  setupSpeechRecognitionBehaviour ;;
  startRecognition.

Definition isPathwayEvent (objectToCheck : JsValue) : bool :=
  if truthy (getProperty objectToCheck (js "date"))
     && truthy (getProperty objectToCheck (js "header"))
     && truthy (getProperty objectToCheck (js "content"))
  then true
  else false.

(** The callback given to [afterClosed()] of the appointment creator. *)
Definition creatorDialogAfterClosed (result : JsValue) : M unit :=
  if truthy result then
    _ <- subscribe OnSpeechEndAfterCreatorDialog ;;
    if isPathwayEvent result then
      call (NewPathwayEventCreated result) ;;
      speakUtterance
        (JsString (js "Sie haben erfolgreich einen neuen Termin angelegt."))
    else
      let errorMessage := getProperty result (js "data") in
      displayMessage errorMessage ;;
      speakUtterance errorMessage
  else
    restartSpeechRecognition.

Definition openAndHandlePathwayAppointmentCreatorDialog : M unit :=
  stopRecognition ;;
  modify (setPathIsListening false) ;;
  unsubscribeFromAllSubscriptions ;;
  d <- dialogOpen PathwayAppointmentCreatorComponent ;;
  _ <- subscribe (CreatorDialogAfterClosed d) ;;
  ret tt.

Definition openHelpDialog : M unit :=
  d <- dialogOpen PathwayControlHelpDialogComponent ;;
  _ <- subscribe (HelpDialogAfterClosed d) ;;
  ret tt.

(** The body of the case the switch takes. *)
Definition caseBody (command : Command) : M unit :=
  match command with
  | CreateAppointment => openAndHandlePathwayAppointmentCreatorDialog
  | EndSession =>
      displayMessage (JsString (js "Man hört sich.")) ;;
      stopRecognition
  | Help => openHelpDialog
  | Delete eventName =>
      call (ConsoleLog (js "user wants to delete event " ++ eventName)) ;;
      (if nonEmpty eventName then call (UserWantsDoDeleteEvent eventName)
       else ret tt) ;;
      restartSpeechRecognition ;;
      _ <- subscribe OnSpeechEndAfterDeleteCommand ;;
      ret tt
  | Show eventName =>
      call (ConsoleLog (js "user wants to show details of event " ++ eventName)) ;;
      (if nonEmpty eventName then call (UserWantsToOpenEvent eventName)
       else ret tt) ;;
      restartSpeechRecognition
  | Unrecognized =>
      displayMessage
        (JsString (js "Dieses Sprachkommando wird nicht unterstützt.")) ;;
      restartSpeechRecognition
  end.

(** The callback of [onSpeechRecognitionResultAvailable()]. *)
Definition speechRecognitionResultAvailable (data : jsstring) : M unit :=
  stopRecognition ;;
  let recognitionResult := toLowerCase data in
  caseBody (classify recognitionResult).

(** The callback of [onPathwayEventDeleted()], installed by [ngOnInit]. *)
Definition pathwayEventDeleted (result : bool) : M unit :=
  _ <- subscribe OnSpeechStartAfterDeletion ;;
  if result then
    speakUtterance (JsString (js "Der Termin wurde erfolgreich gelöscht!"))
  else
    speakUtterance (JsString (js "Es gibt keinen Termin mit diesem Namen!")).

(** The callback of [onVoiceListUpdated()], installed by [ngOnInit]. *)
Definition voiceListUpdated (allVoices : list Voice) : M unit :=
  let germanVoices :=
    filter (fun voice => jsstring_eqb (lang voice) (js "de-DE")) allVoices in
  modify (setAvailableVoices germanVoices).

Definition ngOnInit : M unit :=
  available <- initRecognition ;;
  modify (setSpeechRecognitionAvailable available) ;;
  (if negb available then
     call (ConsoleWarn
       (js "Speech recognition not available. Please use Google Chrome instead.")) ;;
     displayMessage (JsString (js
       "Die Spracherkennung wird in diesem Browser nicht unterstützt. Bitte nutzen Sie Google Chrome."))
   else
     setupSpeechRecognitionBehaviour ;;
     startRecognition) ;;
  _ <- subscribe OnPathwayEventDeleted ;;
  _ <- subscribe OnVoiceListUpdated ;;
  ret tt.

Definition onActivateVoiceControl : M unit := restartSpeechRecognition.

Definition onDeactivateVoiceControl : M unit := stopRecognition.

Definition onVoiceChanged (chosenVoiceURI : jsstring) : M unit :=
  fun w =>
    match find (fun voice => jsstring_eqb (voiceURI voice) chosenVoiceURI)
               (availableVoices w) with
    | Some chosenVoice => call (SetVoice chosenVoice) w
    | None => (tt, w)
    end.

(* ================================================================== *)
(** ** Event delivery *)
(* ================================================================== *)

(** What the callback of subscription [self] does with event [e], if it is
    subscribed to the observable [e] comes from. The one-shot callbacks
    unsubscribe their own subscription first. *)
Definition react (self : Subscription) (e : Event) : option (M unit) :=
  match handler self, e with
  | OnSpeechRecognitionResultAvailable, SpeechRecognitionResultAvailable data =>
      Some (speechRecognitionResultAvailable data)
  | OnSpeechRecognitionStarted, SpeechRecognitionStarted =>
      Some (modify (setPathIsListening true))
  | OnSpeechRecognitionEnded, SpeechRecognitionEnded =>
      Some (modify (setPathIsListening false))
  | OnSpeechRecognitionError, SpeechRecognitionError data =>
      Some (call (ConsoleWarn data) ;; restartSpeechRecognition)
  | OnPathwayEventDeleted, PathwayEventDeleted result =>
      Some (pathwayEventDeleted result)
  | OnVoiceListUpdated, VoiceListUpdated allVoices =>
      Some (voiceListUpdated allVoices)
  | OnSpeechStartAfterDeletion, SpeechStart =>
      Some (unsubscribe self ;; stopRecognition)
  | OnSpeechEndAfterDeleteCommand, SpeechEnd =>
      Some (unsubscribe self ;; restartSpeechRecognition)
  | OnSpeechEndAfterCreatorDialog, SpeechEnd =>
      Some (unsubscribe self ;; restartSpeechRecognition)
  | HelpDialogAfterClosed d, DialogClosed d' _ =>
      if Nat.eqb d d' then Some restartSpeechRecognition else None
  | CreatorDialogAfterClosed d, DialogClosed d' result =>
      if Nat.eqb d d' then Some (creatorDialogAfterClosed result) else None
  | _, _ => None
  end.

Definition isSubscribed (s : Subscription) (w : World) : bool :=
  existsb (sameSubscription s) (subscriptions w).

Definition notify (e : Event) (w : World) (s : Subscription) : World :=
  match react s e with
  | Some body => if isSubscribed s w then exec body w else w
  | None => w
  end.

(** Modelled from the spec: how the observables of the missing services
    deliver an event. It is handed to the callbacks that were subscribed
    when the event was emitted, oldest first; a callback that an earlier one
    has unsubscribed is skipped, one that is subscribed meanwhile has to
    wait for the next event. *)
Definition emit (e : Event) (w : World) : World :=
  fold_left (notify e) (subscriptions w) w.

Definition belongsToDialog (d : nat) (s : Subscription) : bool :=
  match handler s with
  | HelpDialogAfterClosed d' | CreatorDialogAfterClosed d' => Nat.eqb d d'
  | _ => false
  end.

(** Modelled from the spec: the dialog reference of the dialog
    collaborator. [afterClosed()] emits once and completes, which releases
    its subscribers. *)
Definition complete (d : nat) (w : World) : World :=
  setSubscriptions
    (filter (fun s => negb (belongsToDialog d s)) (subscriptions w)) w.

Definition step (e : Event) (w : World) : World :=
  match e with
  | ActivateVoiceControl => exec onActivateVoiceControl w
  | DeactivateVoiceControl => exec onDeactivateVoiceControl w
  | VoiceChanged chosenVoiceURI => exec (onVoiceChanged chosenVoiceURI) w
  | DialogClosed d _ => complete d (emit e w)
  | _ => emit e w
  end.

(** The component is created, [ngOnInit] runs, then events arrive. *)
Definition run (events : list Event) (w : World) : World :=
  fold_left (fun w' e => step e w') events w.

Definition session (supported : bool) (events : list Event) : World :=
  run events (exec ngOnInit (initial supported)).


(* ================================================================== *)
(** ** Vocabulary of the properties *)
(* ================================================================== *)

(** [s.includes(pat)]: [pat] occurs somewhere in [s]. *)
Fixpoint includes (s pat : jsstring) : bool :=
  startsWith s pat
  || match s with
     | [] => false
     | _ :: s' => includes s' pat
     end.

(** The classifier in the words of the specification: an ordered table of
    pattern rules that is read from the top, the first rule whose pattern
    matches somewhere in the transcript decides, and a transcript that no
    rule matches is unrecognized. *)
Definition ruleTable : list (Regex * (jsstring -> Command)) :=
  [ (rxNeuerTermin, fun _ => CreateAppointment);
    (rxAufEinWiederhoeren, fun _ => EndSession);
    (rxHilfe, fun _ => Help);
    (rxLoesche, fun t => Delete (extractEventName t));
    (rxZeige, fun t => Show (extractEventName t)) ].

Fixpoint firstMatch (rules : list (Regex * (jsstring -> Command)))
  (transcript : jsstring) : Command :=
  match rules with
  | [] => Unrecognized
  | (pattern, command) :: rest =>
      if regexMatch pattern transcript then command transcript
      else firstMatch rest transcript
  end.

Definition classifyByRuleTable (transcript : jsstring) : Command :=
  firstMatch ruleTable transcript.

Definition space : N := 32%N.

(** The four callbacks [setupSpeechRecognitionBehaviour] installs. *)
Definition isRecognitionHandler (s : Subscription) : bool :=
  match handler s with
  | OnSpeechRecognitionResultAvailable
  | OnSpeechRecognitionStarted
  | OnSpeechRecognitionEnded
  | OnSpeechRecognitionError => true
  | _ => false
  end.

(** The subscriptions one call of [setupSpeechRecognitionBehaviour] makes
    when the next free subscription is number [n]. *)
Definition generation (n : nat) : list Subscription :=
  [ mkSubscription n OnSpeechRecognitionResultAvailable;
    mkSubscription (S n) OnSpeechRecognitionStarted;
    mkSubscription (S (S n)) OnSpeechRecognitionEnded;
    mkSubscription (S (S (S n))) OnSpeechRecognitionError ].

(** [subs] without the subscriptions listed in [l]. *)
Definition removeAll (l subs : list Subscription) : list Subscription :=
  filter (fun x => negb (existsb (sameSubscription x) l)) subs.

(** The calls of one [restartSpeechRecognition]. *)
Definition restartCalls : list Call :=
  [ ConsoleLog (js "Restarting speech recognition");
    StopRecognition; InitRecognition; StartRecognition ].

(** The two callbacks [ngOnInit] installs for the component's lifetime. *)
Definition isPermanentHandler (s : Subscription) : bool :=
  match handler s with
  | OnPathwayEventDeleted | OnVoiceListUpdated => true
  | _ => false
  end.

(** The one-shot callbacks: each unsubscribes itself when it is called. *)
Definition isOneShot (h : Handler) : bool :=
  match h with
  | OnSpeechStartAfterDeletion
  | OnSpeechEndAfterDeleteCommand
  | OnSpeechEndAfterCreatorDialog => true
  | _ => false
  end.

Definition dialogOf (s : Subscription) : list nat :=
  match handler s with
  | HelpDialogAfterClosed d | CreatorDialogAfterClosed d => [d]
  | _ => []
  end.

(** The dialogs some callback is waiting for. *)
Definition dialogs (subs : list Subscription) : list nat :=
  flat_map dialogOf subs.

(** What holds of the subscriptions in every state the component reaches:
    the recognition callbacks that are active are exactly the ones the
    component remembers, they are none or the four of one setup, the two
    callbacks of [ngOnInit] are in place, and no two callbacks wait for the
    same dialog. *)
Record Consistent (w : World) : Prop := mkConsistent {
  remembered :
    filter isRecognitionHandler (subscriptions w)
    = currentSpeechRecognitionServiceSubscriptions w;
  one_generation :
    currentSpeechRecognitionServiceSubscriptions w = []
    \/ exists n, currentSpeechRecognitionServiceSubscriptions w = generation n;
  permanent :
    exists p, filter isPermanentHandler (subscriptions w)
              = [ mkSubscription p OnPathwayEventDeleted;
                  mkSubscription (S p) OnVoiceListUpdated ];
  dialogs_known : forall d, In d (dialogs (subscriptions w)) -> d < nextDialog w;
  dialogs_distinct : NoDup (dialogs (subscriptions w))
}.

Arguments remembered {w}.
Arguments one_generation {w}.
Arguments permanent {w}.
Arguments dialogs_known {w}.
Arguments dialogs_distinct {w}.

(** A computation keeps a property of the world. *)
Definition preserves (P : World -> Prop) {A : Type} (m : M A) : Prop :=
  forall w, P w -> P (snd (m w)).

(** Does the callback of [s] listen to the observable [e] comes from? *)
Definition responds (e : Event) (s : Subscription) : bool :=
  match react s e with
  | Some _ => true
  | None => false
  end.

(** [setupSpeechRecognitionBehaviour] has run and has not been undone. *)
Definition installed (w : World) : bool :=
  match currentSpeechRecognitionServiceSubscriptions w with
  | [] => false
  | _ :: _ => true
  end.

(** The target of a delete or show command in the words of the
    specification: everything after the first white space in the
    transcript, trimmed. *)
Fixpoint afterFirstWhiteSpace (transcript : jsstring) : jsstring :=
  match transcript with
  | [] => []
  | c :: rest => if isWhiteSpace c then rest else afterFirstWhiteSpace rest
  end.

Definition targetByWhiteSpace (transcript : jsstring) : jsstring :=
  trim (afterFirstWhiteSpace transcript).

Definition germanVoice (voice : Voice) : bool :=
  jsstring_eqb (lang voice) (js "de-DE").

Definition successUtterance : JsValue :=
  JsString (js "Sie haben erfolgreich einen neuen Termin angelegt.").

(** A computation appends exactly the calls [l] to the log. *)
Definition says {A : Type} (m : M A) (l : list Call) : Prop :=
  forall w, calls (snd (m w)) = calls w ++ l.

(** The callbacks that never start recognition: the two of [ngOnInit] and
    the one-shot that stops recognition when the synthesizer starts to
    speak. *)
Definition harmless (h : Handler) : bool :=
  match h with
  | OnPathwayEventDeleted | OnVoiceListUpdated | OnSpeechStartAfterDeletion => true
  | _ => false
  end.

Definition quietCall (c : Call) : bool :=
  match c with
  | SpeakUtterance _ | StopRecognition | SetVoice _ => true
  | _ => false
  end.

(** The events that are neither the end of an utterance, nor the closing
    of a dialog, nor the user pressing the microphone button. *)
Definition quiet (e : Event) : bool :=
  match e with
  | SpeechEnd | DialogClosed _ _ | ActivateVoiceControl => false
  | _ => true
  end.

Definition userActivates (e : Event) : bool :=
  match e with
  | ActivateVoiceControl => true
  | _ => false
  end.

Definition isNotice (c : Call) : bool :=
  match c with
  | SnackBarOpen _ => true
  | _ => false
  end.

(** No recognition callback is subscribed. *)
Definition suspended (w : World) : Prop :=
  forall s, In s (subscriptions w) -> isRecognitionHandler s = false.

(** From [w] to [w'] recognition was not started, nothing was displayed,
    and the subscriptions changed by deletion one-shots only. *)
Record Calm (w w' : World) : Prop := mkCalm {
  calm_calls : exists l, calls w' = calls w ++ l /\ forallb quietCall l = true;
  calm_listening : pathIsListening w' = pathIsListening w;
  calm_remembered :
    currentSpeechRecognitionServiceSubscriptions w'
    = currentSpeechRecognitionServiceSubscriptions w;
  calm_new : forall s, In s (subscriptions w') ->
                       In s (subscriptions w)
                       \/ handler s = OnSpeechStartAfterDeletion;
  calm_kept : forall s, In s (subscriptions w) ->
                        handler s <> OnSpeechStartAfterDeletion ->
                        In s (subscriptions w')
}.

Arguments calm_calls {w w'}.
Arguments calm_listening {w w'}.
Arguments calm_remembered {w w'}.
Arguments calm_new {w w'}.
Arguments calm_kept {w w'}.

(** An utterance is in progress after [events]: the synthesizer has
    signalled its start and not yet its end. *)
Definition speaking (events : list Event) : bool :=
  fold_left (fun b e => match e with
                        | SpeechStart => true
                        | SpeechEnd => false
                        | _ => b
                        end) events false.

Definition unavailableNotice : JsValue :=
  JsString (js "Die Spracherkennung wird in diesem Browser nicht unterstützt. Bitte nutzen Sie Google Chrome.").

Definition deletionUtterance (result : bool) : JsValue :=
  JsString (if result
            then js "Der Termin wurde erfolgreich gelöscht!"
            else js "Es gibt keinen Termin mit diesem Namen!").


(* ================================================================== *)
(** ** Vocabulary of the further properties *)
(* ================================================================== *)

(** The calls whose argument is not chosen by the user's words or by the
    voice selection. *)
Definition plainCall (c : Call) : bool :=
  match c with
  | UserWantsDoDeleteEvent _ | UserWantsToOpenEvent _ | SetVoice _ => false
  | _ => true
  end.

(** What a property of the world has to put up with: the values the
    listening flag and the voice list may be set to, the names that may be
    emitted upward, the one-shot subscriptions that may unsubscribe and the
    dialogs that may complete. *)
Record Allowance : Type := mkAllowance {
  okListening : bool -> Prop;
  okVoices : list Voice -> Prop;
  okName : jsstring -> Prop;
  okCancel : Subscription -> Prop;
  okClose : nat -> Prop
}.

(** The callback of [s] stays within the allowance when it reacts to [e]. *)
Definition reactOk (a : Allowance) (s : Subscription) (e : Event) : Prop :=
  match e with
  | SpeechRecognitionStarted => okListening a true
  | SpeechRecognitionEnded => okListening a false
  | SpeechRecognitionResultAvailable data =>
      match classify (toLowerCase data) with
      | CreateAppointment => okListening a false
      | Delete n | Show n => nonEmpty n = true -> okName a n
      | _ => True
      end
  | VoiceListUpdated allVoices => okVoices a (filter germanVoice allVoices)
  | SpeechStart | SpeechEnd => okCancel a s
  | _ => True
  end.

Definition eventOk (a : Allowance) (e : Event) : Prop :=
  (forall s, responds e s = true -> reactOk a s e)
  /\ match e with
     | DialogClosed d _ => okClose a d
     | _ => True
     end.

(** The allowance of a property that depends on no state change at all,
    but for the listening flag and the voice list. *)
Definition fieldAllowance (listening : bool -> Prop)
  (voices : list Voice -> Prop) : Allowance :=
  mkAllowance listening voices (fun _ => True) (fun _ => True) (fun _ => True).

(** The voice list of the latest update among [events], and the empty list
    before the first update. *)
Definition lastVoiceList (events : list Event) : list Voice :=
  fold_left (fun voices e => match e with
                             | VoiceListUpdated allVoices => allVoices
                             | _ => voices
                             end) events [].

Definition isSurrogate (c : N) : bool :=
  isLeadingSurrogate c || isTrailingSurrogate c.

(** The code units that stand for themselves: all but the numbers a
    surrogate pair is decoded to. *)
Definition isCodeUnit (c : N) : bool := ((c <? 0x10000) || (0x10FFFF <? c))%N.

(** No leading surrogate is followed by a trailing one: the code points of
    a string never are. *)
Fixpoint unpaired (cps : list N) : Prop :=
  match cps with
  | [] => True
  | cp :: rest =>
      match rest with
      | [] => True
      | next :: _ =>
          isLeadingSurrogate cp && isTrailingSurrogate next = false
      end
      /\ unpaired rest
  end.

(** The code points a block of the case table maps to. *)
Definition blockImages (b : CaseBlock) : list N :=
  match b with
  | Run first last target =>
      map (fun i => (target + N.of_nat i)%N)
        (seq 0 (S (N.to_nat (last - first))))
  | Pairs first last =>
      map (fun i => (first + 2 * N.of_nat i + 1)%N)
        (seq 0 (S (N.to_nat ((last - first) / 2))))
  end.

Definition images (blocks : list CaseBlock) : list N :=
  flat_map blockImages blocks.

(** The block maps no code point from [lo] to [hi]. *)
Definition blockClear (lo hi : N) (b : CaseBlock) : bool :=
  match b with
  | Run first last _ | Pairs first last => ((last <? lo) || (hi <? first))%N
  end.

(** A code point that lower-casing leaves as it is, wherever it stands. *)
Definition isLowered (cp : N) : bool := (simpleLowercase cp =? cp)%N.

(** A string all of whose code points are in lower case. *)
Definition lowered (s : jsstring) : Prop :=
  forallb isLowered (stringToCodePoints s) = true.

(** The code units of Basic Latin other than the capital letters. *)
Definition plainUnit (c : N) : bool :=
  ((c <? 0x80) && negb ((0x41 <=? c) && (c <=? 0x5A)))%N.

(** A string without white space at its start. *)
Definition noLeadingWhiteSpace (s : jsstring) : Prop :=
  match s with
  | [] => True
  | c :: _ => isWhiteSpace c = false
  end.

(** The names the component hands to its parent: not empty, in lower case
    and without white space around them. *)
Definition wellFormedName (n : jsstring) : Prop :=
  nonEmpty n = true /\ toLowerCase n = n /\ trim n = n.

(** The platform has reported the voice in one of the voice list updates. *)
Definition reported (events : list Event) (voice : Voice) : Prop :=
  exists allVoices, In (VoiceListUpdated allVoices) events /\ In voice allVoices.

Definition selectable (events : list Event) (voice : Voice) : Prop :=
  lang voice = js "de-DE" /\ reported events voice.

Definition okLogged (events : list Event) (c : Call) : Prop :=
  match c with
  | SetVoice voice => selectable events voice
  | UserWantsDoDeleteEvent n | UserWantsToOpenEvent n => wellFormedName n
  | _ => True
  end.

(** The log and the voice list in a session that receives [events]. *)
Definition LogOk (events : list Event) (w : World) : Prop :=
  Forall (okLogged events) (calls w)
  /\ Forall (selectable events) (availableVoices w).

Definition logAllowance (events : list Event) : Allowance :=
  mkAllowance (fun _ => True) (Forall (selectable events)) wellFormedName
    (fun _ => True) (fun _ => True).

(** A subscription that is in place and that [unsubscribeFromAllSubscriptions]
    will not touch, because only recognition callbacks are remembered. *)
Definition Kept (s : Subscription) (w : World) : Prop :=
  In s (subscriptions w)
  /\ Forall (fun x => isRecognitionHandler x = true)
       (currentSpeechRecognitionServiceSubscriptions w).

Definition keepAllowance (s : Subscription) : Allowance :=
  mkAllowance (fun _ => True) (fun _ => True) (fun _ => True)
    (fun x => x <> s) (fun d => belongsToDialog d s = false).

Definition closesDialog (d : nat) (e : Event) : bool :=
  match e with
  | DialogClosed d' _ => Nat.eqb d d'
  | _ => false
  end.

Definition isSpeechEnd (e : Event) : bool :=
  match e with
  | SpeechEnd => true
  | _ => false
  end.

(** The subscriptions carry distinct numbers, all below the next free one. *)
Definition Numbered (w : World) : Prop :=
  NoDup (map sid (subscriptions w))
  /\ forall s, In s (subscriptions w) -> sid s < nextSubscription w.

Definition anyAllowance : Allowance :=
  mkAllowance (fun _ => True) (fun _ => True) (fun _ => True)
    (fun _ => True) (fun _ => True).


(* ================================================================== *)
(** * Properties *)
(* ================================================================== *)

(** ** Concrete runs *)

Example literal_code_units :
  js "wiederhören" = [119; 105; 101; 100; 101; 114; 104; 246; 114; 101; 110]%N.
Proof. vm_compute. reflexivity. Qed.

Example classify_delete :
  classify (js "lösche zahnarzttermin") = Delete (js "zahnarzttermin").
Proof. vm_compute. reflexivity. Qed.

Example classify_show :
  classify (js "zeige hausarzttermin") = Show (js "hausarzttermin").
Proof. vm_compute. reflexivity. Qed.

Example classify_goodbye :
  classify (toLowerCase (js "Auf ein Wiederhören")) = EndSession.
Proof. vm_compute. reflexivity. Qed.

(** Lower-casing reaches beyond Latin-1, may lengthen a string, turns a
    capital sigma at the end of a word into a final sigma, and reads a
    surrogate pair as one letter. *)
Example toLowerCase_code_points :
  toLowerCase (js "ŠKODA") = js "škoda"
  /\ toLowerCase (js "İ") = [0x69; 0x307]%N
  /\ toLowerCase (js "ΟΔΟΣ ΣΟΦΙΑΣ") = js "οδος σοφιας"
  /\ toLowerCase [0xD801; 0xDC00]%N = [0xD801; 0xDC28]%N
  /\ toLowerCase [0xDC00; 0xD801]%N = [0xDC00; 0xD801]%N.
Proof. repeat split; vm_compute; reflexivity. Qed.

Example classify_delete_without_space :
  classify (js "lösche") = Delete (js "e").
Proof. vm_compute. reflexivity. Qed.

Example classify_neuen_termin :
  classify (toLowerCase (js "Ich möchte einen neuen Termin bitte")) = Unrecognized.
Proof. vm_compute. reflexivity. Qed.

Example session_unavailable :
  calls (session false [])
  = [ InitRecognition;
      ConsoleWarn
        (js "Speech recognition not available. Please use Google Chrome instead.");
      SnackBarOpen unavailableNotice ].
Proof. vm_compute. reflexivity. Qed.

Example session_available :
  calls (session true []) = [InitRecognition; StartRecognition]
  /\ currentSpeechRecognitionServiceSubscriptions (session true []) = generation 0.
Proof. split; vm_compute; reflexivity. Qed.

(** ** Strings and patterns *)

Section StringFacts.

Lemma startsWith_app (p rest : jsstring) : startsWith (p ++ rest) p = true.
Proof.
  induction p as [|c p IH]; simpl; [reflexivity|].
  now rewrite N.eqb_refl, IH.
Qed.

Lemma startsWith_inv (p s : jsstring) :
  startsWith s p = true -> exists rest, s = p ++ rest.
Proof.
  revert s; induction p as [|c p IH]; intros s H; simpl in *.
  - now exists s.
  - destruct s as [|x s]; [discriminate|].
    apply andb_true_iff in H as [Hx Hs].
    apply N.eqb_eq in Hx; subst x.
    destruct (IH _ Hs) as [rest ->]. now exists rest.
Qed.

Lemma includes_iff (s p : jsstring) :
  includes s p = true <-> exists pre post, s = pre ++ p ++ post.
Proof.
  split.
  - induction s as [|c s IH]; simpl; intros H.
    + rewrite orb_false_r in H. apply startsWith_inv in H as [rest ->].
      now exists [], rest.
    + apply orb_true_iff in H as [H|H].
      * apply startsWith_inv in H as [rest ->]. now exists [], rest.
      * destruct (IH H) as (pre & post & ->). now exists (c :: pre), post.
  - intros (pre & post & ->).
    induction pre as [|c pre IH]; simpl.
    + pose proof (startsWith_app p post) as Hs.
      destruct (p ++ post); cbn [includes]; now rewrite Hs.
    + now rewrite IH, orb_true_r.
Qed.

Lemma indexOfFrom_first (pre post : jsstring) (i : Z) :
  ~ In space pre ->
  indexOfFrom (pre ++ space :: post) [space] i = (i + Z.of_nat (List.length pre))%Z.
Proof.
  revert i; induction pre as [|c pre IH]; intros i Hn.
  - simpl. lia.
  - cbn [app indexOfFrom startsWith List.length].
    destruct (N.eqb_spec c space) as [->|_].
    + exfalso. apply Hn. now left.
    + cbn [andb]. rewrite IH; [lia|]. intros Hin. apply Hn. now right.
Qed.

(** With a space in the subject, [substr(indexOf(" "))] is the rest of
    the subject from its first space on. *)
Lemma substr_indexOf_space (pre post : jsstring) :
  ~ In space pre ->
  substr (pre ++ space :: post) (indexOf (pre ++ space :: post) [space])
  = space :: post.
Proof.
  intros Hn. unfold indexOf, substr. rewrite (indexOfFrom_first pre post 0 Hn).
  rewrite Z.add_0_l.
  destruct (Z.ltb_spec (Z.of_nat (List.length pre)) 0) as [Hlt|_]; [lia|].
  rewrite Z.min_l by (rewrite length_app; cbn [List.length]; lia).
  rewrite Nat2Z.id.
  rewrite skipn_app, skipn_all, Nat.sub_diag. reflexivity.
Qed.

Lemma extractEventName_after_space (pre post : jsstring) :
  ~ In space pre ->
  extractEventName (pre ++ space :: post) = trim post.
Proof.
  intros Hn. unfold extractEventName.
  change (js " ") with [space].
  rewrite (substr_indexOf_space _ _ Hn). reflexivity.
Qed.

End StringFacts.

Section RegexFacts.

Lemma matchHere_lit (p : jsstring) (re : Regex) (s : jsstring) :
  matchHere (lit p ++ re) s = true <->
  exists rest, s = p ++ rest /\ matchHere re rest = true.
Proof.
  revert s; induction p as [|c p IH]; intros s.
  - simpl. split; [intros H; now exists s | now intros (rest & -> & H)].
  - cbn [lit map app matchHere atomMatches].
    destruct s as [|x s].
    + split; [discriminate | intros (rest & E & _); discriminate].
    + change (map (fun c0 => One (Chr c0)) p) with (lit p).
      rewrite andb_true_iff, N.eqb_eq, IH. split.
      * intros (-> & rest & -> & H). now exists rest.
      * intros (rest & E & H). injection E as -> ->. split; [reflexivity|].
        now exists rest.
Qed.

Lemma matchHere_many_skip (a : Atom) (re : Regex) (s : jsstring) :
  matchHere re s = true -> matchHere (Many a :: re) s = true.
Proof. intros H. destruct s; simpl; now rewrite H. Qed.

Lemma matchHere_many_inv (a : Atom) (re : Regex) (s : jsstring) :
  matchHere (Many a :: re) s = true ->
  exists pre rest, s = pre ++ rest /\ matchHere re rest = true.
Proof.
  induction s as [|c s IH]; intros H.
  - simpl in H. rewrite orb_false_r in H. now exists [], [].
  - cbn [matchHere] in H. apply orb_true_iff in H as [H|H].
    + now exists [], (c :: s).
    + apply andb_true_iff in H as [_ H].
      destruct (IH H) as (pre & rest & -> & Hr).
      now exists (c :: pre), rest.
Qed.

Lemma matchHere_trailing_star (a : Atom) (s : jsstring) :
  matchHere [Many a] s = true.
Proof. destruct s; reflexivity. Qed.

(** A pattern matches the subject when a match starts at one of its
    indices. *)
Lemma regexMatch_iff (re : Regex) (s : jsstring) :
  regexMatch re s = true <->
  exists pre post, s = pre ++ post /\ matchHere re post = true.
Proof.
  split.
  - induction s as [|c s IH]; cbn [regexMatch]; intros H.
    + rewrite orb_false_r in H. now exists [], [].
    + apply orb_true_iff in H as [H|H].
      * now exists [], (c :: s).
      * destruct (IH H) as (pre & post & -> & Hm).
        now exists (c :: pre), post.
  - intros (pre & post & -> & Hm).
    induction pre as [|c pre IH].
    + destruct post; cbn [app regexMatch]; now rewrite Hm.
    + cbn [app regexMatch]. now rewrite IH, orb_true_r.
Qed.

(** A leading [\w*] does not change which subjects match. *)
Lemma regexMatch_leading_star (a : Atom) (re : Regex) (s : jsstring) :
  regexMatch (Many a :: re) s = regexMatch re s.
Proof.
  apply eq_true_iff_eq. rewrite !regexMatch_iff. split.
  - intros (pre & post & -> & H).
    apply matchHere_many_inv in H as (pre' & rest & -> & H).
    exists (pre ++ pre'), rest. now rewrite app_assoc.
  - intros (pre & post & -> & H). exists pre, post.
    split; [reflexivity | now apply matchHere_many_skip].
Qed.

Lemma regexMatch_hilfe (s : jsstring) :
  regexMatch rxHilfe s = includes s (js "hilfe").
Proof.
  unfold rxHilfe, w_star. rewrite regexMatch_leading_star.
  apply eq_true_iff_eq. rewrite regexMatch_iff, includes_iff. split.
  - intros (pre & post & -> & H). apply matchHere_lit in H as (rest & -> & _).
    now exists pre, rest.
  - intros (pre & post & ->). exists pre, (js "hilfe" ++ post).
    split; [reflexivity|]. apply matchHere_lit. exists post.
    split; [reflexivity | apply matchHere_trailing_star].
Qed.

Lemma regexMatch_loesche (s : jsstring) :
  regexMatch rxLoesche s = includes s (js "lösche").
Proof.
  unfold rxLoesche, w_star.
  apply eq_true_iff_eq. rewrite regexMatch_iff, includes_iff. split.
  - intros (pre & post & -> & H). apply matchHere_lit in H as (rest & -> & _).
    now exists pre, rest.
  - intros (pre & post & ->). exists pre, (js "lösche" ++ post).
    split; [reflexivity|]. apply matchHere_lit. exists post.
    split; [reflexivity | apply matchHere_trailing_star].
Qed.

Lemma regexMatch_zeige (s : jsstring) :
  regexMatch rxZeige s = includes s (js "zeige").
Proof.
  unfold rxZeige, w_star.
  apply eq_true_iff_eq. rewrite regexMatch_iff, includes_iff. split.
  - intros (pre & post & -> & H). apply matchHere_lit in H as (rest & -> & _).
    now exists pre, rest.
  - intros (pre & post & ->). exists pre, (js "zeige" ++ post).
    split; [reflexivity|]. apply matchHere_lit. exists post.
    split; [reflexivity | apply matchHere_trailing_star].
Qed.

(** The first pattern matches exactly the subjects in which "neuer" and
    "termin" occur with one white-space character between them. *)
Lemma regexMatch_neuer_termin (s : jsstring) :
  regexMatch rxNeuerTermin s = true <->
  exists pre c post,
    isWhiteSpace c = true /\ s = pre ++ js "neuer" ++ c :: js "termin" ++ post.
Proof.
  unfold rxNeuerTermin, w_star. rewrite regexMatch_leading_star.
  rewrite regexMatch_iff. split.
  - intros (pre & post & -> & H).
    apply matchHere_lit in H as (rest & -> & H).
    destruct rest as [|c rest]; [discriminate|].
    cbn [ws matchHere atomMatches] in H.
    apply andb_true_iff in H as [Hc H].
    apply matchHere_lit in H as (rest' & -> & _).
    now exists pre, c, rest'.
  - intros (pre & c & post & Hc & ->).
    exists pre, (js "neuer" ++ c :: js "termin" ++ post).
    split; [reflexivity|]. apply matchHere_lit.
    exists (c :: js "termin" ++ post). split; [reflexivity|].
    cbn [ws matchHere atomMatches]. rewrite Hc. cbn [andb].
    apply matchHere_lit. exists post.
    split; [reflexivity | apply matchHere_trailing_star].
Qed.

Lemma regexMatch_neuer_termin_includes (s : jsstring) :
  includes s (js "neuer termin") = true -> regexMatch rxNeuerTermin s = true.
Proof.
  intros H. apply includes_iff in H as (pre & post & ->).
  apply regexMatch_neuer_termin. exists pre, space, post.
  split; reflexivity.
Qed.

End RegexFacts.



(** ** Code points and lower-casing *)

Section CodePointFacts.

Lemma stringToCodePoints_cons (c : N) (s : jsstring) :
  stringToCodePoints (c :: s)
  = match s with
    | d :: s' =>
        if isLeadingSurrogate c && isTrailingSurrogate d
        then (0x10000 + (c - 0xD800) * 0x400 + (d - 0xDC00))%N
               :: stringToCodePoints s'
        else c :: stringToCodePoints s
    | [] => [c]
    end.
Proof. destruct s; reflexivity. Qed.

Lemma stringToCodePoints_pair (c d : N) (s : jsstring) :
  isLeadingSurrogate c && isTrailingSurrogate d = true ->
  stringToCodePoints (c :: d :: s)
  = (0x10000 + (c - 0xD800) * 0x400 + (d - 0xDC00))%N :: stringToCodePoints s.
Proof. intros E. now rewrite stringToCodePoints_cons, E. Qed.

Lemma stringToCodePoints_unit (c d : N) (s : jsstring) :
  isLeadingSurrogate c && isTrailingSurrogate d = false ->
  stringToCodePoints (c :: d :: s) = c :: stringToCodePoints (d :: s).
Proof. intros E. now rewrite stringToCodePoints_cons, E. Qed.

(** Induction along the way [stringToCodePoints] reads a string. *)
Lemma surrogate_pairs_ind (P : jsstring -> Prop) :
  P [] ->
  (forall c, P [c]) ->
  (forall c d s,
      isLeadingSurrogate c && isTrailingSurrogate d = true ->
      P s -> P (c :: d :: s)) ->
  (forall c d s,
      isLeadingSurrogate c && isTrailingSurrogate d = false ->
      P (d :: s) -> P (c :: d :: s)) ->
  forall s, P s.
Proof.
  intros Hnil Hone Hpair Hsingle s.
  enough (H : P s /\ forall c, P (c :: s)) by apply H.
  induction s as [|d s [IH1 IH2]]; [now split|].
  split; [apply IH2|]. intros c.
  destruct (isLeadingSurrogate c && isTrailingSurrogate d) eqn:E.
  - now apply Hpair.
  - apply Hsingle; [exact E | apply IH2].
Qed.

Lemma leading_range (c : N) :
  isLeadingSurrogate c = true <-> (0xD800 <= c <= 0xDBFF)%N.
Proof.
  unfold isLeadingSurrogate. rewrite andb_true_iff, !N.leb_le. tauto.
Qed.

Lemma trailing_range (c : N) :
  isTrailingSurrogate c = true <-> (0xDC00 <= c <= 0xDFFF)%N.
Proof.
  unfold isTrailingSurrogate. rewrite andb_true_iff, !N.leb_le. tauto.
Qed.

Lemma surrogate_range (c : N) :
  isSurrogate c = true <-> (0xD800 <= c <= 0xDFFF)%N.
Proof.
  unfold isSurrogate. rewrite orb_true_iff, leading_range, trailing_range.
  lia.
Qed.

Lemma codeUnit_range (c : N) :
  isCodeUnit c = true <-> (c < 0x10000 \/ 0x10FFFF < c)%N.
Proof. unfold isCodeUnit. now rewrite orb_true_iff, !N.ltb_lt. Qed.

Lemma utf16EncodeCodePoint_unit (c : N) :
  isCodeUnit c = true -> utf16EncodeCodePoint c = [c].
Proof. unfold utf16EncodeCodePoint, isCodeUnit. now intros ->. Qed.

(** A surrogate pair is encoded as it was read. *)
Lemma utf16EncodeCodePoint_pair (c d : N) :
  isLeadingSurrogate c && isTrailingSurrogate d = true ->
  utf16EncodeCodePoint (0x10000 + (c - 0xD800) * 0x400 + (d - 0xDC00))
  = [c; d].
Proof.
  intros H. apply andb_true_iff in H as [Hc Hd].
  apply leading_range in Hc. apply trailing_range in Hd.
  unfold utf16EncodeCodePoint.
  set (x := (c - 0xD800)%N). set (y := (d - 0xDC00)%N).
  assert (Hx : (x < 0x400)%N) by (unfold x; lia).
  assert (Hy : (y < 0x400)%N) by (unfold y; lia).
  destruct (N.ltb_spec (0x10000 + x * 0x400 + y) 0x10000); [lia|].
  destruct (N.ltb_spec 0x10FFFF (0x10000 + x * 0x400 + y)); [lia|].
  cbn [orb].
  replace (0x10000 + x * 0x400 + y - 0x10000)%N with (x * 0x400 + y)%N by lia.
  rewrite <- (N.div_unique (x * 0x400 + y) 0x400 x y) by lia.
  rewrite <- (N.mod_unique (x * 0x400 + y) 0x400 x y) by lia.
  f_equal; [unfold x; lia | f_equal; unfold y; lia].
Qed.

(** A code point beyond U+FFFF becomes a surrogate pair, which is read
    as that code point again. *)
Lemma utf16EncodeCodePoint_beyond (cp : N) :
  isCodeUnit cp = false ->
  exists c d,
    utf16EncodeCodePoint cp = [c; d]
    /\ isLeadingSurrogate c && isTrailingSurrogate d = true
    /\ (0x10000 + (c - 0xD800) * 0x400 + (d - 0xDC00))%N = cp.
Proof.
  intros H. unfold utf16EncodeCodePoint. unfold isCodeUnit in H. rewrite H.
  apply orb_false_iff in H as [H1 H2].
  apply N.ltb_ge in H1. apply N.ltb_ge in H2.
  set (z := (cp - 0x10000)%N).
  assert (Hz : (z < 0x100000)%N) by (unfold z; lia).
  assert (Hq : (z / 0x400 < 0x400)%N)
    by (apply N.Div0.div_lt_upper_bound; lia).
  assert (Hr : (z mod 0x400 < 0x400)%N) by (apply N.mod_lt; lia).
  assert (Hdm : (z = 0x400 * (z / 0x400) + z mod 0x400)%N)
    by (apply N.div_mod; lia).
  exists (0xD800 + z / 0x400)%N, (0xDC00 + z mod 0x400)%N.
  split; [reflexivity|].
  set (q := (z / 0x400)%N) in *. set (r := (z mod 0x400)%N) in *.
  clearbody q r. split.
  - apply andb_true_iff.
    split; [apply leading_range | apply trailing_range]; lia.
  - unfold z in *. lia.
Qed.

Lemma codePointsToString_app (a b : list N) :
  codePointsToString (a ++ b) = codePointsToString a ++ codePointsToString b.
Proof. apply flat_map_app. Qed.

(** What was read from a string of code units is written as that
    string. *)
Lemma codePointsToString_stringToCodePoints (s : jsstring) :
  forallb isCodeUnit s = true ->
  codePointsToString (stringToCodePoints s) = s.
Proof.
  induction s as [| c | c d s E IH | c d s E IH] using surrogate_pairs_ind;
    intros Hv.
  - reflexivity.
  - cbn in *. rewrite andb_true_r in Hv.
    now rewrite (utf16EncodeCodePoint_unit c Hv).
  - rewrite (stringToCodePoints_pair c d s E).
    cbn [codePointsToString flat_map].
    rewrite (utf16EncodeCodePoint_pair c d E).
    cbn [forallb] in Hv. apply andb_true_iff in Hv as [_ Hv].
    apply andb_true_iff in Hv as [_ Hv].
    fold (codePointsToString (stringToCodePoints s)). now rewrite IH.
  - rewrite (stringToCodePoints_unit c d s E).
    cbn [codePointsToString flat_map].
    cbn [forallb] in Hv. apply andb_true_iff in Hv as [Hc Hv].
    rewrite (utf16EncodeCodePoint_unit c Hc).
    fold (codePointsToString (stringToCodePoints (d :: s))).
    now rewrite IH.
Qed.

Lemma codePointsToString_units (cps : list N) :
  forallb isCodeUnit (codePointsToString cps) = true.
Proof.
  induction cps as [|cp cps IH]; [reflexivity|].
  cbn [codePointsToString flat_map]. fold (codePointsToString cps).
  rewrite forallb_app, IH, andb_true_r.
  destruct (isCodeUnit cp) eqn:E.
  - rewrite (utf16EncodeCodePoint_unit cp E). cbn. now rewrite E.
  - destruct (utf16EncodeCodePoint_beyond cp E) as (c & d & -> & Hp & _).
    apply andb_true_iff in Hp as [Hc Hd].
    apply leading_range in Hc. apply trailing_range in Hd.
    cbn. rewrite andb_true_r. apply andb_true_iff.
    split; apply codeUnit_range; lia.
Qed.

(** The first code point of a string is its first code unit or lies
    beyond U+FFFF. *)
Lemma stringToCodePoints_head (c : N) (s : jsstring) :
  exists cp rest,
    stringToCodePoints (c :: s) = cp :: rest
    /\ (cp = c \/ isLeadingSurrogate c = true /\ (0x10000 <= cp)%N).
Proof.
  rewrite stringToCodePoints_cons. destruct s as [|d s].
  - exists c, []. auto.
  - destruct (isLeadingSurrogate c && isTrailingSurrogate d) eqn:E.
    + eexists _, _. split; [reflexivity|]. right.
      apply andb_true_iff in E as [E _]. split; [exact E | lia].
    + eexists _, _. split; [reflexivity | now left].
Qed.

Lemma stringToCodePoints_unpaired (s : jsstring) :
  unpaired (stringToCodePoints s).
Proof.
  induction s as [| c | c d s E IH | c d s E IH] using surrogate_pairs_ind.
  - exact I.
  - cbn. auto.
  - rewrite (stringToCodePoints_pair c d s E). cbn [unpaired].
    split; [|exact IH].
    destruct (stringToCodePoints s); [exact I|].
    apply andb_false_iff. left.
    apply not_true_is_false. intros H. apply leading_range in H.
    apply andb_true_iff in E as [Hc Hd].
    apply leading_range in Hc. apply trailing_range in Hd. lia.
  - rewrite (stringToCodePoints_unit c d s E). cbn [unpaired].
    split; [|exact IH].
    destruct (stringToCodePoints_head d s) as (cp & rest & -> & [-> | [_ H]]).
    + exact E.
    + apply andb_false_iff. right.
      apply not_true_is_false. intros Ht. apply trailing_range in Ht. lia.
Qed.

(** A leading surrogate that no trailing one follows stands alone. *)
Lemma stringToCodePoints_single (c : N) (s : jsstring) :
  match s with
  | [] => True
  | d :: _ => isLeadingSurrogate c && isTrailingSurrogate d = false
  end ->
  stringToCodePoints (c :: s) = c :: stringToCodePoints s.
Proof.
  rewrite stringToCodePoints_cons. destruct s as [|d s]; [reflexivity|].
  now intros ->.
Qed.

(** The first code unit of what is written is the first code point, or a
    leading surrogate. *)
Lemma codePointsToString_head (cp : N) (cps : list N) :
  exists c rest,
    codePointsToString (cp :: cps) = c :: rest
    /\ (c = cp \/ isTrailingSurrogate c = false).
Proof.
  cbn [codePointsToString flat_map]. destruct (isCodeUnit cp) eqn:E.
  - rewrite (utf16EncodeCodePoint_unit cp E). eexists _, _.
    split; [reflexivity | now left].
  - destruct (utf16EncodeCodePoint_beyond cp E) as (c & d & -> & Hp & _).
    eexists _, _. split; [reflexivity|]. right.
    apply andb_true_iff in Hp as [Hc _]. apply leading_range in Hc.
    apply not_true_is_false. intros Ht. apply trailing_range in Ht. lia.
Qed.

(** Code points in which no leading surrogate is followed by a trailing
    one are read as they were written. *)
Lemma stringToCodePoints_codePointsToString (cps : list N) :
  unpaired cps -> stringToCodePoints (codePointsToString cps) = cps.
Proof.
  induction cps as [|cp cps IH]; [reflexivity|].
  intros [Hb Hu]. specialize (IH Hu).
  cbn [codePointsToString flat_map]. fold (codePointsToString cps).
  destruct (isCodeUnit cp) eqn:E.
  - rewrite (utf16EncodeCodePoint_unit cp E). cbn [app].
    rewrite stringToCodePoints_single; [now rewrite IH|].
    destruct cps as [|next cps]; [exact I|].
    destruct (codePointsToString_head next cps) as (c & rest & -> & [-> | Hc]).
    + exact Hb.
    + apply andb_false_iff. now right.
  - destruct (utf16EncodeCodePoint_beyond cp E) as (c & d & -> & Hp & Hcp).
    cbn [app]. rewrite stringToCodePoints_cons, Hp, Hcp. now rewrite IH.
Qed.

(** The code points of a part of a string are code points of the string,
    apart from the halves of a surrogate pair the part was cut through. *)
Lemma stringToCodePoints_start (s rest : jsstring) (cp : N) :
  In cp (stringToCodePoints s) ->
  In cp (stringToCodePoints (s ++ rest)) \/ isSurrogate cp = true.
Proof.
  induction s as [| c | c d s E IH | c d s E IH] using surrogate_pairs_ind.
  - intros [].
  - intros [<- | []]. cbn [app].
    destruct (stringToCodePoints_head c rest) as (x & r & -> & [-> | [H _]]).
    + left. now left.
    + right. unfold isSurrogate. now rewrite H.
  - change ((c :: d :: s) ++ rest) with (c :: d :: s ++ rest).
    rewrite !(stringToCodePoints_pair c d) by exact E.
    intros [<- | H]; [left; now left|].
    destruct (IH H) as [H' | H']; [left; now right | now right].
  - change ((c :: d :: s) ++ rest) with (c :: d :: s ++ rest).
    rewrite !(stringToCodePoints_unit c d) by exact E.
    intros [<- | H]; [left; now left|].
    destruct (IH H) as [H' | H']; [left; now right | now right].
Qed.

Lemma stringToCodePoints_end (before s : jsstring) (cp : N) :
  In cp (stringToCodePoints s) ->
  In cp (stringToCodePoints (before ++ s)) \/ isSurrogate cp = true.
Proof.
  induction before as [| c | c d b E IH | c d b E IH]
    using surrogate_pairs_ind.
  - now left.
  - cbn [app]. destruct s as [|d s]; [intros []|].
    destruct (isLeadingSurrogate c && isTrailingSurrogate d) eqn:E.
    + rewrite (stringToCodePoints_pair c d s E).
      apply andb_true_iff in E as [Hc Hd].
      rewrite stringToCodePoints_single.
      * intros [<- | H]; [|left; now right].
        right. unfold isSurrogate. now rewrite Hd, orb_true_r.
      * destruct s; [exact I|]. apply andb_false_iff. left.
        apply not_true_is_false. intros Hl.
        apply leading_range in Hl. apply trailing_range in Hd. lia.
    + rewrite (stringToCodePoints_unit c d s E). intros H. left. now right.
  - change ((c :: d :: b) ++ s) with (c :: d :: b ++ s).
    rewrite (stringToCodePoints_pair c d _ E). intros H.
    destruct (IH H) as [H' | H']; [left; now right | now right].
  - change ((c :: d :: b) ++ s) with (c :: d :: b ++ s).
    rewrite (stringToCodePoints_unit c d _ E). intros H.
    destruct (IH H) as [H' | H']; [left; now right | now right].
Qed.

Lemma stringToCodePoints_part (before s rest : jsstring) (cp : N) :
  In cp (stringToCodePoints s) ->
  In cp (stringToCodePoints (before ++ s ++ rest)) \/ isSurrogate cp = true.
Proof.
  intros H. destruct (stringToCodePoints_start s rest cp H) as [H' | H'];
    [|now right].
  exact (stringToCodePoints_end before (s ++ rest) cp H').
Qed.

(** Reading does not look back: before a code unit that is no trailing
    surrogate a string can be read in two parts. *)
Lemma stringToCodePoints_app (before : jsstring) (c : N) (rest : jsstring) :
  isTrailingSurrogate c = false ->
  stringToCodePoints (before ++ c :: rest)
  = stringToCodePoints before ++ stringToCodePoints (c :: rest).
Proof.
  intros Hc.
  induction before as [| a | a b s E IH | a b s E IH]
    using surrogate_pairs_ind.
  - reflexivity.
  - cbn [app]. rewrite (stringToCodePoints_unit a c rest); [reflexivity|].
    now rewrite Hc, andb_false_r.
  - change ((a :: b :: s) ++ c :: rest) with (a :: b :: s ++ c :: rest).
    rewrite !(stringToCodePoints_pair a b) by exact E. now rewrite IH.
  - change ((a :: b :: s) ++ c :: rest) with (a :: b :: s ++ c :: rest).
    rewrite !(stringToCodePoints_unit a b) by exact E.
    change (b :: s ++ c :: rest) with ((b :: s) ++ c :: rest).
    now rewrite IH.
Qed.

Lemma stringToCodePoints_plain (p rest : jsstring) :
  forallb plainUnit p = true ->
  stringToCodePoints (p ++ rest) = p ++ stringToCodePoints rest.
Proof.
  induction p as [|c p IH]; [reflexivity|]. cbn [forallb app].
  intros H. apply andb_true_iff in H as [Hc Hp].
  rewrite stringToCodePoints_single; [now rewrite IH|].
  assert (Hl : isLeadingSurrogate c = false).
  { apply not_true_is_false. intros Hl. apply leading_range in Hl.
    unfold plainUnit in Hc. apply andb_true_iff in Hc as [Hc _].
    apply N.ltb_lt in Hc. lia. }
  rewrite Hl. now destruct (p ++ rest).
Qed.

End CodePointFacts.

Section CaseFacts.

(** A code point is mapped to itself or to one of the images of the
    table. *)
Lemma lowerIn_image (blocks : list CaseBlock) (cp : N) :
  lowerIn blocks cp = cp \/ In (lowerIn blocks cp) (images blocks).
Proof.
  induction blocks as [|b blocks IH]; [now left|].
  cbn [images flat_map]. fold (images blocks).
  destruct b as [first last target | first last]; cbn [lowerIn].
  - destruct (N.ltb_spec cp first); [now left|].
    destruct (N.leb_spec cp last).
    + right. apply in_or_app. left. cbn [blockImages].
      apply in_map_iff. exists (N.to_nat (cp - first)).
      split; [now rewrite N2Nat.id|]. apply in_seq. lia.
    + destruct IH as [IH | IH]; [now left|]. right. apply in_or_app. now right.
  - destruct (N.ltb_spec cp first); [now left|].
    destruct (N.leb_spec cp last).
    + destruct (N.even (cp - first)) eqn:Ev; [|now left].
      right. apply in_or_app. left. cbn [blockImages].
      apply N.even_spec in Ev. destruct Ev as [k Hk].
      apply in_map_iff. exists (N.to_nat k).
      split; [rewrite N2Nat.id; lia|]. apply in_seq.
      assert (k = (cp - first) / 2)%N as ->
          by (rewrite Hk, N.mul_comm, N.div_mul; [reflexivity | lia]).
      assert ((cp - first) / 2 <= (last - first) / 2)%N
        by (apply N.Div0.div_le_mono; lia).
      lia.
    + destruct IH as [IH | IH]; [now left|]. right. apply in_or_app. now right.
Qed.

(** A code point in a range the table has no block for is left as it
    is. *)
Lemma lowerIn_clear (lo hi : N) (blocks : list CaseBlock) (cp : N) :
  forallb (blockClear lo hi) blocks = true ->
  (lo <= cp <= hi)%N -> lowerIn blocks cp = cp.
Proof.
  intros Hb Hcp. induction blocks as [|b blocks IH]; [reflexivity|].
  cbn [forallb] in Hb. apply andb_true_iff in Hb as [Hc Hb].
  destruct b as [first last target | first last]; cbn [lowerIn blockClear] in *;
    apply orb_true_iff in Hc; rewrite !N.ltb_lt in Hc;
    destruct (N.ltb_spec cp first); try reflexivity;
    destruct (N.leb_spec cp last); try lia; now apply IH.
Qed.

Lemma isLowered_spec (cp : N) :
  isLowered cp = true <-> simpleLowercase cp = cp.
Proof. unfold isLowered. apply N.eqb_eq. Qed.

Lemma images_lowered : forallb isLowered (images lowercaseBlocks) = true.
Proof. vm_compute. reflexivity. Qed.

Lemma images_no_surrogates :
  forallb (fun cp => negb (isSurrogate cp)) (images lowercaseBlocks) = true.
Proof. vm_compute. reflexivity. Qed.

(** What a code point is mapped to is in lower case. *)
Lemma simpleLowercase_lowered (cp : N) : isLowered (simpleLowercase cp) = true.
Proof.
  unfold simpleLowercase at 1.
  destruct (lowerIn_image lowercaseBlocks cp) as [E | H].
  - rewrite E. apply isLowered_spec. exact E.
  - exact (proj1 (forallb_forall _ _) images_lowered _ H).
Qed.

Lemma surrogate_lowered (cp : N) : isSurrogate cp = true -> isLowered cp = true.
Proof.
  intros H. apply surrogate_range in H. apply isLowered_spec.
  apply (lowerIn_clear 0xD800 0xDFFF); [vm_compute; reflexivity | exact H].
Qed.

Lemma simpleLowercase_surrogate (cp : N) :
  isSurrogate (simpleLowercase cp) = true -> simpleLowercase cp = cp.
Proof.
  intros H. unfold simpleLowercase in *.
  destruct (lowerIn_image lowercaseBlocks cp) as [E | Hi]; [exact E|].
  apply (proj1 (forallb_forall _ _) images_no_surrogates) in Hi.
  now rewrite H in Hi.
Qed.

Lemma plain_lowered (c : N) : plainUnit c = true -> isLowered c = true.
Proof.
  unfold plainUnit. intros H. apply andb_true_iff in H as [H1 H2].
  apply N.ltb_lt in H1. apply negb_true_iff, andb_false_iff in H2.
  apply isLowered_spec.
  destruct H2 as [H2 | H2]; apply N.leb_gt in H2.
  - apply (lowerIn_clear 0 0x40); [vm_compute; reflexivity | lia].
  - apply (lowerIn_clear 0x5B 0x7F); [vm_compute; reflexivity | lia].
Qed.

(** What one code point becomes is in lower case; it is the code
    point itself, or neither it nor what it becomes is a surrogate. *)
Lemma lowerAt_lowered (afterCased : bool) (cp : N) (rest : list N) :
  forallb isLowered (lowerAt afterCased cp rest) = true.
Proof.
  unfold lowerAt. destruct (N.eqb_spec cp 0x3A3) as [-> | _].
  - now destruct (afterCased && _).
  - unfold lowerCodePoint. destruct (N.eqb_spec cp 0x130) as [-> | _].
    + vm_compute. reflexivity.
    + cbn [forallb]. now rewrite simpleLowercase_lowered.
Qed.

Lemma lowerAt_surrogates (afterCased : bool) (cp : N) (rest : list N) :
  lowerAt afterCased cp rest = [cp]
  \/ exists x out,
       lowerAt afterCased cp rest = x :: out
       /\ forallb (fun y => negb (isSurrogate y)) (x :: out) = true.
Proof.
  unfold lowerAt. destruct (N.eqb_spec cp 0x3A3) as [-> | _].
  - right. eexists _, _. split; [reflexivity|]. now destruct (afterCased && _).
  - unfold lowerCodePoint. destruct (N.eqb_spec cp 0x130) as [-> | _].
    + right. eexists _, _. split; reflexivity.
    + destruct (isSurrogate (simpleLowercase cp)) eqn:E.
      * left. now rewrite (simpleLowercase_surrogate cp E).
      * right. eexists _, _. split; [reflexivity|]. cbn [forallb negb].
        now rewrite E.
Qed.

(** Lower-cased code points are all in lower case. *)
Lemma toLowercase_lowered (afterCased : bool) (cps : list N) :
  forallb isLowered (toLowercase afterCased cps) = true.
Proof.
  revert afterCased. induction cps as [|cp cps IH]; intros b; [reflexivity|].
  cbn [toLowercase]. now rewrite forallb_app, lowerAt_lowered, IH.
Qed.

(** Code points in lower case are left as they are. *)
Lemma toLowercase_fixed (afterCased : bool) (cps : list N) :
  forallb isLowered cps = true -> toLowercase afterCased cps = cps.
Proof.
  revert afterCased. induction cps as [|cp cps IH]; intros b; [reflexivity|].
  cbn [forallb toLowercase]. intros H. apply andb_true_iff in H as [Hc H].
  rewrite (IH _ H). apply isLowered_spec in Hc. unfold lowerAt.
  destruct (N.eqb_spec cp 0x3A3) as [-> | _]; [vm_compute in Hc; discriminate|].
  unfold lowerCodePoint.
  destruct (N.eqb_spec cp 0x130) as [-> | _]; [vm_compute in Hc; discriminate|].
  now rewrite Hc.
Qed.

Lemma toLowercase_head (afterCased : bool) (cp : N) (cps : list N) :
  exists x out,
    toLowercase afterCased (cp :: cps) = x :: out
    /\ (x = cp \/ isTrailingSurrogate x = false).
Proof.
  cbn [toLowercase].
  destruct (lowerAt_surrogates afterCased cp cps) as [-> | (x & out & -> & H)].
  - eexists _, _. split; [reflexivity | now left].
  - eexists _, _. split; [reflexivity|]. right.
    cbn [forallb] in H. apply andb_true_iff in H as [H _].
    apply negb_true_iff in H. unfold isSurrogate in H.
    now apply orb_false_iff in H.
Qed.

Lemma unpaired_clear (out cps : list N) :
  forallb (fun y => negb (isSurrogate y)) out = true ->
  unpaired cps -> unpaired (out ++ cps).
Proof.
  induction out as [|x out IH]; [auto|]. cbn [forallb app unpaired].
  intros H Hu. apply andb_true_iff in H as [Hx H].
  split; [|now apply IH].
  apply negb_true_iff in Hx. unfold isSurrogate in Hx.
  apply orb_false_iff in Hx as [Hx _]. rewrite Hx.
  now destruct (out ++ cps).
Qed.

(** Lower-casing puts no leading surrogate before a trailing one. *)
Lemma toLowercase_unpaired (afterCased : bool) (cps : list N) :
  unpaired cps -> unpaired (toLowercase afterCased cps).
Proof.
  revert afterCased.
  induction cps as [|cp cps IH]; intros b; [intros _; exact I|].
  intros [Hb Hu]. specialize (IH (casedBefore b cp) Hu).
  cbn [toLowercase].
  destruct (lowerAt_surrogates b cp cps) as [-> | (x & out & -> & H)];
    [|now apply unpaired_clear].
  cbn [app unpaired]. split; [|exact IH].
  destruct cps as [|next cps]; [exact I|].
  destruct (toLowercase_head (casedBefore b cp) next cps)
    as (y & r & -> & [-> | Hy]); [exact Hb|].
  apply andb_false_iff. now right.
Qed.

(** Lower-casing goes from left to right: what the code points before
    [rest] become does not change where [rest] begins. *)
Lemma toLowercase_app (afterCased : bool) (cps rest : list N) :
  exists out afterCased',
    toLowercase afterCased (cps ++ rest)
    = out ++ toLowercase afterCased' rest.
Proof.
  revert afterCased. induction cps as [|cp cps IH]; intros b.
  - now exists [], b.
  - cbn [app toLowercase].
    destruct (IH (casedBefore b cp)) as (out & b' & ->).
    eexists _, b'. now rewrite app_assoc.
Qed.

Lemma toLowercase_plain (afterCased : bool) (p rest : list N) :
  forallb plainUnit p = true ->
  exists afterCased',
    toLowercase afterCased (p ++ rest) = p ++ toLowercase afterCased' rest.
Proof.
  revert afterCased. induction p as [|c p IH]; intros b; [now exists b|].
  cbn [forallb]. intros H. apply andb_true_iff in H as [Hc Hp].
  destruct (IH (casedBefore b c) Hp) as (b' & E). exists b'.
  cbn [app toLowercase]. rewrite E.
  pose proof (plain_lowered c Hc) as Hl. apply isLowered_spec in Hl.
  unfold lowerAt, lowerCodePoint.
  destruct (N.eqb_spec c 0x3A3) as [-> | _]; [discriminate|].
  destruct (N.eqb_spec c 0x130) as [-> | _]; [discriminate|].
  now rewrite Hl.
Qed.

Lemma codePointsToString_plain (p : jsstring) :
  forallb plainUnit p = true -> codePointsToString p = p.
Proof.
  induction p as [|c p IH]; [reflexivity|]. cbn [forallb].
  intros H. apply andb_true_iff in H as [Hc Hp].
  cbn [codePointsToString flat_map]. fold (codePointsToString p).
  rewrite (IH Hp), utf16EncodeCodePoint_unit; [reflexivity|].
  apply codeUnit_range. unfold plainUnit in Hc.
  apply andb_true_iff in Hc as [Hc _]. apply N.ltb_lt in Hc. lia.
Qed.

(** Lower-casing keeps an occurrence of a pattern of Basic Latin
    characters without capital letters. *)
Lemma includes_toLowerCase (s p : jsstring) :
  forallb plainUnit p = true -> includes s p = true ->
  includes (toLowerCase s) p = true.
Proof.
  intros Hp H. apply includes_iff in H as (pre & post & ->).
  apply includes_iff. unfold toLowerCase.
  destruct p as [|c p]; [eexists [], _; reflexivity|].
  assert (Hc : isTrailingSurrogate c = false).
  { cbn [forallb] in Hp. apply andb_true_iff in Hp as [Hc _].
    apply not_true_is_false. intros Ht. apply trailing_range in Ht.
    unfold plainUnit in Hc. apply andb_true_iff in Hc as [Hc _].
    apply N.ltb_lt in Hc. lia. }
  change ((c :: p) ++ post) with (c :: p ++ post).
  rewrite (stringToCodePoints_app pre c (p ++ post) Hc).
  change (c :: p ++ post) with ((c :: p) ++ post).
  rewrite (stringToCodePoints_plain (c :: p) post Hp).
  destruct (toLowercase_app false (stringToCodePoints pre)
              ((c :: p) ++ stringToCodePoints post)) as (out & b & ->).
  destruct (toLowercase_plain b (c :: p) (stringToCodePoints post) Hp)
    as (b' & ->).
  rewrite !codePointsToString_app, (codePointsToString_plain (c :: p) Hp).
  now eexists _, _.
Qed.

(** Lower-casing a second time changes nothing. *)
Lemma toLowerCase_idempotent (s : jsstring) :
  toLowerCase (toLowerCase s) = toLowerCase s.
Proof.
  unfold toLowerCase.
  rewrite stringToCodePoints_codePointsToString
    by apply toLowercase_unpaired, stringToCodePoints_unpaired.
  now rewrite toLowercase_fixed by apply toLowercase_lowered.
Qed.

(** A string whose code points are in lower case is left as it is. *)
Lemma toLowerCase_lowered (s : jsstring) :
  forallb isCodeUnit s = true -> lowered s -> toLowerCase s = s.
Proof.
  intros Hv Hl. unfold toLowerCase.
  rewrite (toLowercase_fixed false _ Hl).
  now apply codePointsToString_stringToCodePoints.
Qed.

Lemma lowered_toLowerCase (s : jsstring) : lowered (toLowerCase s).
Proof.
  unfold lowered, toLowerCase.
  rewrite stringToCodePoints_codePointsToString
    by apply toLowercase_unpaired, stringToCodePoints_unpaired.
  apply toLowercase_lowered.
Qed.

(** A part of a string in lower case is in lower case. *)
Lemma lowered_part (before s rest : jsstring) :
  lowered (before ++ s ++ rest) -> lowered s.
Proof.
  unfold lowered. intros H. apply forallb_forall. intros cp Hcp.
  destruct (stringToCodePoints_part before s rest cp Hcp) as [Hin | Hs].
  - exact (proj1 (forallb_forall _ _) H cp Hin).
  - now apply surrogate_lowered.
Qed.

End CaseFacts.

(** ** The component's operations in closed form *)

Section Operations.

Lemma removeAll_nil (subs : list Subscription) : removeAll [] subs = subs.
Proof.
  unfold removeAll. induction subs as [|x subs IH]; cbn; [reflexivity|].
  now f_equal.
Qed.

Lemma removeAll_cons (s : Subscription) (l subs : list Subscription) :
  removeAll (s :: l) subs
  = removeAll l (filter (fun x => negb (sameSubscription x s)) subs).
Proof.
  unfold removeAll. induction subs as [|x subs IH]; cbn; [reflexivity|].
  destruct (sameSubscription x s); cbn; [assumption|].
  destruct (existsb (sameSubscription x) l); cbn; [assumption|].
  now f_equal.
Qed.

Lemma forEach_unsubscribe (l : list Subscription) (w : World) :
  exec (forEach l unsubscribe) w
  = setSubscriptions (removeAll l (subscriptions w)) w.
Proof.
  revert w; induction l as [|s l IH]; intros w.
  - rewrite removeAll_nil. now destruct w.
  - cbn [forEach]. unfold exec, bind in *. cbn [fst snd].
    rewrite IH, removeAll_cons. now destruct w.
Qed.

Lemma unsubscribeFromAllSubscriptions_exec (w : World) :
  exec unsubscribeFromAllSubscriptions w
  = setCurrentSubscriptions []
      (setSubscriptions
         (removeAll (currentSpeechRecognitionServiceSubscriptions w)
            (subscriptions w)) w).
Proof.
  unfold unsubscribeFromAllSubscriptions, exec, bind, modify. cbn [fst snd].
  change (snd (forEach ?l unsubscribe w)) with (exec (forEach l unsubscribe) w).
  now rewrite forEach_unsubscribe.
Qed.

Lemma restartSpeechRecognition_exec (w : World) :
  exec restartSpeechRecognition w
  = mkWorld (availableVoices w) (speechRecognitionAvailable w)
      (pathIsListening w)
      (generation (nextSubscription w))
      (recognitionSupported w)
      (removeAll (currentSpeechRecognitionServiceSubscriptions w)
         (subscriptions w) ++ generation (nextSubscription w))
      (4 + nextSubscription w) (nextDialog w)
      (calls w ++ restartCalls).
Proof.
  unfold restartSpeechRecognition, exec, bind. cbn [fst snd].
  change (snd (unsubscribeFromAllSubscriptions ?x))
    with (exec unsubscribeFromAllSubscriptions x).
  rewrite unsubscribeFromAllSubscriptions_exec.
  destruct w; cbn. rewrite <- !app_assoc. reflexivity.
Qed.

End Operations.


(** ** Lists of subscriptions *)

Section SubscriptionLists.

Lemma sameSubscription_refl (s : Subscription) : sameSubscription s s = true.
Proof. unfold sameSubscription. now destruct (Subscription_eq_dec s s). Qed.

Lemma sameSubscription_eq (a b : Subscription) :
  sameSubscription a b = true <-> a = b.
Proof.
  unfold sameSubscription.
  destruct (Subscription_eq_dec a b); split; congruence.
Qed.

Lemma existsb_same_In (s : Subscription) (l : list Subscription) :
  existsb (sameSubscription s) l = true <-> In s l.
Proof.
  rewrite existsb_exists. split.
  - intros (x & Hin & Hx). apply sameSubscription_eq in Hx. now subst.
  - intros Hin. exists s. split; [assumption | apply sameSubscription_refl].
Qed.

Lemma filter_filter_absorb {A : Type} (p q : A -> bool) (l : list A) :
  (forall x, In x l -> p x = true -> q x = true) ->
  filter p (filter q l) = filter p l.
Proof.
  induction l as [|x l IH]; intros H; cbn; [reflexivity|].
  destruct (q x) eqn:Hq; cbn.
  - rewrite IH; [reflexivity|]. intros y Hy. apply H. now right.
  - destruct (p x) eqn:Hp.
    + rewrite H in Hq; [discriminate | now left | assumption].
    + apply IH. intros y Hy. apply H. now right.
Qed.

Lemma filter_filter_comm {A : Type} (p q : A -> bool) (l : list A) :
  filter p (filter q l) = filter q (filter p l).
Proof.
  induction l as [|x l IH]; cbn; [reflexivity|].
  destruct (q x) eqn:Hq, (p x) eqn:Hp; cbn; rewrite ?Hq, ?Hp, IH; reflexivity.
Qed.

Lemma filter_none {A : Type} (p : A -> bool) (l : list A) :
  (forall x, In x l -> p x = false) -> filter p l = [].
Proof.
  induction l as [|x l IH]; intros H; cbn; [reflexivity|].
  rewrite (H x) by now left. apply IH. intros y Hy. apply H. now right.
Qed.

Lemma removeAll_self (l : list Subscription) : removeAll l l = [].
Proof.
  unfold removeAll. apply filter_none. intros x Hx.
  apply existsb_same_In in Hx. now rewrite Hx.
Qed.

Lemma removeAll_In (l subs : list Subscription) (s : Subscription) :
  In s (removeAll l subs) <-> In s subs /\ ~ In s l.
Proof.
  unfold removeAll. rewrite filter_In, negb_true_iff.
  rewrite <- (existsb_same_In s l).
  destruct (existsb (sameSubscription s) l); intuition congruence.
Qed.

(** Cancelling the remembered subscriptions leaves no recognition
    callback, when the remembered ones are all the active ones. *)
Lemma removeAll_recognition (subs : list Subscription) :
  filter isRecognitionHandler
    (removeAll (filter isRecognitionHandler subs) subs) = [].
Proof.
  unfold removeAll at 1. rewrite filter_filter_comm.
  apply removeAll_self.
Qed.

(** ... and touches no other callback. *)
Lemma removeAll_other (p : Subscription -> bool) (subs : list Subscription) :
  (forall x, p x = true -> isRecognitionHandler x = false) ->
  filter p (removeAll (filter isRecognitionHandler subs) subs) = filter p subs.
Proof.
  intros H. unfold removeAll. apply filter_filter_absorb.
  intros x _ Hp. apply negb_true_iff.
  destruct (existsb _ _) eqn:E; [|reflexivity].
  apply existsb_same_In, filter_In in E as [_ E].
  rewrite (H x Hp) in E. discriminate.
Qed.

Lemma dialogs_app (l1 l2 : list Subscription) :
  dialogs (l1 ++ l2) = dialogs l1 ++ dialogs l2.
Proof. apply flat_map_app. Qed.

Lemma dialogs_filter_In (q : Subscription -> bool) (l : list Subscription)
  (d : nat) :
  In d (dialogs (filter q l)) -> In d (dialogs l).
Proof.
  unfold dialogs. rewrite !in_flat_map.
  intros (s & Hs & Hd). apply filter_In in Hs as [Hs _]. now exists s.
Qed.

Lemma dialogs_filter_NoDup (q : Subscription -> bool) (l : list Subscription) :
  NoDup (dialogs l) -> NoDup (dialogs (filter q l)).
Proof.
  induction l as [|s l IH]; cbn; intros H; [constructor|].
  change (flat_map dialogOf l) with (dialogs l) in H.
  destruct (q s); [|apply IH; now apply NoDup_app_remove_l in H].
  cbn. change (flat_map dialogOf (filter q l)) with (dialogs (filter q l)).
  destruct (dialogOf s) as [|d ds] eqn:E; cbn in *.
  - now apply IH.
  - assert (ds = []) as -> by
      (unfold dialogOf in E; destruct (handler s); congruence).
    cbn in *. inversion H as [|? ? Hd Hn]; subst. constructor.
    + intros Hin. apply Hd. eapply dialogs_filter_In, Hin.
    + now apply IH.
Qed.

End SubscriptionLists.


(** ** Every reachable state is consistent *)

Create HintDb consistent.

Section Invariant.

Lemma Consistent_ext (w w' : World) :
  subscriptions w' = subscriptions w ->
  currentSpeechRecognitionServiceSubscriptions w'
  = currentSpeechRecognitionServiceSubscriptions w ->
  nextDialog w' = nextDialog w ->
  Consistent w -> Consistent w'.
Proof.
  intros E1 E2 E3 [H1 H2 H3 H4 H5].
  constructor; rewrite ?E1, ?E2, ?E3; assumption.
Qed.

Lemma preserves_ret (P : World -> Prop) {A : Type} (a : A) :
  preserves P (ret a).
Proof. intros w H. exact H. Qed.

Lemma preserves_bind (P : World -> Prop) {A B : Type} (m : M A) (k : A -> M B) :
  preserves P m -> (forall a, preserves P (k a)) -> preserves P (bind m k).
Proof. intros Hm Hk w H. unfold bind. cbn. apply Hk, Hm, H. Qed.

Lemma preserves_if (P : World -> Prop) {A : Type} (b : bool) (m1 m2 : M A) :
  preserves P m1 -> preserves P m2 -> preserves P (if b then m1 else m2).
Proof. now destruct b. Qed.

Lemma consistent_call (c : Call) : preserves Consistent (call c).
Proof. intros w H. now apply (Consistent_ext w). Qed.

Lemma consistent_setPathIsListening (b : bool) :
  preserves Consistent (modify (setPathIsListening b)).
Proof. intros w H. now apply (Consistent_ext w). Qed.

Lemma consistent_setAvailableVoices (v : list Voice) :
  preserves Consistent (modify (setAvailableVoices v)).
Proof. intros w H. now apply (Consistent_ext w). Qed.

Lemma consistent_initRecognition : preserves Consistent initRecognition.
Proof. intros w H. now apply (Consistent_ext w). Qed.

Lemma consistent_subscribe_one_shot (h : Handler) :
  isOneShot h = true -> preserves Consistent (subscribe h).
Proof.
  intros Hh w [H1 H2 H3 H4 H5].
  constructor; cbn; rewrite ?filter_app, ?dialogs_app.
  - unfold isRecognitionHandler. cbn. destruct h; try discriminate;
      cbn; now rewrite app_nil_r.
  - assumption.
  - unfold isPermanentHandler. cbn. destruct h; try discriminate;
      cbn; now rewrite app_nil_r.
  - unfold dialogs at 2, dialogOf. cbn.
    destruct h; try discriminate; cbn; now rewrite app_nil_r.
  - unfold dialogs at 2, dialogOf. cbn.
    destruct h; try discriminate; cbn; now rewrite app_nil_r.
Qed.

Lemma consistent_unsubscribe_one_shot (s : Subscription) :
  isOneShot (handler s) = true -> preserves Consistent (unsubscribe s).
Proof.
  intros Hs w [H1 H2 H3 H4 H5].
  assert (Hne : forall (p : Subscription -> bool) x,
             (p s = false) -> p x = true -> negb (sameSubscription x s) = true).
  { intros p x Hps Hpx. apply negb_true_iff.
    destruct (sameSubscription x s) eqn:E; [|reflexivity].
    apply sameSubscription_eq in E. congruence. }
  constructor; cbn.
  - rewrite filter_filter_absorb; [assumption|].
    intros x _. apply Hne. unfold isRecognitionHandler.
    destruct (handler s); try discriminate; reflexivity.
  - assumption.
  - rewrite filter_filter_absorb; [assumption|].
    intros x _. apply Hne. unfold isPermanentHandler.
    destruct (handler s); try discriminate; reflexivity.
  - intros d Hd. apply H4. eapply dialogs_filter_In, Hd.
  - now apply dialogs_filter_NoDup.
Qed.

Lemma consistent_unsubscribeFromAllSubscriptions :
  preserves Consistent unsubscribeFromAllSubscriptions.
Proof.
  intros w [H1 H2 H3 H4 H5].
  change (snd (unsubscribeFromAllSubscriptions w))
    with (exec unsubscribeFromAllSubscriptions w).
  rewrite unsubscribeFromAllSubscriptions_exec.
  constructor; cbn; rewrite <- ?H1.
  - apply removeAll_recognition.
  - now left.
  - rewrite removeAll_other; [assumption|].
    intros x. unfold isPermanentHandler, isRecognitionHandler.
    destruct (handler x); congruence.
  - intros d Hd. apply H4. eapply dialogs_filter_In, Hd.
  - now apply dialogs_filter_NoDup.
Qed.

Lemma consistent_restartSpeechRecognition :
  preserves Consistent restartSpeechRecognition.
Proof.
  intros w [H1 H2 H3 H4 H5].
  change (snd (restartSpeechRecognition w))
    with (exec restartSpeechRecognition w).
  rewrite restartSpeechRecognition_exec.
  constructor; cbn [subscriptions currentSpeechRecognitionServiceSubscriptions
                    nextDialog];
    rewrite <- ?H1, ?filter_app, ?dialogs_app.
  - rewrite removeAll_recognition. reflexivity.
  - right. now exists (nextSubscription w).
  - rewrite removeAll_other.
    + cbn. now rewrite app_nil_r.
    + intros x. unfold isPermanentHandler, isRecognitionHandler.
      destruct (handler x); congruence.
  - cbn. rewrite app_nil_r. intros d Hd. apply H4.
    eapply dialogs_filter_In, Hd.
  - cbn. rewrite app_nil_r. now apply dialogs_filter_NoDup.
Qed.

(** Opening a dialog and subscribing to its [afterClosed()]. *)
Lemma consistent_open_dialog (kind : DialogKind) (h : nat -> Handler) :
  h = HelpDialogAfterClosed \/ h = CreatorDialogAfterClosed ->
  preserves Consistent
    (d <- dialogOpen kind ;; _ <- subscribe (h d) ;; ret tt).
Proof.
  intros Hh w [H1 H2 H3 H4 H5].
  assert (Hd : dialogOf (mkSubscription (nextSubscription w) (h (nextDialog w)))
               = [nextDialog w]) by (now destruct Hh as [-> | ->]).
  constructor; cbn; rewrite ?filter_app, ?dialogs_app.
  - unfold isRecognitionHandler. cbn.
    destruct Hh as [-> | ->]; cbn; now rewrite app_nil_r.
  - assumption.
  - unfold isPermanentHandler. cbn.
    destruct Hh as [-> | ->]; cbn; now rewrite app_nil_r.
  - unfold dialogs at 2. cbn [flat_map]. rewrite Hd. cbn.
    intros d Hin. apply in_app_or in Hin as [Hin | [<- | []]].
    + apply H4 in Hin. lia.
    + lia.
  - unfold dialogs at 2. cbn [flat_map]. rewrite Hd. cbn.
    apply NoDup_app; [assumption | repeat constructor; intros [] |].
    intros d Hin [<- | []]. apply H4 in Hin. lia.
Qed.

Hint Resolve preserves_ret consistent_call consistent_setPathIsListening
  consistent_setAvailableVoices consistent_initRecognition
  consistent_unsubscribeFromAllSubscriptions
  consistent_restartSpeechRecognition : consistent.

Ltac preserve :=
  repeat lazymatch goal with
    | |- preserves _ (bind (dialogOpen _) _) =>
        apply consistent_open_dialog; auto
    | |- preserves _ (bind _ _) => apply preserves_bind; [|intros ?]
    | |- preserves _ (if _ then _ else _) => apply preserves_if
    | |- preserves _ (subscribe _) =>
        apply consistent_subscribe_one_shot; reflexivity
    | |- preserves _ _ => solve [auto with consistent]
    end.

Lemma consistent_caseBody (command : Command) :
  preserves Consistent (caseBody command).
Proof.
  destruct command;
    unfold caseBody, openAndHandlePathwayAppointmentCreatorDialog,
      openHelpDialog, displayMessage, stopRecognition;
    preserve.
Qed.

Lemma consistent_creatorDialogAfterClosed (result : JsValue) :
  preserves Consistent (creatorDialogAfterClosed result).
Proof.
  unfold creatorDialogAfterClosed, displayMessage, speakUtterance. preserve.
Qed.

(** Whatever a callback does keeps the state consistent. *)
Lemma consistent_react (s : Subscription) (e : Event) (body : M unit) :
  react s e = Some body -> preserves Consistent body.
Proof.
  unfold react. destruct (handler s) eqn:Hs, e; try discriminate;
    try (destruct (Nat.eqb _ _); try discriminate);
    intros [= <-];
    unfold speechRecognitionResultAvailable, pathwayEventDeleted,
      voiceListUpdated, stopRecognition, speakUtterance;
    try apply consistent_creatorDialogAfterClosed;
    try (apply preserves_bind;
         [apply consistent_unsubscribe_one_shot; now rewrite Hs | intros ?]);
    try (apply preserves_bind; [|intros ?; apply consistent_caseBody]);
    preserve.
Qed.

Lemma consistent_notify (e : Event) (w : World) (s : Subscription) :
  Consistent w -> Consistent (notify e w s).
Proof.
  intros H. unfold notify. destruct (react s e) as [body|] eqn:E; [|assumption].
  destruct (isSubscribed s w); [|assumption].
  now apply (consistent_react s e body E).
Qed.

Lemma consistent_emit (e : Event) (w : World) :
  Consistent w -> Consistent (emit e w).
Proof.
  unfold emit. generalize (subscriptions w) as l.
  intros l; revert w; induction l as [|s l IH]; intros w H; cbn; [assumption|].
  apply IH, consistent_notify, H.
Qed.

Lemma consistent_complete (d : nat) (w : World) :
  Consistent w -> Consistent (complete d w).
Proof.
  intros [H1 H2 H3 H4 H5]. constructor; cbn.
  - rewrite filter_filter_absorb; [assumption|].
    intros x _. unfold isRecognitionHandler, belongsToDialog.
    destruct (handler x); cbn; congruence.
  - assumption.
  - rewrite filter_filter_absorb; [assumption|].
    intros x _. unfold isPermanentHandler, belongsToDialog.
    destruct (handler x); cbn; congruence.
  - intros d' Hd. apply H4. eapply dialogs_filter_In, Hd.
  - now apply dialogs_filter_NoDup.
Qed.

Lemma consistent_step (e : Event) (w : World) :
  Consistent w -> Consistent (step e w).
Proof.
  intros H. destruct e; cbn [step];
    try (now apply consistent_emit);
    try (now apply consistent_complete, consistent_emit).
  - now apply consistent_restartSpeechRecognition.
  - now apply consistent_call.
  - unfold exec, onVoiceChanged. destruct (find _ _); [|assumption].
    now apply consistent_call.
Qed.

Lemma consistent_run (events : list Event) (w : World) :
  Consistent w -> Consistent (run events w).
Proof.
  revert w; induction events as [|e events IH]; intros w H; cbn; [assumption|].
  apply IH, consistent_step, H.
Qed.

Lemma consistent_ngOnInit (supported : bool) :
  Consistent (exec ngOnInit (initial supported)).
Proof.
  destruct supported; constructor; cbn.
  - reflexivity.
  - right. now exists 0.
  - now exists 4.
  - intros d [].
  - constructor.
  - reflexivity.
  - now left.
  - now exists 0.
  - intros d [].
  - constructor.
Qed.

(** The invariant of the component. *)
Lemma consistent_session (supported : bool) (events : list Event) :
  Consistent (session supported events).
Proof. apply consistent_run, consistent_ngOnInit. Qed.

End Invariant.


(** ** Delivering an event *)

Section Delivery.

Lemma fold_notify_responders (e : Event) (l : list Subscription) (w : World) :
  fold_left (notify e) l w = fold_left (notify e) (filter (responds e) l) w.
Proof.
  revert w; induction l as [|s l IH]; intros w; cbn; [reflexivity|].
  unfold responds at 1. destruct (react s e) as [body|] eqn:E.
  - cbn. apply IH.
  - unfold notify at 2. rewrite E. apply IH.
Qed.

Lemma emit_responders (e : Event) (w : World) :
  emit e w = fold_left (notify e) (filter (responds e) (subscriptions w)) w.
Proof. apply fold_notify_responders. Qed.


(** An event with one subscriber runs that subscriber's callback. *)
Lemma emit_single (e : Event) (w : World) (s : Subscription) (body : M unit) :
  filter (responds e) (subscriptions w) = [s] ->
  react s e = Some body ->
  emit e w = exec body w.
Proof.
  intros H E. rewrite emit_responders, H. cbn. unfold notify. rewrite E.
  assert (Hin : In s (subscriptions w)).
  { eapply proj1, filter_In. rewrite H. now left. }
  unfold isSubscribed. apply existsb_same_In in Hin. now rewrite Hin.
Qed.

(** The subscribers of a recognition event are recognition callbacks. *)
Lemma responders_recognition (e : Event) (w : World) :
  Consistent w ->
  (forall s, responds e s = true -> isRecognitionHandler s = true) ->
  filter (responds e) (subscriptions w)
  = filter (responds e) (currentSpeechRecognitionServiceSubscriptions w).
Proof.
  intros [H1 _ _ _ _] Hr. rewrite <- H1.
  symmetry. apply filter_filter_absorb. intros x _. apply Hr.
Qed.

Lemma responders_permanent (e : Event) (w : World) :
  Consistent w ->
  (forall s, responds e s = true -> isPermanentHandler s = true) ->
  exists p,
    filter (responds e) (subscriptions w)
    = filter (responds e) [ mkSubscription p OnPathwayEventDeleted;
                            mkSubscription (S p) OnVoiceListUpdated ].
Proof.
  intros [_ _ [p H3] _ _] Hr. exists p. rewrite <- H3.
  symmetry. apply filter_filter_absorb. intros x _. apply Hr.
Qed.

Lemma step_recognition_result (data : jsstring) (w : World) :
  Consistent w -> installed w = true ->
  step (SpeechRecognitionResultAvailable data) w
  = exec (speechRecognitionResultAvailable data) w.
Proof.
  intros Hc Hi. cbn [step].
  destruct (one_generation Hc) as [E | [n E]].
  - unfold installed in Hi. now rewrite E in Hi.
  - apply emit_single with (s := mkSubscription n OnSpeechRecognitionResultAvailable);
      [|reflexivity].
    rewrite responders_recognition; [now rewrite E | assumption |].
    intros s. unfold responds, react, isRecognitionHandler.
    destruct (handler s); congruence.
Qed.



Lemma step_voice_list_updated (allVoices : list Voice) (w : World) :
  Consistent w ->
  step (VoiceListUpdated allVoices) w = exec (voiceListUpdated allVoices) w.
Proof.
  intros Hc. cbn [step].
  destruct (responders_permanent (VoiceListUpdated allVoices) w Hc) as [p Hp].
  - intros s. unfold responds, react, isPermanentHandler.
    destruct (handler s); congruence.
  - now apply emit_single with (s := mkSubscription (S p) OnVoiceListUpdated).
Qed.

Lemma responds_dialog_closed (d : nat) (result : JsValue) (s : Subscription) :
  responds (DialogClosed d result) s = belongsToDialog d s.
Proof.
  unfold responds, react, belongsToDialog.
  destruct (handler s); try reflexivity;
    rewrite (Nat.eqb_sym d); now destruct (Nat.eqb _ _).
Qed.

Lemma belongsToDialog_dialogOf (d : nat) (s : Subscription) :
  belongsToDialog d s = true <-> dialogOf s = [d].
Proof.
  unfold belongsToDialog, dialogOf.
  destruct (handler s); try (split; congruence);
    rewrite Nat.eqb_eq; split; congruence.
Qed.

(** One callback at most waits for a dialog. *)
Lemma one_dialog_subscriber (d : nat) (s : Subscription) (l : list Subscription) :
  NoDup (dialogs l) -> In s l -> belongsToDialog d s = true ->
  filter (belongsToDialog d) l = [s].
Proof.
  induction l as [|x l IH]; intros Hn Hin Hs; [destruct Hin|].
  cbn in Hn. change (flat_map dialogOf l) with (dialogs l) in Hn.
  cbn [filter]. destruct Hin as [-> | Hin].
  - rewrite Hs. f_equal. apply filter_none. intros y Hy.
    destruct (belongsToDialog d y) eqn:E; [|reflexivity].
    apply belongsToDialog_dialogOf in Hs, E. rewrite Hs in Hn.
    inversion Hn as [|? ? Hnot _]; subst. exfalso. apply Hnot.
    unfold dialogs. apply in_flat_map. exists y. rewrite E. split; [assumption | now left].
  - destruct (belongsToDialog d x) eqn:E.
    + apply belongsToDialog_dialogOf in Hs, E. rewrite E in Hn.
      inversion Hn as [|? ? Hnot _]; subst. exfalso. apply Hnot.
      unfold dialogs. apply in_flat_map. exists s. rewrite Hs. split; [assumption | now left].
    + apply IH; [|assumption|assumption].
      now apply NoDup_app_remove_l in Hn.
Qed.

Lemma step_creator_dialog_closed (d i : nat) (result : JsValue) (w : World) :
  Consistent w ->
  isSubscribed (mkSubscription i (CreatorDialogAfterClosed d)) w = true ->
  step (DialogClosed d result) w
  = complete d (exec (creatorDialogAfterClosed result) w).
Proof.
  intros Hc Hs. cbn [step]. f_equal.
  apply emit_single with (s := mkSubscription i (CreatorDialogAfterClosed d)).
  - erewrite filter_ext by (intros; apply responds_dialog_closed).
    apply one_dialog_subscriber.
    + apply (dialogs_distinct Hc).
    + now apply existsb_same_In.
    + unfold belongsToDialog. cbn. apply Nat.eqb_refl.
  - unfold react. cbn. now rewrite Nat.eqb_refl.
Qed.

End Delivery.


(** ** What the callbacks call *)

Section Calls.

Lemma says_ret {A : Type} (a : A) : says (ret a) [].
Proof. intros w. cbn. now rewrite app_nil_r. Qed.

Lemma says_bind {A B : Type} (m : M A) (k : A -> M B) (l1 l2 : list Call) :
  says m l1 -> (forall a, says (k a) l2) -> says (bind m k) (l1 ++ l2).
Proof.
  intros Hm Hk w. unfold bind. cbn.
  now rewrite Hk, Hm, app_assoc.
Qed.

Lemma says_eq {A : Type} (m : M A) (l l' : list Call) :
  says m l -> l = l' -> says m l'.
Proof. now intros H <-. Qed.

Lemma says_call (c : Call) : says (call c) [c].
Proof. intros w. reflexivity. Qed.

Lemma says_subscribe (h : Handler) : says (subscribe h) [].
Proof. intros w. cbn. now rewrite app_nil_r. Qed.

Lemma says_unsubscribe (s : Subscription) : says (unsubscribe s) [].
Proof. intros w. cbn. now rewrite app_nil_r. Qed.

Lemma says_setPathIsListening (b : bool) : says (modify (setPathIsListening b)) [].
Proof. intros w. cbn. now rewrite app_nil_r. Qed.


Lemma says_restartSpeechRecognition : says restartSpeechRecognition restartCalls.
Proof.
  intros w. change (snd (restartSpeechRecognition w))
    with (exec restartSpeechRecognition w).
  now rewrite restartSpeechRecognition_exec.
Qed.

Lemma says_unsubscribeFromAllSubscriptions :
  says unsubscribeFromAllSubscriptions [].
Proof.
  intros w. change (snd (unsubscribeFromAllSubscriptions w))
    with (exec unsubscribeFromAllSubscriptions w).
  rewrite unsubscribeFromAllSubscriptions_exec. cbn. now rewrite app_nil_r.
Qed.

Ltac say :=
  repeat lazymatch goal with
    | |- says (bind _ _) _ => eapply says_bind; [|intros ?]
    | |- says (call _) _ => apply says_call
    | |- says (ret _) _ => apply says_ret
    | |- says (subscribe _) _ => apply says_subscribe
    | |- says (unsubscribe _) _ => apply says_unsubscribe
    | |- says restartSpeechRecognition _ => apply says_restartSpeechRecognition
    | |- says unsubscribeFromAllSubscriptions _ =>
        apply says_unsubscribeFromAllSubscriptions
    | |- says (modify (setPathIsListening _)) _ =>
        apply says_setPathIsListening
    end.

Lemma says_delete (eventName : jsstring) :
  says (stopRecognition ;; caseBody (Delete eventName))
    ([ StopRecognition;
       ConsoleLog (js "user wants to delete event " ++ eventName) ]
     ++ (if nonEmpty eventName then [UserWantsDoDeleteEvent eventName] else [])
     ++ restartCalls).
Proof.
  unfold caseBody, stopRecognition.
  destruct (nonEmpty eventName); (eapply says_eq; [say | reflexivity]).
Qed.

Lemma says_show (eventName : jsstring) :
  says (stopRecognition ;; caseBody (Show eventName))
    ([ StopRecognition;
       ConsoleLog (js "user wants to show details of event " ++ eventName) ]
     ++ (if nonEmpty eventName then [UserWantsToOpenEvent eventName] else [])
     ++ restartCalls).
Proof.
  unfold caseBody, stopRecognition.
  destruct (nonEmpty eventName); (eapply says_eq; [say | reflexivity]).
Qed.


Lemma calls_complete (d : nat) (w : World) : calls (complete d w) = calls w.
Proof. reflexivity. Qed.

Lemma isPathwayEvent_truthy (result : JsValue) :
  isPathwayEvent result = true -> truthy result = true.
Proof. destruct result; cbn; congruence. Qed.

Lemma says_creatorDialogAfterClosed (result : JsValue) :
  says (creatorDialogAfterClosed result)
    (if truthy result then
       if isPathwayEvent result then
         [NewPathwayEventCreated result; SpeakUtterance successUtterance]
       else
         [ SnackBarOpen (getProperty result (js "data"));
           SpeakUtterance (getProperty result (js "data")) ]
     else restartCalls).
Proof.
  unfold creatorDialogAfterClosed, speakUtterance, displayMessage.
  destruct (truthy result); [destruct (isPathwayEvent result)|];
    (eapply says_eq; [say | reflexivity]).
Qed.

Lemma says_pathwayEventDeleted (result : bool) :
  says (pathwayEventDeleted result)
    [SpeakUtterance (deletionUtterance result)].
Proof.
  unfold pathwayEventDeleted, speakUtterance.
  destruct result; (eapply says_eq; [say | reflexivity]).
Qed.

End Calls.


(** ** Stretches in which recognition stays off *)

Section Calm.

Lemma Calm_refl (w : World) : Calm w w.
Proof.
  constructor; auto.
  exists []. now rewrite app_nil_r.
Qed.

Lemma Calm_trans (w1 w2 w3 : World) : Calm w1 w2 -> Calm w2 w3 -> Calm w1 w3.
Proof.
  intros [(l1 & E1 & Q1) L1 R1 N1 K1] [(l2 & E2 & Q2) L2 R2 N2 K2].
  constructor.
  - exists (l1 ++ l2). rewrite E2, E1, app_assoc, forallb_app, Q1, Q2. now split.
  - congruence.
  - congruence.
  - intros s Hs. destruct (N2 s Hs) as [H|H]; auto.
  - intros s Hs Hh. auto.
Qed.

Lemma calm_quiet_call (c : Call) (w : World) :
  quietCall c = true -> Calm w (exec (call c) w).
Proof.
  intros Hq. constructor; cbn; auto.
  exists [c]. cbn. now rewrite Hq.
Qed.

Lemma calm_pathwayEventDeleted (result : bool) (w : World) :
  Calm w (exec (pathwayEventDeleted result) w).
Proof.
  constructor.
  - eexists. split; [apply says_pathwayEventDeleted | reflexivity].
  - now destruct result.
  - now destruct result.
  - intros s. destruct result; cbn; rewrite in_app_iff; cbn;
      intros [H | [<- | []]]; auto.
  - intros s Hs _. destruct result; cbn; rewrite in_app_iff; auto.
Qed.

Lemma calm_voiceListUpdated (allVoices : list Voice) (w : World) :
  Calm w (exec (voiceListUpdated allVoices) w).
Proof.
  constructor; cbn; auto.
  exists []. now rewrite app_nil_r.
Qed.

Lemma calm_speech_start (self : Subscription) (w : World) :
  handler self = OnSpeechStartAfterDeletion ->
  Calm w (exec (unsubscribe self ;; stopRecognition) w).
Proof.
  intros Hh. constructor; cbn; auto.
  - now exists [StopRecognition].
  - intros s Hs. apply filter_In in Hs as [Hs _]. now left.
  - intros s Hs Hn. apply filter_In. split; [assumption|].
    apply negb_true_iff. destruct (sameSubscription s self) eqn:E; [|reflexivity].
    apply sameSubscription_eq in E. congruence.
Qed.

(** A harmless callback leaves recognition off. *)
Lemma calm_notify (e : Event) (w : World) (s : Subscription) :
  (responds e s = true -> harmless (handler s) = true) ->
  Calm w (notify e w s).
Proof.
  unfold responds, notify, react.
  destruct (handler s) eqn:Hs, e; cbn; intros H;
    try apply Calm_refl;
    try (destruct (Nat.eqb _ _); [discriminate (H eq_refl) | apply Calm_refl]);
    try discriminate (H eq_refl);
    destruct (isSubscribed s w); try apply Calm_refl.
  - apply calm_pathwayEventDeleted.
  - apply calm_voiceListUpdated.
  - now apply calm_speech_start.
Qed.

Lemma calm_fold_notify (e : Event) (l : list Subscription) (w : World) :
  (forall s, In s l -> responds e s = true -> harmless (handler s) = true) ->
  Calm w (fold_left (notify e) l w).
Proof.
  revert w; induction l as [|s l IH]; intros w H; cbn; [apply Calm_refl|].
  apply Calm_trans with (notify e w s).
  - apply calm_notify, H. now left.
  - apply IH. intros x Hx. apply H. now right.
Qed.

Lemma calm_emit (e : Event) (w : World) :
  (forall s, In s (subscriptions w) -> responds e s = true ->
             harmless (handler s) = true) ->
  Calm w (emit e w).
Proof. apply calm_fold_notify. Qed.

Lemma calm_step (e : Event) (w : World) :
  userActivates e = false ->
  (forall s, In s (subscriptions w) -> responds e s = true ->
             harmless (handler s) = true) ->
  Calm w (step e w).
Proof.
  intros Hu H. pose proof (calm_emit e w H) as Hc.
  destruct e; try exact Hc; try discriminate Hu.
  - (* a dialog closes that nobody waits for *)
    cbn [step]. apply Calm_trans with (emit (DialogClosed dialog result) w);
      [exact Hc|].
    constructor; cbn; auto.
    + exists []. now rewrite app_nil_r.
    + intros s Hs. apply filter_In in Hs as [Hs _]. now left.
    + intros s Hs _. apply filter_In. split; [assumption|].
      apply negb_true_iff.
      destruct (belongsToDialog dialog s) eqn:E; [|reflexivity].
      destruct (calm_new Hc s Hs) as [Hin | Hh].
      * rewrite <- (responds_dialog_closed dialog result) in E.
        specialize (H s Hin E). unfold responds, react in E.
        destruct (handler s); discriminate.
      * unfold belongsToDialog in E. rewrite Hh in E. discriminate.
  - apply calm_quiet_call. reflexivity.
  - cbn [step]. unfold exec, onVoiceChanged.
    destruct (find _ _); [|apply Calm_refl].
    apply calm_quiet_call. reflexivity.
Qed.

Lemma calm_suspended (w w' : World) : Calm w w' -> suspended w -> suspended w'.
Proof.
  intros Hc Hs s Hin. destruct (calm_new Hc s Hin) as [H | H]; [auto|].
  unfold isRecognitionHandler. now rewrite H.
Qed.

(** With recognition suspended, a quiet event reaches harmless callbacks
    only. *)
Lemma quiet_responders_harmless (e : Event) (w : World) (s : Subscription) :
  quiet e = true -> suspended w -> In s (subscriptions w) ->
  responds e s = true -> harmless (handler s) = true.
Proof.
  intros Hq Hs Hin Hr. specialize (Hs s Hin).
  unfold responds, react in Hr. unfold isRecognitionHandler in Hs.
  destruct (handler s), e; try discriminate; reflexivity.
Qed.

Lemma quiet_not_activate (e : Event) : quiet e = true -> userActivates e = false.
Proof. now destruct e. Qed.

Lemma calm_run_quiet (events : list Event) (w : World) :
  forallb quiet events = true -> suspended w -> Calm w (run events w).
Proof.
  revert w; induction events as [|e events IH]; intros w Hq Hs; cbn;
    [apply Calm_refl|].
  cbn in Hq. apply andb_true_iff in Hq as [He Hq].
  assert (Hc : Calm w (step e w)).
  { apply calm_step; [now apply quiet_not_activate|].
    intros s. now apply quiet_responders_harmless. }
  apply Calm_trans with (step e w); [exact Hc|].
  apply IH; [assumption | now apply (calm_suspended w (step e w) Hc)].
Qed.

Lemma calm_run_harmless (events : list Event) (w : World) :
  forallb (fun e => negb (userActivates e)) events = true ->
  (forall s, In s (subscriptions w) -> harmless (handler s) = true) ->
  Calm w (run events w).
Proof.
  revert w; induction events as [|e events IH]; intros w Hq Hs; cbn;
    [apply Calm_refl|].
  cbn in Hq. apply andb_true_iff in Hq as [He Hq].
  apply negb_true_iff in He.
  assert (Hc : Calm w (step e w)) by (apply calm_step; auto).
  apply Calm_trans with (step e w); [exact Hc|].
  apply IH; [assumption|].
  intros s Hin. destruct (calm_new Hc s Hin) as [H | H]; [auto|].
  now rewrite H.
Qed.

Lemma quiet_calls_no_start (l : list Call) :
  forallb quietCall l = true ->
  ~ In StartRecognition l /\ filter isNotice l = [].
Proof.
  induction l as [|c l IH]; cbn; intros H; [auto|].
  apply andb_true_iff in H as [Hc H]. destruct (IH H) as [IH1 IH2].
  split.
  - intros [-> | Hin]; [discriminate | auto].
  - destruct c; try discriminate; assumption.
Qed.

End Calm.


(** ** Events that one-shot callbacks wait for *)

Section OneShots.

Lemma notify_grows (e : Event) (w : World) (s : Subscription) :
  (forall x body, react x e = Some body -> exists l, says body l) ->
  exists l, calls (notify e w s) = calls w ++ l.
Proof.
  intros H. unfold notify. destruct (react s e) as [body|] eqn:E.
  - destruct (isSubscribed s w).
    + destruct (H s body E) as [l Hl]. exists l. apply Hl.
    + exists []. now rewrite app_nil_r.
  - exists []. now rewrite app_nil_r.
Qed.

Lemma fold_notify_grows (e : Event) (l : list Subscription) (w : World) :
  (forall x body, react x e = Some body -> exists l, says body l) ->
  exists k, calls (fold_left (notify e) l w) = calls w ++ k.
Proof.
  intros H. revert w; induction l as [|s l IH]; intros w; cbn.
  - exists []. now rewrite app_nil_r.
  - destruct (IH (notify e w s)) as [k2 E2].
    destruct (notify_grows e w s H) as [k1 E1].
    exists (k1 ++ k2). now rewrite E2, E1, app_assoc.
Qed.

(** If every callback of an event makes the call [c], and somebody is
    subscribed, the event leads to [c]. *)
Lemma emit_says (e : Event) (c : Call) (w : World) :
  (forall x body, react x e = Some body -> exists l, says body l /\ In c l) ->
  (exists s, In s (subscriptions w) /\ responds e s = true) ->
  exists l, calls (emit e w) = calls w ++ l /\ In c l.
Proof.
  intros H (s & Hin & Hr). rewrite emit_responders.
  assert (Hf : In s (filter (responds e) (subscriptions w)))
    by (apply filter_In; now split).
  destruct (filter (responds e) (subscriptions w)) as [|r rest] eqn:E;
    [destruct Hf|].
  assert (Hr' : In r (subscriptions w) /\ responds e r = true).
  { apply filter_In. rewrite E. now left. }
  destruct Hr' as [Hrin Hrr]. cbn [fold_left].
  unfold responds in Hrr. destruct (react r e) as [body|] eqn:Eb;
    [|discriminate].
  destruct (H r body Eb) as (l1 & Hl1 & Hc).
  destruct (fold_notify_grows e rest (notify e w r)) as [l2 Hl2].
  { intros x b Hx. destruct (H x b Hx) as (l & Hl & _). now exists l. }
  exists (l1 ++ l2). split; [|apply in_or_app; now left].
  rewrite Hl2. unfold notify. rewrite Eb.
  apply existsb_same_In in Hrin. unfold isSubscribed. rewrite Hrin.
  unfold exec. now rewrite Hl1, app_assoc.
Qed.

Lemma speech_end_restarts (s : Subscription) (w : World) :
  In s (subscriptions w) ->
  handler s = OnSpeechEndAfterCreatorDialog
  \/ handler s = OnSpeechEndAfterDeleteCommand ->
  exists l, calls (step SpeechEnd w) = calls w ++ l /\ In StartRecognition l.
Proof.
  intros Hin Hh. cbn [step]. apply emit_says.
  - intros x body. unfold react.
    destruct (handler x); try discriminate; intros [= <-];
      exists ([] ++ restartCalls);
      (split; [eapply says_bind;
                 [apply says_unsubscribe
                 | intros ?; apply says_restartSpeechRecognition]
              | cbn; auto]).
  - exists s. split; [assumption|]. unfold responds, react.
    now destruct Hh as [-> | ->].
Qed.


(** The command that opens the appointment creator, in closed form. *)
Lemma create_command_exec (w : World) :
  exec (stopRecognition ;; caseBody CreateAppointment) w
  = mkWorld (availableVoices w) (speechRecognitionAvailable w) false []
      (recognitionSupported w)
      (removeAll (currentSpeechRecognitionServiceSubscriptions w)
         (subscriptions w)
       ++ [mkSubscription (nextSubscription w)
             (CreatorDialogAfterClosed (nextDialog w))])
      (S (nextSubscription w)) (S (nextDialog w))
      (calls w
       ++ [ StopRecognition; StopRecognition;
            DialogOpen PathwayAppointmentCreatorComponent (nextDialog w) ]).
Proof.
  unfold caseBody, openAndHandlePathwayAppointmentCreatorDialog, exec, bind.
  cbn [fst snd].
  change (snd (unsubscribeFromAllSubscriptions ?x))
    with (exec unsubscribeFromAllSubscriptions x).
  rewrite unsubscribeFromAllSubscriptions_exec.
  destruct w; cbn. rewrite <- !app_assoc. reflexivity.
Qed.

Lemma creatorDialogAfterClosed_subscriptions (result : JsValue) (w : World) :
  truthy result = true ->
  subscriptions (exec (creatorDialogAfterClosed result) w)
  = subscriptions w
    ++ [mkSubscription (nextSubscription w) OnSpeechEndAfterCreatorDialog]
  /\ pathIsListening (exec (creatorDialogAfterClosed result) w)
     = pathIsListening w
  /\ currentSpeechRecognitionServiceSubscriptions
       (exec (creatorDialogAfterClosed result) w)
     = currentSpeechRecognitionServiceSubscriptions w.
Proof.
  intros Ht. unfold creatorDialogAfterClosed. rewrite Ht.
  destruct (isPathwayEvent result); cbn; auto.
Qed.

End OneShots.

(** ** The path of the appointment creator *)

Section CreationPath.

Variables (supported : bool) (events : list Event) (data : jsstring).

Let w0 := session supported events.

Hypothesis Hinstalled : installed w0 = true.
Hypothesis Hcommand : classify (toLowerCase data) = CreateAppointment.

Lemma create_command_step :
  step (SpeechRecognitionResultAvailable data) w0
  = exec (stopRecognition ;; caseBody CreateAppointment) w0.
Proof.
  rewrite step_recognition_result;
    [| apply consistent_session | exact Hinstalled].
  unfold speechRecognitionResultAvailable. now rewrite Hcommand.
Qed.

(** While the dialog is open and only quiet events arrive, recognition
    stays off and the dialog's callback stays subscribed. *)
Lemma creation_dialog_open (during : list Event) :
  forallb quiet during = true ->
  let w1 := run during (step (SpeechRecognitionResultAvailable data) w0) in
  Consistent w1 /\ suspended w1
  /\ pathIsListening w1 = false
  /\ In (mkSubscription (nextSubscription w0)
           (CreatorDialogAfterClosed (nextDialog w0))) (subscriptions w1)
  /\ exists l,
       calls w1
       = calls w0
         ++ [ StopRecognition; StopRecognition;
              DialogOpen PathwayAppointmentCreatorComponent (nextDialog w0) ]
         ++ l
       /\ forallb quietCall l = true.
Proof.
  intros Hq w1.
  pose proof (consistent_session supported events) as Hc0. fold w0 in Hc0.
  set (wc := step (SpeechRecognitionResultAvailable data) w0) in *.
  assert (Hcc : Consistent wc)
    by (unfold wc, w0; apply consistent_step, consistent_session).
  assert (Hws : suspended wc).
  { intros s Hin. destruct (isRecognitionHandler s) eqn:E; [|reflexivity].
    assert (Hf : In s (filter isRecognitionHandler (subscriptions wc)))
      by (apply filter_In; now split).
    rewrite (remembered Hcc) in Hf. unfold wc in Hf.
    rewrite create_command_step, create_command_exec in Hf. destruct Hf. }
  pose proof (calm_run_quiet during wc Hq Hws) as Hcalm. fold w1 in Hcalm.
  split; [now apply consistent_run|].
  split; [now apply (calm_suspended wc w1 Hcalm)|].
  split; [|split].
  - rewrite (calm_listening Hcalm). unfold wc.
    now rewrite create_command_step, create_command_exec.
  - apply (calm_kept Hcalm); [|discriminate].
    unfold wc. rewrite create_command_step, create_command_exec.
    cbn [subscriptions]. apply in_or_app. right. now left.
  - destruct (calm_calls Hcalm) as (l & El & Ql). exists l.
    split; [|exact Ql]. rewrite El. unfold wc.
    rewrite create_command_step, create_command_exec. cbn [calls].
    now rewrite <- app_assoc.
Qed.

End CreationPath.

Section DialogClosed.

Variables (w1 : World) (d i : nat) (result : JsValue).

Hypothesis Hconsistent : Consistent w1.
Hypothesis Hsuspended : suspended w1.
Hypothesis Hwaiting :
  In (mkSubscription i (CreatorDialogAfterClosed d)) (subscriptions w1).

Lemma creator_dialog_closed_step :
  step (DialogClosed d result) w1
  = complete d (exec (creatorDialogAfterClosed result) w1).
Proof.
  apply step_creator_dialog_closed with (i := i); [assumption|].
  now apply existsb_same_In.
Qed.

(** After the dialog has closed with a result, and while only quiet
    events arrive, recognition stays off; the end of the utterance
    restarts it. *)
Lemma creation_dialog_closed (after : list Event) :
  truthy result = true ->
  forallb quiet after = true ->
  let w2 := step (DialogClosed d result) w1 in
  let w3 := run after w2 in
  pathIsListening w3 = pathIsListening w1
  /\ (exists l, calls w3 = calls w2 ++ l /\ forallb quietCall l = true)
  /\ (exists l, calls (step SpeechEnd w3) = calls w3 ++ l
                /\ In StartRecognition l).
Proof.
  intros Ht Hq w2 w3.
  destruct (creatorDialogAfterClosed_subscriptions result w1 Ht)
    as (Es & El & Er).
  assert (E2 : subscriptions w2
               = filter (fun s => negb (belongsToDialog d s))
                   (subscriptions w1
                    ++ [mkSubscription (nextSubscription w1)
                          OnSpeechEndAfterCreatorDialog])).
  { unfold w2. rewrite creator_dialog_closed_step. cbn [complete subscriptions
      setSubscriptions]. now rewrite Es. }
  assert (Hs2 : suspended w2).
  { intros s Hin. rewrite E2 in Hin. apply filter_In in Hin as [Hin _].
    apply in_app_or in Hin as [Hin | [<- | []]]; [auto | reflexivity]. }
  assert (Hin2 : In (mkSubscription (nextSubscription w1)
                       OnSpeechEndAfterCreatorDialog) (subscriptions w2)).
  { rewrite E2. apply filter_In. split; [|reflexivity].
    apply in_or_app. right. now left. }
  pose proof (calm_run_quiet after w2 Hq Hs2) as Hcalm. fold w3 in Hcalm.
  split; [|split].
  - rewrite (calm_listening Hcalm). unfold w2.
    rewrite creator_dialog_closed_step. exact El.
  - exact (calm_calls Hcalm).
  - apply speech_end_restarts
      with (s := mkSubscription (nextSubscription w1)
                   OnSpeechEndAfterCreatorDialog).
    + apply (calm_kept Hcalm); [assumption | discriminate].
    + now left.
Qed.

End DialogClosed.

(** ** The path of the delete command *)

Section DeletionPath.

Lemma exec_seq {A B : Type} (m : M A) (k : M B) (w : World) :
  exec (m ;; k) w = exec k (exec m w).
Proof. reflexivity. Qed.

(** The delete command leaves a one-shot callback behind that waits for
    the end of the utterance about the deletion. *)
Lemma delete_command_waits (n : jsstring) (w : World) :
  In (mkSubscription (4 + nextSubscription w) OnSpeechEndAfterDeleteCommand)
     (subscriptions (exec (stopRecognition ;; caseBody (Delete n)) w)).
Proof.
  unfold caseBody. rewrite !exec_seq.
  set (v := exec _ (exec _ (exec stopRecognition w))).
  assert (Hn : nextSubscription v = nextSubscription w)
    by (unfold v; now destruct (nonEmpty n)).
  rewrite restartSpeechRecognition_exec. cbn. rewrite Hn.
  apply in_or_app. right. now left.
Qed.


End DeletionPath.


(* ================================================================== *)
(** * Invariants of a session *)
(* ================================================================== *)

(** ** A frame rule for the callbacks *)

Section Frame.

Variable P : World -> Prop.
Variable a : Allowance.

Hypothesis frame_call : forall c, plainCall c = true -> preserves P (call c).
Hypothesis frame_delete :
  forall n, okName a n -> preserves P (call (UserWantsDoDeleteEvent n)).
Hypothesis frame_open :
  forall n, okName a n -> preserves P (call (UserWantsToOpenEvent n)).
Hypothesis frame_subscribe : forall h, preserves P (subscribe h).
Hypothesis frame_unsubscribe :
  forall s, isOneShot (handler s) = true -> okCancel a s ->
            preserves P (unsubscribe s).
Hypothesis frame_cancel_all : preserves P unsubscribeFromAllSubscriptions.
Hypothesis frame_restart : preserves P restartSpeechRecognition.
Hypothesis frame_dialogOpen : forall kind, preserves P (dialogOpen kind).
Hypothesis frame_listening :
  forall b, okListening a b -> preserves P (modify (setPathIsListening b)).
Hypothesis frame_voices :
  forall v, okVoices a v -> preserves P (modify (setAvailableVoices v)).
Hypothesis frame_voiceChanged : forall uri, preserves P (onVoiceChanged uri).
Hypothesis frame_complete : forall d w, okClose a d -> P w -> P (complete d w).

Ltac frame :=
  repeat lazymatch goal with
    | |- preserves _ (bind _ _) => apply preserves_bind; [|intros ?]
    | |- preserves _ (if _ then _ else _) => apply preserves_if
    | |- preserves _ (ret _) => apply preserves_ret
    | |- preserves _ (call _) => apply frame_call; reflexivity
    | |- preserves _ (subscribe _) => apply frame_subscribe
    | |- preserves _ restartSpeechRecognition => apply frame_restart
    | |- preserves _ unsubscribeFromAllSubscriptions => apply frame_cancel_all
    | |- preserves _ (dialogOpen _) => apply frame_dialogOpen
    | |- preserves _ (modify (setPathIsListening _)) =>
        apply frame_listening; assumption
    end.

Lemma frame_result (data : jsstring) :
  match classify (toLowerCase data) with
  | CreateAppointment => okListening a false
  | Delete n | Show n => nonEmpty n = true -> okName a n
  | _ => True
  end ->
  preserves P (speechRecognitionResultAvailable data).
Proof.
  unfold speechRecognitionResultAvailable.
  destruct (classify (toLowerCase data)) as [| | |n|n|]; intros Hok;
    unfold caseBody, openAndHandlePathwayAppointmentCreatorDialog,
      openHelpDialog, displayMessage, stopRecognition.
  - frame.
  - frame.
  - frame.
  - apply preserves_bind; [frame | intros ?].
    apply preserves_bind; [frame | intros ?].
    apply preserves_bind; [|intros ?; frame].
    destruct (nonEmpty n); [apply frame_delete; auto | apply preserves_ret].
  - apply preserves_bind; [frame | intros ?].
    apply preserves_bind; [frame | intros ?].
    apply preserves_bind; [|intros ?; frame].
    destruct (nonEmpty n); [apply frame_open; auto | apply preserves_ret].
  - frame.
Qed.

(** A callback that stays within the allowance keeps the property. *)
Lemma frame_react (s : Subscription) (e : Event) (body : M unit) :
  react s e = Some body -> reactOk a s e -> preserves P body.
Proof.
  unfold react. destruct (handler s) eqn:Hs, e; try discriminate;
    try (destruct (Nat.eqb _ _); try discriminate);
    intros [= <-] Hok; cbn in Hok.
  - now apply frame_result.
  - now apply frame_listening.
  - now apply frame_listening.
  - frame.
  - unfold pathwayEventDeleted, speakUtterance. frame.
  - unfold voiceListUpdated. now apply frame_voices.
  - apply preserves_bind; [|intros ?; unfold stopRecognition; frame].
    apply frame_unsubscribe; [now rewrite Hs | assumption].
  - apply preserves_bind; [|intros ?; frame].
    apply frame_unsubscribe; [now rewrite Hs | assumption].
  - apply preserves_bind; [|intros ?; frame].
    apply frame_unsubscribe; [now rewrite Hs | assumption].
  - frame.
  - unfold creatorDialogAfterClosed, speakUtterance, displayMessage. frame.
Qed.

Lemma frame_notify (e : Event) (w : World) (s : Subscription) :
  (responds e s = true -> reactOk a s e) -> P w -> P (notify e w s).
Proof.
  intros Hok H. unfold notify, responds in *.
  destruct (react s e) as [body|] eqn:E; [|assumption].
  destruct (isSubscribed s w); [|assumption].
  apply (frame_react s e body E); auto.
Qed.

Lemma frame_emit (e : Event) (w : World) :
  (forall s, responds e s = true -> reactOk a s e) -> P w -> P (emit e w).
Proof.
  intros Hok. unfold emit. generalize (subscriptions w) as l.
  intros l; revert w; induction l as [|s l IH]; intros w H; cbn;
    [assumption|].
  apply IH, frame_notify; auto.
Qed.

Lemma frame_step (e : Event) (w : World) :
  eventOk a e -> P w -> P (step e w).
Proof.
  intros [Hr Hc] H. destruct e; cbn [step]; try (now apply frame_emit).
  - apply frame_complete; [assumption | now apply frame_emit].
  - now apply frame_restart.
  - apply frame_call; [reflexivity | assumption].
  - now apply frame_voiceChanged.
Qed.

Lemma frame_run (events : list Event) (w : World) :
  Forall (eventOk a) events -> P w -> P (run events w).
Proof.
  revert w; induction events as [|e events IH]; intros w Hok H; cbn;
    [assumption|].
  inversion Hok; subst. apply IH; [assumption | now apply frame_step].
Qed.

End Frame.


(** ** The fields of the component *)

Section Fields.

Ltac field_frame :=
  intros;
  lazymatch goal with
  | |- preserves _ restartSpeechRecognition =>
      let w := fresh "w" in
      let H := fresh "H" in
      intros w H;
      change (snd (restartSpeechRecognition w))
        with (exec restartSpeechRecognition w);
      rewrite restartSpeechRecognition_exec; exact H
  | |- preserves _ unsubscribeFromAllSubscriptions =>
      let w := fresh "w" in
      let H := fresh "H" in
      intros w H;
      change (snd (unsubscribeFromAllSubscriptions w))
        with (exec unsubscribeFromAllSubscriptions w);
      rewrite unsubscribeFromAllSubscriptions_exec; exact H
  | |- preserves _ (onVoiceChanged _) =>
      let w := fresh "w" in
      let H := fresh "H" in
      intros w H; unfold onVoiceChanged; destruct (find _ _); exact H
  | |- preserves _ _ =>
      let w := fresh "w" in
      let H := fresh "H" in
      intros w H; exact H
  | |- _ => assumption
  end.

(** Nothing but the recognition-started and recognition-ended callbacks
    and the creation command writes the listening flag. *)
Lemma listening_frame (b : bool) (e : Event) (w : World) :
  eventOk (fieldAllowance (fun b' => b' = b) (fun _ => True)) e ->
  pathIsListening w = b -> pathIsListening (step e w) = b.
Proof.
  apply (frame_step (fun w => pathIsListening w = b)
           (fieldAllowance (fun b' => b' = b) (fun _ => True)));
    try solve [field_frame].
  intros b' Hb w' H. cbn in Hb. subst b'. reflexivity.
Qed.

Lemma voices_frame (v : list Voice) (e : Event) (w : World) :
  eventOk (fieldAllowance (fun _ => True) (fun v' => v' = v)) e ->
  availableVoices w = v -> availableVoices (step e w) = v.
Proof.
  apply (frame_step (fun w => availableVoices w = v)
           (fieldAllowance (fun _ => True) (fun v' => v' = v)));
    try solve [field_frame].
  intros v' Hv w' H. cbn in Hv. subst v'. reflexivity.
Qed.

Lemma available_frame (b : bool) (e : Event) (w : World) :
  speechRecognitionAvailable w = b -> speechRecognitionAvailable (step e w) = b.
Proof.
  apply (frame_step (fun w => speechRecognitionAvailable w = b)
           (fieldAllowance (fun _ => True) (fun _ => True)));
    try solve [field_frame].
  split; [|now destruct e].
  intros s _. unfold reactOk. destruct e; cbn; auto.
  now destruct (classify (toLowerCase data)).
Qed.

End Fields.


(** ** Names and voices that leave the component *)

Section Names.

Lemma trimStart_suffix (s : jsstring) : exists p, s = p ++ trimStart s.
Proof.
  induction s as [|c s [p IH]]; cbn; [now exists []|].
  destruct (isWhiteSpace c).
  - exists (c :: p). cbn. now f_equal.
  - now exists [].
Qed.

Lemma trimStart_noLeading (s : jsstring) : noLeadingWhiteSpace (trimStart s).
Proof.
  induction s as [|c s IH]; cbn; [exact I|].
  destruct (isWhiteSpace c) eqn:E; [assumption | exact E].
Qed.

Lemma trimStart_fixed (s : jsstring) :
  noLeadingWhiteSpace s -> trimStart s = s.
Proof. destruct s as [|c s]; cbn; [reflexivity|]. now intros ->. Qed.

(** [trimEnd] cuts a string at its end only. *)
Lemma trimEnd_prefix (s : jsstring) : exists p, s = trimEnd s ++ p.
Proof.
  unfold trimEnd. destruct (trimStart_suffix (rev s)) as [p Hp].
  exists (rev p). rewrite <- rev_app_distr, <- Hp. now rewrite rev_involutive.
Qed.

Lemma trimEnd_noLeading (s : jsstring) :
  noLeadingWhiteSpace s -> noLeadingWhiteSpace (trimEnd s).
Proof.
  intros H. destruct (trimEnd_prefix s) as [p Hp].
  destruct (trimEnd s) as [|c t]; [exact I|].
  rewrite Hp in H. exact H.
Qed.

Lemma trim_idempotent (s : jsstring) : trim (trim s) = trim s.
Proof.
  unfold trim.
  rewrite (trimStart_fixed (trimEnd (trimStart s)))
    by apply trimEnd_noLeading, trimStart_noLeading.
  unfold trimEnd. rewrite rev_involutive.
  now rewrite (trimStart_fixed _ (trimStart_noLeading (rev (trimStart s)))).
Qed.

(** The name of an event is a part of the transcript. *)
Lemma extractEventName_part (r : jsstring) :
  exists before rest, r = before ++ extractEventName r ++ rest.
Proof.
  unfold extractEventName, trim, substr. cbv zeta.
  set (k := Z.to_nat _).
  destruct (trimStart_suffix (skipn k r)) as [a Ha].
  destruct (trimEnd_prefix (trimStart (skipn k r))) as [b Hb].
  exists (firstn k r ++ a), b.
  rewrite <- app_assoc, <- Hb, <- Ha. now rewrite firstn_skipn.
Qed.

Lemma classify_name (r n : jsstring) :
  classify r = Delete n \/ classify r = Show n -> n = extractEventName r.
Proof.
  unfold classify.
  repeat match goal with
         | |- context [if ?b then _ else _] => destruct b
         end; intros [H | H]; congruence.
Qed.

(** The name of a delete or show command, when there is one, is lower
    case and trimmed. *)
Lemma command_name_well_formed (data n : jsstring) :
  classify (toLowerCase data) = Delete n
  \/ classify (toLowerCase data) = Show n ->
  nonEmpty n = true -> wellFormedName n.
Proof.
  intros Hc Hn. apply classify_name in Hc. subst n.
  split; [exact Hn | split].
  - destruct (extractEventName_part (toLowerCase data))
      as (before & rest & E).
    apply toLowerCase_lowered.
    + pose proof (codePointsToString_units
                    (toLowercase false (stringToCodePoints data))) as Hu.
      fold (toLowerCase data) in Hu. rewrite E, !forallb_app in Hu.
      apply andb_true_iff in Hu as [_ Hu].
      now apply andb_true_iff in Hu as [Hu _].
    + apply (lowered_part before _ rest). rewrite <- E.
      apply lowered_toLowerCase.
  - apply trim_idempotent.
Qed.

End Names.


(** ** The log of a session *)

Section Log.

Variable events : list Event.

Lemma okLogged_plain (c : Call) : plainCall c = true -> okLogged events c.
Proof. destruct c; cbn; intros H; try exact I; discriminate. Qed.

Lemma logok_call (c : Call) :
  okLogged events c -> preserves (LogOk events) (call c).
Proof.
  intros Hc w [H1 H2]. split; [|exact H2]. cbn.
  apply Forall_app. split; [exact H1 | now constructor].
Qed.

Lemma logok_restart : preserves (LogOk events) restartSpeechRecognition.
Proof.
  intros w [H1 H2].
  change (snd (restartSpeechRecognition w))
    with (exec restartSpeechRecognition w).
  rewrite restartSpeechRecognition_exec. split; [|exact H2]. cbn [calls].
  apply Forall_app. split; [exact H1 | repeat constructor].
Qed.

Lemma logok_voiceChanged (uri : jsstring) :
  preserves (LogOk events) (onVoiceChanged uri).
Proof.
  intros w [H1 H2]. unfold onVoiceChanged.
  destruct (find _ _) as [voice|] eqn:E; [|now split].
  apply logok_call; [|now split].
  apply find_some in E as [Hin _]. cbn.
  now apply (proj1 (Forall_forall _ _) H2).
Qed.

Lemma logok_step (e : Event) (w : World) :
  eventOk (logAllowance events) e ->
  LogOk events w -> LogOk events (step e w).
Proof.
  apply (frame_step (LogOk events) (logAllowance events)).
  - intros c Hc. apply logok_call, okLogged_plain, Hc.
  - intros n Hn. now apply logok_call.
  - intros n Hn. now apply logok_call.
  - intros h w' H. exact H.
  - intros x _ _ w' H. exact H.
  - intros w' H.
    change (snd (unsubscribeFromAllSubscriptions w'))
      with (exec unsubscribeFromAllSubscriptions w').
    rewrite unsubscribeFromAllSubscriptions_exec. exact H.
  - apply logok_restart.
  - intros kind w' [H1 H2]. split; [|exact H2]. cbn.
    apply Forall_app. split; [exact H1 | now repeat constructor].
  - intros b _ w' H. exact H.
  - intros v Hv w' [H1 _]. split; [exact H1 | exact Hv].
  - apply logok_voiceChanged.
  - intros d w' _ H. exact H.
Qed.

(** Every event of the session stays within the allowance of the log. *)
Lemma logok_event (e : Event) :
  In e events -> eventOk (logAllowance events) e.
Proof.
  intros Hin. split; [|now destruct e].
  intros s _. destruct e; cbn; auto.
  - destruct (classify (toLowerCase data)) as [| | |n|n|] eqn:E; auto;
      intros Hn; apply (command_name_well_formed data n); auto.
  - apply Forall_forall. intros voice Hv.
    apply filter_In in Hv as [Hv Hg]. split.
    + unfold germanVoice, jsstring_eqb in Hg.
      now destruct (list_eq_dec N.eq_dec (lang voice) (js "de-DE")).
    + now exists allVoices.
Qed.

Lemma logok_run (evs : list Event) (w : World) :
  (forall e, In e evs -> In e events) ->
  LogOk events w -> LogOk events (run evs w).
Proof.
  revert w; induction evs as [|e evs IH]; intros w Hsub H; cbn;
    [assumption|].
  apply IH; [intros x Hx; apply Hsub; now right|].
  apply logok_step; [|assumption]. apply logok_event, Hsub. now left.
Qed.

Lemma logok_session (supported : bool) :
  LogOk events (session supported events).
Proof.
  apply logok_run; [auto|].
  destruct supported; split; cbn; repeat constructor.
Qed.

End Log.

(** ** Subscriptions that wait *)

Section Waiting.

Variable s : Subscription.
Hypothesis Hs : isRecognitionHandler s = false.

Lemma kept_same (w w' : World) :
  subscriptions w' = subscriptions w ->
  currentSpeechRecognitionServiceSubscriptions w'
  = currentSpeechRecognitionServiceSubscriptions w ->
  Kept s w -> Kept s w'.
Proof. unfold Kept. now intros -> ->. Qed.

Lemma kept_not_remembered (w : World) :
  Kept s w -> ~ In s (currentSpeechRecognitionServiceSubscriptions w).
Proof.
  intros [_ H] Hin. apply (proj1 (Forall_forall _ _) H) in Hin. congruence.
Qed.

Lemma kept_cancel_all : preserves (Kept s) unsubscribeFromAllSubscriptions.
Proof.
  intros w H.
  change (snd (unsubscribeFromAllSubscriptions w))
    with (exec unsubscribeFromAllSubscriptions w).
  rewrite unsubscribeFromAllSubscriptions_exec. split; cbn; [|constructor].
  apply removeAll_In. split; [apply H | now apply kept_not_remembered].
Qed.

Lemma kept_restart : preserves (Kept s) restartSpeechRecognition.
Proof.
  intros w H.
  change (snd (restartSpeechRecognition w))
    with (exec restartSpeechRecognition w).
  rewrite restartSpeechRecognition_exec. split; cbn [subscriptions
    currentSpeechRecognitionServiceSubscriptions].
  - apply in_or_app. left. apply removeAll_In.
    split; [apply H | now apply kept_not_remembered].
  - repeat constructor.
Qed.

Lemma kept_step (e : Event) (w : World) :
  responds e s = false -> Kept s w -> Kept s (step e w).
Proof.
  intros Hr.
  apply (frame_step (Kept s) (keepAllowance s)).
  - intros c _ w' H. now apply (kept_same w').
  - intros n _ w' H. now apply (kept_same w').
  - intros n _ w' H. now apply (kept_same w').
  - intros h w' [H1 H2]. split; [|exact H2]. cbn.
    apply in_or_app. now left.
  - intros x _ Hx w' [H1 H2]. split; [|exact H2]. cbn in *.
    apply filter_In. split; [exact H1|]. apply negb_true_iff.
    destruct (sameSubscription s x) eqn:E; [|reflexivity].
    apply sameSubscription_eq in E. congruence.
  - apply kept_cancel_all.
  - apply kept_restart.
  - intros kind w' H. now apply (kept_same w').
  - intros b _ w' H. now apply (kept_same w').
  - intros v _ w' H. now apply (kept_same w').
  - intros uri w' H. unfold onVoiceChanged. destruct (find _ _); [|exact H].
    now apply (kept_same w').
  - intros d w' Hd [H1 H2]. split; [|exact H2]. cbn in *.
    apply filter_In. split; [exact H1 | now rewrite Hd].
  - split.
    + intros x Hx. destruct e; cbn; auto;
        try (intros ->; congruence).
      now destruct (classify (toLowerCase data)).
    + destruct e; auto. cbn.
      now rewrite <- (responds_dialog_closed dialog result).
Qed.

Lemma kept_run (later : list Event) (w : World) :
  forallb (fun e => negb (responds e s)) later = true ->
  Kept s w -> Kept s (run later w).
Proof.
  revert w; induction later as [|e later IH]; intros w Hl H; cbn;
    [assumption|].
  cbn in Hl. apply andb_true_iff in Hl as [He Hl].
  apply negb_true_iff in He. apply IH; [assumption|].
  now apply kept_step.
Qed.

Lemma kept_consistent (w : World) :
  Consistent w -> In s (subscriptions w) -> Kept s w.
Proof.
  intros Hc Hin. split; [exact Hin|].
  rewrite <- (remembered Hc). apply Forall_forall.
  intros x Hx. now apply filter_In in Hx.
Qed.

End Waiting.


(** ** Recognition events, dialogs and one-shots once more *)

Section MoreDelivery.

Lemma emit_nobody (e : Event) (w : World) :
  filter (responds e) (subscriptions w) = [] -> emit e w = w.
Proof. intros H. now rewrite emit_responders, H. Qed.

Lemma recognition_responder (e : Event) :
  (exists data, e = SpeechRecognitionResultAvailable data)
  \/ e = SpeechRecognitionStarted \/ e = SpeechRecognitionEnded
  \/ (exists data, e = SpeechRecognitionError data) ->
  forall s, responds e s = true -> isRecognitionHandler s = true.
Proof.
  intros He s. unfold responds, react, isRecognitionHandler.
  destruct He as [[d ->] | [-> | [-> | [d ->]]]];
    destruct (handler s); congruence.
Qed.

(** Without the recognition callbacks a recognition event is lost. *)
Lemma step_recognition_suspended (e : Event) (w : World) :
  Consistent w -> installed w = false ->
  (exists data, e = SpeechRecognitionResultAvailable data)
  \/ e = SpeechRecognitionStarted \/ e = SpeechRecognitionEnded
  \/ (exists data, e = SpeechRecognitionError data) ->
  step e w = w.
Proof.
  intros Hc Hi He.
  assert (Es : step e w = emit e w)
    by (destruct He as [[d ->] | [-> | [-> | [d ->]]]]; reflexivity).
  rewrite Es. apply emit_nobody.
  rewrite responders_recognition;
    [| assumption | now apply recognition_responder].
  unfold installed in Hi.
  destruct (currentSpeechRecognitionServiceSubscriptions w);
    [reflexivity | discriminate].
Qed.

(** With them, it reaches the one callback that is subscribed to it. *)
Lemma step_recognition_installed (e : Event) (w : World) (h : Handler)
  (body : M unit) :
  Consistent w -> installed w = true ->
  (forall n, exists k, filter (responds e) (generation n) = [mkSubscription k h]) ->
  (forall k, react (mkSubscription k h) e = Some body) ->
  (forall s, responds e s = true -> isRecognitionHandler s = true) ->
  emit e w = exec body w.
Proof.
  intros Hc Hi Hg Hb Hr.
  destruct (one_generation Hc) as [E | [n E]].
  - unfold installed in Hi. now rewrite E in Hi.
  - destruct (Hg n) as (k & Hf).
    eapply emit_single; [|apply (Hb k)].
    rewrite responders_recognition by assumption. now rewrite E.
Qed.

Lemma step_started (w : World) :
  Consistent w ->
  step SpeechRecognitionStarted w
  = if installed w then setPathIsListening true w else w.
Proof.
  intros Hc. destruct (installed w) eqn:Hi.
  - cbn [step].
    apply (step_recognition_installed SpeechRecognitionStarted w
             OnSpeechRecognitionStarted
             (modify (setPathIsListening true)) Hc Hi).
    + intros n. now exists (S n).
    + reflexivity.
    + apply recognition_responder. auto.
  - apply step_recognition_suspended; auto.
Qed.

Lemma step_ended (w : World) :
  Consistent w ->
  step SpeechRecognitionEnded w
  = if installed w then setPathIsListening false w else w.
Proof.
  intros Hc. destruct (installed w) eqn:Hi.
  - cbn [step].
    apply (step_recognition_installed SpeechRecognitionEnded w
             OnSpeechRecognitionEnded
             (modify (setPathIsListening false)) Hc Hi).
    + intros n. now exists (S (S n)).
    + reflexivity.
    + apply recognition_responder. auto.
  - apply step_recognition_suspended; auto.
Qed.

Lemma step_error (data : jsstring) (w : World) :
  Consistent w ->
  step (SpeechRecognitionError data) w
  = if installed w
    then exec (call (ConsoleWarn data) ;; restartSpeechRecognition) w
    else w.
Proof.
  intros Hc. destruct (installed w) eqn:Hi.
  - cbn [step].
    apply (step_recognition_installed (SpeechRecognitionError data) w
             OnSpeechRecognitionError
             (call (ConsoleWarn data) ;; restartSpeechRecognition) Hc Hi).
    + intros n. now exists (S (S (S n))).
    + reflexivity.
    + apply recognition_responder. right. right. right. now exists data.
  - apply step_recognition_suspended; auto.
    right. right. right. now exists data.
Qed.

Lemma step_result (data : jsstring) (w : World) :
  Consistent w ->
  step (SpeechRecognitionResultAvailable data) w
  = if installed w then exec (speechRecognitionResultAvailable data) w else w.
Proof.
  intros Hc. destruct (installed w) eqn:Hi.
  - now apply step_recognition_result.
  - apply step_recognition_suspended; auto. left. now exists data.
Qed.

Lemma responds_help (i d : nat) (e : Event) :
  responds e (mkSubscription i (HelpDialogAfterClosed d)) = closesDialog d e.
Proof.
  unfold responds, react, closesDialog. cbn.
  destruct e; try reflexivity. now destruct (Nat.eqb d dialog).
Qed.

Lemma step_help_dialog_closed (d i : nat) (result : JsValue) (w : World) :
  Consistent w ->
  In (mkSubscription i (HelpDialogAfterClosed d)) (subscriptions w) ->
  step (DialogClosed d result) w
  = complete d (exec restartSpeechRecognition w).
Proof.
  intros Hc Hs. cbn [step]. f_equal.
  apply emit_single with (s := mkSubscription i (HelpDialogAfterClosed d)).
  - erewrite filter_ext by (intros; apply responds_dialog_closed).
    apply one_dialog_subscriber.
    + apply (dialogs_distinct Hc).
    + exact Hs.
    + unfold belongsToDialog. cbn. apply Nat.eqb_refl.
  - unfold react. cbn. now rewrite Nat.eqb_refl.
Qed.

(** After a speech event none of its one-shot callbacks is left. *)
Lemma fold_one_shots (e : Event) (l : list Subscription) (w : World) :
  e = SpeechStart \/ e = SpeechEnd ->
  (forall x, In x (subscriptions w) -> responds e x = true -> In x l) ->
  forall x, In x (subscriptions (fold_left (notify e) l w)) ->
            responds e x = false.
Proof.
  intros He. revert w; induction l as [|s l IH]; intros w H x Hx.
  - cbn in Hx. destruct (responds e x) eqn:E; [|reflexivity].
    destruct (H x Hx E).
  - cbn [fold_left] in Hx. revert x Hx. apply IH.
    intros x Hx Hr.
    assert (Hkeep : In x (subscriptions w) -> x <> s -> In x l).
    { intros Hin Hne. destruct (H x Hin Hr) as [-> | Hl];
        [congruence | exact Hl]. }
    unfold notify in Hx. destruct (react s e) as [body|] eqn:Eb.
    + destruct (isSubscribed s w) eqn:Es.
      * unfold react in Eb.
        destruct He as [-> | ->]; destruct (handler s) eqn:Hh;
          try discriminate; injection Eb as <-.
        -- cbn in Hx. apply filter_In in Hx as [Hx Hn].
           apply Hkeep; [exact Hx|]. intros ->.
           now rewrite sameSubscription_refl in Hn.
        -- rewrite exec_seq, restartSpeechRecognition_exec in Hx.
           cbn [subscriptions] in Hx. apply in_app_or in Hx as [Hx | Hx].
           ++ apply removeAll_In in Hx as [Hx _]. cbn in Hx.
              apply filter_In in Hx as [Hx Hn].
              apply Hkeep; [exact Hx|]. intros ->.
              now rewrite sameSubscription_refl in Hn.
           ++ cbn in Hx. unfold responds, react in Hr.
              destruct Hx as [<- | [<- | [<- | [<- | []]]]]; discriminate.
        -- rewrite exec_seq, restartSpeechRecognition_exec in Hx.
           cbn [subscriptions] in Hx. apply in_app_or in Hx as [Hx | Hx].
           ++ apply removeAll_In in Hx as [Hx _]. cbn in Hx.
              apply filter_In in Hx as [Hx Hn].
              apply Hkeep; [exact Hx|]. intros ->.
              now rewrite sameSubscription_refl in Hn.
           ++ cbn in Hx. unfold responds, react in Hr.
              destruct Hx as [<- | [<- | [<- | [<- | []]]]]; discriminate.
      * apply Hkeep; [exact Hx|]. intros ->.
        apply existsb_same_In in Hx. unfold isSubscribed in Es. congruence.
    + apply Hkeep; [exact Hx|]. intros ->.
      unfold responds in Hr. now rewrite Eb in Hr.
Qed.

Lemma regexMatch_goodbye_includes (s : jsstring) :
  includes s (js "auf ein wiederhören") = true ->
  regexMatch rxAufEinWiederhoeren s = true.
Proof.
  intros H. apply includes_iff in H as (pre & post & ->).
  unfold rxAufEinWiederhoeren, w_star. rewrite regexMatch_leading_star.
  apply regexMatch_iff. exists pre, (js "auf ein wiederhören" ++ post).
  split; [reflexivity|].
  change (js "auf ein wiederhören")
    with (js "auf" ++ space :: js "ein" ++ space :: js "wiederhören").
  rewrite <- !app_assoc. cbn [app].
  apply matchHere_lit. eexists. split; [reflexivity|].
  rewrite <- !app_assoc. cbn [ws matchHere atomMatches]. cbn [app andb].
  change (isWhiteSpace space) with true. cbn [andb].
  apply matchHere_lit. eexists. split; [reflexivity|].
  cbn [ws matchHere atomMatches]. change (isWhiteSpace space) with true.
  cbn [andb]. apply matchHere_lit. exists post.
  split; [reflexivity | apply matchHere_trailing_star].
Qed.

Lemma regexMatch_goodbye_inv (s : jsstring) :
  regexMatch rxAufEinWiederhoeren s = true ->
  includes s (js "wiederhören") = true.
Proof.
  unfold rxAufEinWiederhoeren, w_star. rewrite regexMatch_leading_star.
  rewrite regexMatch_iff. intros (pre & post & -> & H).
  apply matchHere_lit in H as (r1 & -> & H).
  destruct r1 as [|c1 r1]; [discriminate|].
  cbn [ws matchHere atomMatches] in H. apply andb_true_iff in H as [_ H].
  apply matchHere_lit in H as (r2 & -> & H).
  destruct r2 as [|c2 r2]; [discriminate|].
  cbn [ws matchHere atomMatches] in H. apply andb_true_iff in H as [_ H].
  apply matchHere_lit in H as (r3 & -> & _).
  apply includes_iff.
  exists (pre ++ js "auf" ++ c1 :: js "ein" ++ [c2]), r3.
  rewrite <- !app_assoc. cbn [app]. rewrite <- !app_assoc. reflexivity.
Qed.

Lemma regexMatch_neuer_termin_inv (s : jsstring) :
  regexMatch rxNeuerTermin s = true -> includes s (js "termin") = true.
Proof.
  intros H. apply regexMatch_neuer_termin in H as (pre & c & post & _ & ->).
  apply includes_iff. exists (pre ++ js "neuer" ++ [c]), post.
  rewrite <- !app_assoc. reflexivity.
Qed.

End MoreDelivery.

Section MoreCommands.

Lemma help_command_exec (w : World) :
  exec (stopRecognition ;; caseBody Help) w
  = mkWorld (availableVoices w) (speechRecognitionAvailable w)
      (pathIsListening w)
      (currentSpeechRecognitionServiceSubscriptions w)
      (recognitionSupported w)
      (subscriptions w
       ++ [mkSubscription (nextSubscription w)
             (HelpDialogAfterClosed (nextDialog w))])
      (S (nextSubscription w)) (S (nextDialog w))
      (calls w
       ++ [ StopRecognition;
            DialogOpen PathwayControlHelpDialogComponent (nextDialog w) ]).
Proof. destruct w; cbn. now rewrite <- app_assoc. Qed.

Lemma goodbye_command_exec (w : World) :
  exec (stopRecognition ;; caseBody EndSession) w
  = setCalls (calls w
              ++ [ StopRecognition;
                   SnackBarOpen (JsString (js "Man hört sich."));
                   StopRecognition ]) w.
Proof. destruct w; cbn. now rewrite <- !app_assoc. Qed.

Lemma says_unrecognized :
  says (stopRecognition ;; caseBody Unrecognized)
    ([ StopRecognition;
       SnackBarOpen
         (JsString (js "Dieses Sprachkommando wird nicht unterstützt.")) ]
     ++ restartCalls).
Proof.
  unfold caseBody, stopRecognition, displayMessage.
  eapply says_eq.
  - eapply says_bind; [apply says_call | intros ?].
    eapply says_bind; [apply says_call | intros ?].
    apply says_restartSpeechRecognition.
  - reflexivity.
Qed.

Lemma responds_speech_end (s : Subscription) (e : Event) :
  handler s = OnSpeechEndAfterCreatorDialog
  \/ handler s = OnSpeechEndAfterDeleteCommand ->
  responds e s = isSpeechEnd e.
Proof.
  intros [H | H]; unfold responds, react; rewrite H; now destruct e.
Qed.

Lemma forallb_pointwise {A : Type} (f g : A -> bool) (l : list A) :
  (forall x, f x = g x) -> forallb f l = forallb g l.
Proof.
  intros H. induction l as [|x l IH]; cbn; [reflexivity|].
  now rewrite H, IH.
Qed.

(** A pending speech-end callback restarts recognition at the next
    speech-end event, whatever arrives before it. *)
Lemma pending_restart (s : Subscription) (later : list Event) (w : World) :
  Consistent w -> In s (subscriptions w) ->
  handler s = OnSpeechEndAfterCreatorDialog
  \/ handler s = OnSpeechEndAfterDeleteCommand ->
  forallb (fun e => negb (isSpeechEnd e)) later = true ->
  exists l, calls (step SpeechEnd (run later w)) = calls (run later w) ++ l
            /\ In StartRecognition l.
Proof.
  intros Hc Hin Hh Hl.
  assert (Hrec : isRecognitionHandler s = false)
    by (unfold isRecognitionHandler; now destruct Hh as [-> | ->]).
  apply speech_end_restarts with (s := s); [|exact Hh].
  apply (kept_run s Hrec later w).
  - rewrite <- Hl. apply forallb_pointwise.
    intros e. now rewrite (responds_speech_end s e Hh).
  - now apply kept_consistent.
Qed.

Lemma find_none_forallb {A : Type} (p : A -> bool) (l : list A) :
  forallb (fun x => negb (p x)) l = true -> find p l = None.
Proof.
  induction l as [|x l IH]; cbn; [reflexivity|].
  intros H. apply andb_true_iff in H as [Hx H].
  apply negb_true_iff in Hx. rewrite Hx. now apply IH.
Qed.

Lemma voices_run (evs : list Event) (w : World) (acc : list Voice) :
  Consistent w ->
  availableVoices w = filter germanVoice acc ->
  availableVoices (run evs w)
  = filter germanVoice
      (fold_left (fun voices e => match e with
                                  | VoiceListUpdated allVoices => allVoices
                                  | _ => voices
                                  end) evs acc).
Proof.
  revert w acc; induction evs as [|e evs IH]; intros w acc Hc Hv; cbn;
    [assumption|].
  apply IH; [now apply consistent_step|].
  destruct e;
    try (apply voices_frame; [|assumption];
         split; [|exact I || now cbn];
         intros s _; cbn; auto;
         now destruct (classify (toLowerCase data))).
  rewrite step_voice_list_updated by assumption. reflexivity.
Qed.

Lemma available_run (b : bool) (evs : list Event) (w : World) :
  speechRecognitionAvailable w = b ->
  speechRecognitionAvailable (run evs w) = b.
Proof.
  revert w; induction evs as [|e evs IH]; intros w H; cbn; [assumption|].
  now apply IH, available_frame.
Qed.

End MoreCommands.


(** ** Subscription numbers *)

Section Numbers.

(** Unsubscribing keeps the numbers of the subscriptions distinct. *)
Lemma distinct_numbers_filter (p : Subscription -> bool)
  (subs : list Subscription) :
  NoDup (map sid subs) -> NoDup (map sid (filter p subs)).
Proof.
  induction subs as [|s subs IH]; cbn; intros H; [constructor|].
  apply NoDup_cons_iff in H as [Hfresh Hrest].
  destruct (p s); cbn; [|auto].
  apply NoDup_cons_iff. split; [|auto].
  intros Hin. apply Hfresh.
  apply in_map_iff in Hin as (y & Hy & Hin). apply in_map_iff.
  exists y. split; [assumption|]. now apply filter_In in Hin.
Qed.

Lemma numbered_filter (p : Subscription -> bool) (w : World) :
  Numbered w -> Numbered (setSubscriptions (filter p (subscriptions w)) w).
Proof.
  intros [H1 H2]. split; cbn.
  - now apply distinct_numbers_filter.
  - intros s Hs. apply filter_In in Hs as [Hs _]. auto.
Qed.

Lemma numbered_same (w w' : World) :
  subscriptions w' = subscriptions w ->
  nextSubscription w' = nextSubscription w ->
  Numbered w -> Numbered w'.
Proof.
  intros E1 E2 [H1 H2]. split; [now rewrite E1|].
  intros s Hs. rewrite E1 in Hs. rewrite E2. auto.
Qed.

Lemma numbered_subscribe (h : Handler) : preserves Numbered (subscribe h).
Proof.
  intros w [H1 H2]. split; cbn.
  - rewrite map_app. cbn. apply NoDup_app; [assumption | | ].
    + repeat constructor. intros [].
    + intros n Hn [E | []]. apply in_map_iff in Hn as (s & Es & Hs).
      specialize (H2 s Hs). lia.
  - intros s Hs. apply in_app_or in Hs as [Hs | [<- | []]].
    + specialize (H2 s Hs). lia.
    + cbn. lia.
Qed.

Lemma numbered_restart : preserves Numbered restartSpeechRecognition.
Proof.
  intros w [H1 H2].
  change (snd (restartSpeechRecognition w))
    with (exec restartSpeechRecognition w).
  rewrite restartSpeechRecognition_exec. split;
    cbn [subscriptions nextSubscription].
  - rewrite map_app. apply NoDup_app.
    + unfold removeAll. now apply distinct_numbers_filter.
    + cbn. repeat constructor; cbn; intuition lia.
    + intros n Hn Hg. apply in_map_iff in Hn as (s & Es & Hs).
      apply removeAll_In in Hs as [Hs _]. specialize (H2 s Hs).
      cbn in Hg. intuition lia.
  - intros s Hs. apply in_app_or in Hs as [Hs | Hs].
    + apply removeAll_In in Hs as [Hs _]. specialize (H2 s Hs). lia.
    + cbn in Hs. destruct Hs as [<- | [<- | [<- | [<- | []]]]]; cbn; lia.
Qed.

Lemma numbered_step (e : Event) (w : World) :
  Numbered w -> Numbered (step e w).
Proof.
  apply (frame_step Numbered anyAllowance).
  - intros c _ w' H. now apply (numbered_same w').
  - intros n _ w' H. now apply (numbered_same w').
  - intros n _ w' H. now apply (numbered_same w').
  - apply numbered_subscribe.
  - intros x _ _ w' H. now apply numbered_filter.
  - intros w' H.
    change (snd (unsubscribeFromAllSubscriptions w'))
      with (exec unsubscribeFromAllSubscriptions w').
    rewrite unsubscribeFromAllSubscriptions_exec.
    apply (numbered_same
             (setSubscriptions
                (removeAll (currentSpeechRecognitionServiceSubscriptions w')
                   (subscriptions w')) w')); [reflexivity | reflexivity|].
    now apply numbered_filter.
  - apply numbered_restart.
  - intros kind w' H. now apply (numbered_same w').
  - intros b _ w' H. now apply (numbered_same w').
  - intros v _ w' H. now apply (numbered_same w').
  - intros uri w' H. unfold onVoiceChanged. destruct (find _ _); [|exact H].
    now apply (numbered_same w').
  - intros d w' _ H. now apply numbered_filter.
  - split; [|now destruct e].
    intros s _. destruct e; cbn; auto.
    now destruct (classify (toLowerCase data)).
Qed.

Lemma numbered_session (supported : bool) (events : list Event) :
  Numbered (session supported events).
Proof.
  unfold session.
  assert (H : Numbered (exec ngOnInit (initial supported))).
  { destruct supported; split; cbn.
    - repeat constructor; cbn; intuition lia.
    - intros s Hs. repeat (destruct Hs as [<- | Hs]; [cbn; lia|]).
      destruct Hs.
    - repeat constructor; cbn; intuition lia.
    - intros s Hs. repeat (destruct Hs as [<- | Hs]; [cbn; lia|]).
      destruct Hs. }
  revert H. generalize (exec ngOnInit (initial supported)) as w.
  induction events as [|e events IH]; intros w H; cbn; [assumption|].
  now apply IH, numbered_step.
Qed.

Lemma numbered_NoDup (w : World) : Numbered w -> NoDup (subscriptions w).
Proof. intros [H _]. now apply NoDup_map_inv in H. Qed.

(** Every callback that waits for speech-end restarts once. *)
Lemma fold_speech_end (l : list Subscription) (w : World) :
  NoDup l ->
  (forall x, In x l ->
             In x (subscriptions w)
             /\ (handler x = OnSpeechEndAfterCreatorDialog
                 \/ handler x = OnSpeechEndAfterDeleteCommand)) ->
  Forall (fun x => isRecognitionHandler x = true)
    (currentSpeechRecognitionServiceSubscriptions w) ->
  calls (fold_left (notify SpeechEnd) l w)
  = calls w ++ List.concat (map (fun _ => restartCalls) l).
Proof.
  revert w; induction l as [|s l IH]; intros w Hn Hl Hr; cbn [fold_left map concat].
  - now rewrite app_nil_r.
  - inversion Hn as [|? ? Hs Hn']; subst.
    destruct (Hl s (or_introl eq_refl)) as [Hin Hh].
    assert (E : notify SpeechEnd w s
                = exec restartSpeechRecognition (exec (unsubscribe s) w)).
    { unfold notify, react, isSubscribed.
      apply existsb_same_In in Hin.
      destruct Hh as [-> | ->]; now rewrite Hin. }
    rewrite IH; [| assumption | |].
    + rewrite E, restartSpeechRecognition_exec. cbn [calls].
      now rewrite <- app_assoc.
    + intros x Hx. destruct (Hl x (or_intror Hx)) as [Hxin Hxh].
      split; [|exact Hxh].
      rewrite E, restartSpeechRecognition_exec. cbn [subscriptions].
      apply in_or_app. left. apply removeAll_In. split.
      * cbn. apply filter_In. split; [exact Hxin|].
        apply negb_true_iff.
        destruct (sameSubscription x s) eqn:Ex; [|reflexivity].
        apply sameSubscription_eq in Ex. congruence.
      * cbn. intros Hreg.
        apply (proj1 (Forall_forall _ _) Hr) in Hreg.
        unfold isRecognitionHandler in Hreg.
        destruct Hxh as [Hh' | Hh']; rewrite Hh' in Hreg; discriminate.
    + rewrite E, restartSpeechRecognition_exec.
      cbn [currentSpeechRecognitionServiceSubscriptions].
      repeat constructor.
Qed.

End Numbers.


(** ** The speech events of the synthesizer *)

Section SpeechEvents.

Lemma numbered_run (later : list Event) (w : World) :
  Numbered w -> Numbered (run later w).
Proof.
  revert w; induction later as [|e later IH]; intros w H; cbn; [assumption|].
  now apply IH, numbered_step.
Qed.

Lemma responds_creator (i d : nat) (e : Event) :
  responds e (mkSubscription i (CreatorDialogAfterClosed d)) = closesDialog d e.
Proof.
  unfold responds, react. destruct e; cbn; try reflexivity.
  now destruct (Nat.eqb d dialog).
Qed.

(** The restarts of one speech-end event, one after the other. *)
Lemma restarts_repeat (l : list Subscription) :
  List.concat (map (fun _ => restartCalls) l)
  = List.concat (repeat restartCalls (List.length l)).
Proof.
  induction l as [|s l IH]; [reflexivity|].
  change (restartCalls ++ List.concat (map (fun _ => restartCalls) l)
          = restartCalls ++ List.concat (repeat restartCalls (List.length l))).
  now rewrite IH.
Qed.

(** In a state the component reaches, a speech-end event runs the whole
    restart once for every callback that waits for it. *)
Lemma speech_end_log (w : World) :
  Consistent w -> Numbered w ->
  calls (step SpeechEnd w)
  = calls w
    ++ List.concat (map (fun _ => restartCalls)
                 (filter (responds SpeechEnd) (subscriptions w))).
Proof.
  intros Hc Hn. cbn [step]. rewrite emit_responders.
  apply fold_speech_end.
  - now apply NoDup_filter, numbered_NoDup.
  - intros x Hx. apply filter_In in Hx as [Hx Hr]. split; [exact Hx|].
    unfold responds, react in Hr. destruct (handler x); try discriminate; auto.
  - rewrite <- (remembered Hc). apply Forall_forall.
    intros x Hx. now apply filter_In in Hx.
Qed.

(** The last of these restarts leaves its recognition callbacks
    installed: a setup that was made during the event. *)
Lemma fold_speech_end_generation (l : list Subscription) (w : World) :
  NoDup l ->
  (forall x, In x l ->
             In x (subscriptions w)
             /\ (handler x = OnSpeechEndAfterCreatorDialog
                 \/ handler x = OnSpeechEndAfterDeleteCommand)) ->
  Forall (fun x => isRecognitionHandler x = true)
    (currentSpeechRecognitionServiceSubscriptions w) ->
  l <> [] ->
  exists n,
    nextSubscription w <= n
    /\ currentSpeechRecognitionServiceSubscriptions
         (fold_left (notify SpeechEnd) l w) = generation n.
Proof.
  revert w; induction l as [|s l IH]; intros w Hn Hl Hr Hne; [congruence|].
  cbn [fold_left]. inversion Hn as [|? ? Hs Hn']; subst.
  destruct (Hl s (or_introl eq_refl)) as [Hin Hh].
  assert (E : notify SpeechEnd w s
              = exec restartSpeechRecognition (exec (unsubscribe s) w)).
  { unfold notify, react, isSubscribed.
    apply existsb_same_In in Hin.
    destruct Hh as [-> | ->]; now rewrite Hin. }
  destruct l as [|s' l].
  - exists (nextSubscription w). split; [lia|]. cbn [fold_left].
    now rewrite E, restartSpeechRecognition_exec.
  - destruct (IH (notify SpeechEnd w s)) as (n & Hle & En);
      [assumption | | | discriminate |].
    + intros x Hx. destruct (Hl x (or_intror Hx)) as [Hxin Hxh].
      split; [|exact Hxh].
      rewrite E, restartSpeechRecognition_exec. cbn [subscriptions].
      apply in_or_app. left. apply removeAll_In. split.
      * cbn. apply filter_In. split; [exact Hxin|].
        apply negb_true_iff.
        destruct (sameSubscription x s) eqn:Ex; [|reflexivity].
        apply sameSubscription_eq in Ex. congruence.
      * cbn. intros Hreg.
        apply (proj1 (Forall_forall _ _) Hr) in Hreg.
        unfold isRecognitionHandler in Hreg.
        destruct Hxh as [Hh' | Hh']; rewrite Hh' in Hreg; discriminate.
    + rewrite E, restartSpeechRecognition_exec.
      cbn [currentSpeechRecognitionServiceSubscriptions].
      repeat constructor.
    + exists n. split; [|exact En].
      rewrite E, restartSpeechRecognition_exec in Hle.
      cbn [nextSubscription] in Hle. cbn in Hle. lia.
Qed.

Lemma speech_end_generation (w : World) (s : Subscription) :
  Consistent w -> Numbered w ->
  In s (subscriptions w) -> responds SpeechEnd s = true ->
  exists n,
    nextSubscription w <= n
    /\ filter isRecognitionHandler (subscriptions (step SpeechEnd w))
       = generation n.
Proof.
  intros Hc Hn Hin Hs.
  rewrite (remembered (consistent_step SpeechEnd w Hc)).
  cbn [step]. rewrite emit_responders.
  apply fold_speech_end_generation.
  - now apply NoDup_filter, numbered_NoDup.
  - intros x Hx. apply filter_In in Hx as [Hx Hr]. split; [exact Hx|].
    unfold responds, react in Hr. destruct (handler x); try discriminate; auto.
  - rewrite <- (remembered Hc). apply Forall_forall.
    intros x Hx. now apply filter_In in Hx.
  - intros E.
    assert (H : In s (filter (responds SpeechEnd) (subscriptions w)))
      by (apply filter_In; now split).
    now rewrite E in H.
Qed.

(** Every callback that waits for speech-start stops recognition once. *)
Lemma fold_speech_start (l : list Subscription) (w : World) :
  NoDup l ->
  (forall x, In x l ->
             In x (subscriptions w) /\ handler x = OnSpeechStartAfterDeletion) ->
  calls (fold_left (notify SpeechStart) l w)
  = calls w ++ map (fun _ => StopRecognition) l.
Proof.
  revert w; induction l as [|s l IH]; intros w Hn Hl; cbn [fold_left map].
  - now rewrite app_nil_r.
  - inversion Hn as [|? ? Hs Hn']; subst.
    destruct (Hl s (or_introl eq_refl)) as [Hin Hh].
    assert (E : notify SpeechStart w s
                = exec (unsubscribe s ;; stopRecognition) w).
    { unfold notify, react, isSubscribed.
      apply existsb_same_In in Hin. now rewrite Hh, Hin. }
    rewrite IH; [| assumption |].
    + rewrite E. cbn. now rewrite <- app_assoc.
    + intros x Hx. destruct (Hl x (or_intror Hx)) as [Hxin Hxh].
      split; [|exact Hxh]. rewrite E. cbn.
      apply filter_In. split; [exact Hxin|].
      apply negb_true_iff.
      destruct (sameSubscription x s) eqn:Ex; [|reflexivity].
      apply sameSubscription_eq in Ex. congruence.
Qed.

Lemma speech_start_log (w : World) :
  Numbered w ->
  calls (step SpeechStart w)
  = calls w
    ++ map (fun _ => StopRecognition)
         (filter (responds SpeechStart) (subscriptions w)).
Proof.
  intros Hn. cbn [step]. rewrite emit_responders.
  apply fold_speech_start.
  - now apply NoDup_filter, numbered_NoDup.
  - intros x Hx. apply filter_In in Hx as [Hx Hr]. split; [exact Hx|].
    unfold responds, react in Hr. now destruct (handler x).
Qed.

(** A restart leaves the callbacks that wait for a speech event as they
    are. *)
Lemma restart_keeps_responders (e : Event) (w : World) :
  Consistent w ->
  e = SpeechStart \/ e = SpeechEnd ->
  filter (responds e) (subscriptions (exec restartSpeechRecognition w))
  = filter (responds e) (subscriptions w).
Proof.
  intros Hc He. rewrite restartSpeechRecognition_exec. cbn [subscriptions].
  rewrite <- (remembered Hc), filter_app, removeAll_other.
  - replace (filter (responds e) (generation (nextSubscription w))) with
      (@nil Subscription); [apply app_nil_r|].
    destruct He as [-> | ->]; reflexivity.
  - intros x Hx. unfold responds, react in Hx. unfold isRecognitionHandler.
    destruct He as [-> | ->]; now destruct (handler x).
Qed.

(** A dialog of the appointment creator that closes without a result
    leaves the recognition callbacks of a new setup installed. *)
Lemma cancelled_dialog_generation (d : nat) (result : JsValue) (w : World) :
  truthy result = false ->
  currentSpeechRecognitionServiceSubscriptions
    (complete d (exec (creatorDialogAfterClosed result) w))
  = generation (nextSubscription w).
Proof.
  intros Hf. unfold creatorDialogAfterClosed. rewrite Hf.
  now rewrite restartSpeechRecognition_exec.
Qed.

End SpeechEvents.


(* ================================================================== *)
(** * The claims of the specification *)
(* ================================================================== *)

(** C3. The switch tests the five patterns in their fixed order (new
    appointment, goodbye, help, delete, show): the command of a lower-cased
    transcript is the one of the first rule of the table whose pattern
    matches somewhere in it. In particular a transcript in which both
    "hilfe" and "neuer termin" occur, as it was recognized or after
    lower-casing, is a request for a new appointment. *)
Theorem classify_first_rule_wins (t : jsstring) :
  classify (toLowerCase t) = classifyByRuleTable (toLowerCase t)
  /\ (forall pattern command, In (pattern, command) ruleTable ->
        (regexMatch pattern (toLowerCase t) = true <->
         exists pre post,
           toLowerCase t = pre ++ post /\ matchHere pattern post = true))
  /\ (includes (toLowerCase t) (js "hilfe") = true ->
      includes (toLowerCase t) (js "neuer termin") = true ->
      classify (toLowerCase t) = CreateAppointment)
  /\ (includes t (js "hilfe") = true ->
      includes t (js "neuer termin") = true ->
      classify (toLowerCase t) = CreateAppointment).
Proof.
  assert (H : includes (toLowerCase t) (js "neuer termin") = true ->
              classify (toLowerCase t) = CreateAppointment).
  { intros Hn. unfold classify.
    now rewrite regexMatch_neuer_termin_includes. }
  split; [reflexivity | split; [|split]].
  - intros pattern command _. apply regexMatch_iff.
  - intros _. exact H.
  - intros _ Hn. apply H. now apply includes_toLowerCase.
Qed.

Lemma classify_first_rule_wins_witness :
  includes (toLowerCase (js "Hilfe, ich brauche einen Neuer Termin")) (js "hilfe") = true
  /\ includes (toLowerCase (js "Hilfe, ich brauche einen Neuer Termin"))
       (js "neuer termin") = true
  /\ classify (toLowerCase (js "Hilfe, ich brauche einen Neuer Termin"))
     = CreateAppointment.
Proof.
  split; [vm_compute; reflexivity | split; [vm_compute; reflexivity|]].
  apply (proj1 (proj2 (proj2 (classify_first_rule_wins
                                (js "Hilfe, ich brauche einen Neuer Termin")))));
    vm_compute; reflexivity.
Defined.

(** C4, as the claim states it, fails: for "lösche " the extraction yields
    the empty string, but the command is not the unrecognized one (no
    notice is displayed); and the name is cut at the first space, not at
    the first white space. *)
Lemma delete_without_target_is_not_unrecognized :
  extractEventName (js "lösche ") = []
  /\ classify (js "lösche ") <> Unrecognized
  /\ exec (speechRecognitionResultAvailable (js "lösche ")) (session true [])
     <> exec (stopRecognition ;; caseBody Unrecognized) (session true [])
  /\ classify (js "lösche" ++ [9%N] ++ js "zahnarzt termin")
     = Delete (js "termin")
  /\ targetByWhiteSpace (js "lösche" ++ [9%N] ++ js "zahnarzt termin")
     = js "zahnarzt termin".
Proof.
  split; [reflexivity | split; [|split; [|split]]].
  - vm_compute. discriminate.
  - intros H. apply (f_equal calls) in H. vm_compute in H. discriminate.
  - vm_compute. reflexivity.
  - vm_compute. reflexivity.
Qed.

(** C4, amended. When the lower-cased transcript takes the delete (or show)
    case and contains a space, the name of the event is everything after
    the first space, trimmed. If the name is not empty it is emitted once;
    if it is empty nothing is emitted and no notice is displayed; in both
    cases recognition is restarted at once. *)
Theorem delete_show_target (data pre post n : jsstring) (w : World) :
  toLowerCase data = pre ++ space :: post ->
  ~ In space pre ->
  (classify (toLowerCase data) = Delete n ->
   n = trim post
   /\ calls (exec (speechRecognitionResultAvailable data) w)
      = calls w
        ++ [ StopRecognition;
             ConsoleLog (js "user wants to delete event " ++ n) ]
        ++ (if nonEmpty n then [UserWantsDoDeleteEvent n] else [])
        ++ restartCalls)
  /\ (classify (toLowerCase data) = Show n ->
      n = trim post
      /\ calls (exec (speechRecognitionResultAvailable data) w)
         = calls w
           ++ [ StopRecognition;
                ConsoleLog (js "user wants to show details of event " ++ n) ]
           ++ (if nonEmpty n then [UserWantsToOpenEvent n] else [])
           ++ restartCalls).
Proof.
  intros Hr Hn.
  assert (Hname : forall c m,
             classify (toLowerCase data) = c ->
             (c = Delete m \/ c = Show m) -> m = trim post).
  { intros c m Hc Hm. rewrite <- (extractEventName_after_space pre post Hn), <- Hr.
    unfold classify in Hc.
    repeat match type of Hc with
           | (if ?b then _ else _) = _ => destruct b
           end; subst c; destruct Hm; congruence. }
  split; intros Hc.
  - split; [apply (Hname _ _ Hc); now left|].
    unfold speechRecognitionResultAvailable. cbv zeta. rewrite Hc.
    apply says_delete.
  - split; [apply (Hname _ _ Hc); now right|].
    unfold speechRecognitionResultAvailable. cbv zeta. rewrite Hc.
    apply says_show.
Qed.

Lemma delete_show_target_witness :
  toLowerCase (js "Lösche Zahnarzttermin ") = js "lösche" ++ space :: js "zahnarzttermin "
  /\ ~ In space (js "lösche")
  /\ classify (toLowerCase (js "Lösche Zahnarzttermin ")) = Delete (js "zahnarzttermin")
  /\ js "zahnarzttermin" = trim (js "zahnarzttermin ").
Proof.
  assert (H1 : toLowerCase (js "Lösche Zahnarzttermin ")
               = js "lösche" ++ space :: js "zahnarzttermin ") by reflexivity.
  assert (H2 : ~ In space (js "lösche")) by (vm_compute; intuition discriminate).
  assert (H3 : classify (toLowerCase (js "Lösche Zahnarzttermin "))
               = Delete (js "zahnarzttermin")) by reflexivity.
  split; [exact H1 | split; [exact H2 | split; [exact H3|]]].
  exact (proj1 (proj1 (delete_show_target (js "Lösche Zahnarzttermin ")
                         (js "lösche") (js "zahnarzttermin ")
                         (js "zahnarzttermin") (initial true) H1 H2) H3)).
Defined.

(** C8. With the recognition callbacks installed, the recognition result
    "lösche zahnarzttermin" makes the component stop recognition, emit
    [userWantsDoDeleteEvent("zahnarzttermin")] exactly once and restart
    recognition in the same turn, without waiting for any event of the
    synthesizer. *)
Theorem delete_command_dispatch (supported : bool) (events : list Event) :
  installed (session supported events) = true ->
  calls (step (SpeechRecognitionResultAvailable (js "lösche zahnarzttermin"))
           (session supported events))
  = calls (session supported events)
    ++ [ StopRecognition;
         ConsoleLog (js "user wants to delete event zahnarzttermin");
         UserWantsDoDeleteEvent (js "zahnarzttermin") ]
    ++ restartCalls.
Proof.
  intros Hi.
  rewrite step_recognition_result by (auto using consistent_session).
  unfold speechRecognitionResultAvailable. cbv zeta.
  replace (classify (toLowerCase (js "lösche zahnarzttermin")))
    with (Delete (js "zahnarzttermin")) by (vm_compute; reflexivity).
  unfold exec. rewrite says_delete. reflexivity.
Qed.

Lemma delete_command_dispatch_witness :
  installed (session true [SpeechRecognitionStarted]) = true
  /\ calls (step (SpeechRecognitionResultAvailable (js "lösche zahnarzttermin"))
              (session true [SpeechRecognitionStarted]))
     = calls (session true [SpeechRecognitionStarted])
       ++ [ StopRecognition;
            ConsoleLog (js "user wants to delete event zahnarzttermin");
            UserWantsDoDeleteEvent (js "zahnarzttermin") ]
       ++ restartCalls.
Proof.
  split; [reflexivity|].
  apply (delete_command_dispatch true [SpeechRecognitionStarted]).
  reflexivity.
Defined.

(** C6. In every state the component reaches, two calls of
    [restartSpeechRecognition] in a row leave one set of recognition
    callbacks, the four of the second call, and a recognition result that
    arrives next is handled once, by the one result callback of that set. *)
Theorem restart_twice_one_generation (supported : bool) (events : list Event)
  (data : jsstring) :
  let w := session supported events in
  let w2 := exec restartSpeechRecognition (exec restartSpeechRecognition w) in
  currentSpeechRecognitionServiceSubscriptions w2
  = generation (4 + nextSubscription w)
  /\ filter isRecognitionHandler (subscriptions w2)
     = generation (4 + nextSubscription w)
  /\ filter (responds (SpeechRecognitionResultAvailable data)) (subscriptions w2)
     = [mkSubscription (4 + nextSubscription w) OnSpeechRecognitionResultAvailable]
  /\ step (SpeechRecognitionResultAvailable data) w2
     = exec (speechRecognitionResultAvailable data) w2.
Proof.
  intros w w2.
  assert (Hc : Consistent w2).
  { apply consistent_restartSpeechRecognition,
      consistent_restartSpeechRecognition, consistent_session. }
  assert (Hr : currentSpeechRecognitionServiceSubscriptions w2
               = generation (4 + nextSubscription w)).
  { unfold w2. now rewrite !restartSpeechRecognition_exec. }
  split; [exact Hr | split; [|split]].
  - now rewrite (remembered Hc).
  - rewrite responders_recognition, Hr; [reflexivity | exact Hc |].
    intros s. unfold responds, react, isRecognitionHandler.
    destruct (handler s); congruence.
  - apply step_recognition_result; [exact Hc|].
    unfold installed. now rewrite Hr.
Qed.

(** C9. Whenever the voice list is updated, [availableVoices] becomes the
    list of the voices of the update whose [lang] is "de-DE", in the order
    of the update; nothing else of the component changes and no voice of
    another locale is kept. *)
Theorem voice_list_filtered (supported : bool) (events : list Event)
  (allVoices : list Voice) :
  let w := session supported events in
  let w' := step (VoiceListUpdated allVoices) w in
  w' = setAvailableVoices (filter germanVoice allVoices) w
  /\ availableVoices w' = filter germanVoice allVoices
  /\ (forall voice, In voice (availableVoices w') <->
                    In voice allVoices /\ lang voice = js "de-DE").
Proof.
  intros w w'.
  assert (E : w' = setAvailableVoices (filter germanVoice allVoices) w).
  { unfold w'. rewrite step_voice_list_updated by apply consistent_session.
    reflexivity. }
  split; [exact E | rewrite E; split; [reflexivity|]].
  intros voice. cbn [availableVoices setAvailableVoices].
  rewrite filter_In. unfold germanVoice, jsstring_eqb.
  destruct (list_eq_dec N.eq_dec (lang voice) (js "de-DE")); intuition congruence.
Qed.

(** C10. What the appointment creator hands back, when it is truthy, counts
    as a created appointment exactly when its [date], [header] and
    [content] are all truthy: then the event is emitted and the success
    utterance spoken. Every other truthy result, an appointment with an
    empty header or content among them, is taken for an error message: its
    [data] is displayed in the snack bar and spoken. *)
Theorem dialog_result_discrimination (supported : bool) (events : list Event)
  (d i : nat) (result : JsValue) :
  isSubscribed (mkSubscription i (CreatorDialogAfterClosed d))
    (session supported events) = true ->
  truthy result = true ->
  (isPathwayEvent result = true <->
   truthy (getProperty result (js "date")) = true
   /\ truthy (getProperty result (js "header")) = true
   /\ truthy (getProperty result (js "content")) = true)
  /\ calls (step (DialogClosed d result) (session supported events))
     = calls (session supported events)
       ++ (if isPathwayEvent result then
             [NewPathwayEventCreated result; SpeakUtterance successUtterance]
           else
             [ SnackBarOpen (getProperty result (js "data"));
               SpeakUtterance (getProperty result (js "data")) ]).
Proof.
  intros Hs Ht. split.
  - unfold isPathwayEvent.
    destruct (truthy (getProperty result (js "date"))),
             (truthy (getProperty result (js "header"))),
             (truthy (getProperty result (js "content")));
      cbn; intuition congruence.
  - rewrite (step_creator_dialog_closed d i result) by
        (auto using consistent_session).
    rewrite calls_complete. unfold exec.
    rewrite says_creatorDialogAfterClosed, Ht. reflexivity.
Qed.

Lemma dialog_result_discrimination_witness :
  isSubscribed (mkSubscription 6 (CreatorDialogAfterClosed 0))
    (session true [SpeechRecognitionResultAvailable (js "neuer Termin")]) = true
  /\ truthy (JsObject [ (js "date", JsString (js "2022-05-17"));
                        (js "header", JsString []);
                        (js "content", JsString (js "Kontrolle")) ]) = true
  /\ calls (step (DialogClosed 0
                    (JsObject [ (js "date", JsString (js "2022-05-17"));
                                (js "header", JsString []);
                                (js "content", JsString (js "Kontrolle")) ]))
              (session true [SpeechRecognitionResultAvailable (js "neuer Termin")]))
     = calls (session true [SpeechRecognitionResultAvailable (js "neuer Termin")])
       ++ [SnackBarOpen JsUndefined; SpeakUtterance JsUndefined].
Proof.
  split; [reflexivity | split; [reflexivity|]].
  apply (dialog_result_discrimination true
           [SpeechRecognitionResultAvailable (js "neuer Termin")] 0 6
           (JsObject [ (js "date", JsString (js "2022-05-17"));
                       (js "header", JsString []);
                       (js "content", JsString (js "Kontrolle")) ]));
    reflexivity.
Defined.

(** C7. When [initRecognition] reports that recognition is unavailable,
    [ngOnInit] displays one notice, does not call [startRecognition] and
    installs no recognition callback. Unless the user presses the
    microphone button, recognition is never started afterwards: whatever
    else happens, the component does not listen, makes no call of
    [startRecognition] and displays nothing more. *)
Theorem unavailable_recognition_stays_idle (events : list Event) :
  forallb (fun e => negb (userActivates e)) events = true ->
  let w0 := exec ngOnInit (initial false) in
  let w := session false events in
  calls w0
  = [ InitRecognition;
      ConsoleWarn
        (js "Speech recognition not available. Please use Google Chrome instead.");
      SnackBarOpen unavailableNotice ]
  /\ currentSpeechRecognitionServiceSubscriptions w0 = []
  /\ filter isRecognitionHandler (subscriptions w0) = []
  /\ ~ In StartRecognition (calls w)
  /\ filter isNotice (calls w) = [SnackBarOpen unavailableNotice]
  /\ pathIsListening w = false
  /\ currentSpeechRecognitionServiceSubscriptions w = []
  /\ suspended w.
Proof.
  intros Hq w0 w.
  assert (Hh : forall s, In s (subscriptions w0) -> harmless (handler s) = true).
  { intros s [<- | [<- | []]]; reflexivity. }
  pose proof (calm_run_harmless events w0 Hq Hh) as Hcalm.
  change (run events w0) with w in Hcalm.
  destruct (calm_calls Hcalm) as (l & El & Ql).
  destruct (quiet_calls_no_start l Ql) as [Hns Hnn].
  repeat split; try reflexivity.
  - rewrite El. intros Hin. apply in_app_or in Hin as [Hin | Hin]; [|auto].
    cbn in Hin. intuition discriminate.
  - rewrite El, filter_app, Hnn. reflexivity.
  - now rewrite (calm_listening Hcalm).
  - now rewrite (calm_remembered Hcalm).
  - apply (calm_suspended w0 w Hcalm).
    intros s [<- | [<- | []]]; reflexivity.
Qed.

Lemma unavailable_recognition_stays_idle_witness :
  forallb (fun e => negb (userActivates e))
    [ PathwayEventDeleted false; SpeechStart; SpeechEnd;
      SpeechRecognitionError (js "not-allowed"); DeactivateVoiceControl ] = true
  /\ ~ In StartRecognition
       (calls (session false
                 [ PathwayEventDeleted false; SpeechStart; SpeechEnd;
                   SpeechRecognitionError (js "not-allowed");
                   DeactivateVoiceControl ])).
Proof.
  split; [reflexivity|].
  apply (unavailable_recognition_stays_idle
           [ PathwayEventDeleted false; SpeechStart; SpeechEnd;
             SpeechRecognitionError (js "not-allowed"); DeactivateVoiceControl ]).
  reflexivity.
Defined.

(** C5, as the claim states it, fails. The appointment creator closes with
    a created appointment, the notification is emitted and the success
    utterance is spoken. While the utterance is in progress the user
    presses the microphone button, which is enabled because the component
    does not listen: the session is restarted before the speech-end event,
    and the speech-end event restarts it a second time. *)
Lemma restart_before_speech_end :
  let result := JsObject [ (js "date", JsString (js "2022-05-17"));
                           (js "header", JsString (js "Zahnarzt"));
                           (js "content", JsString (js "Kontrolle")) ] in
  let w1 := step (SpeechRecognitionResultAvailable (js "Neuer Termin"))
              (session true [SpeechRecognitionStarted]) in
  let w2 := step (DialogClosed 0 result) w1 in
  let w3 := step SpeechStart w2 in
  let w4 := step ActivateVoiceControl w3 in
  isPathwayEvent result = true
  /\ calls w2
     = calls w1 ++ [NewPathwayEventCreated result; SpeakUtterance successUtterance]
  /\ pathIsListening w3 = false
  /\ speaking [SpeechStart; ActivateVoiceControl] = true
  /\ calls w4 = calls w2 ++ restartCalls
  /\ calls (step SpeechEnd w4) = calls w4 ++ restartCalls.
Proof.
  intros result w1 w2 w3 w4.
  split; [reflexivity|].
  split; [vm_compute; reflexivity|].
  split; [vm_compute; reflexivity|].
  split; [reflexivity|].
  split; vm_compute; reflexivity.
Qed.

(** C5, amended. The command opens the dialog; until the dialog closes
    anything may happen. When it closes with a created appointment,
    [newPathwayEventCreated] is emitted and the success utterance is
    spoken, and that is all the closing does. The callback it leaves behind
    stays subscribed whatever arrives, and the next speech-end event runs
    the whole restart, once for every callback that waits for speech-end,
    which leaves a new set of recognition callbacks installed. From the
    closing to that speech-end event [startRecognition] is not called, as
    long as only quiet events arrive after the command. When the dialog
    closes without a result, the session is restarted at once and nothing
    is spoken. *)
Theorem appointment_creation_round_trip (supported : bool)
  (events : list Event) (data : jsstring) (during after : list Event)
  (result : JsValue) :
  installed (session supported events) = true ->
  classify (toLowerCase data) = CreateAppointment ->
  forallb (fun e => negb (closesDialog (nextDialog (session supported events)) e))
    during = true ->
  forallb (fun e => negb (isSpeechEnd e)) after = true ->
  let w0 := session supported events in
  let w1 := run during (step (SpeechRecognitionResultAvailable data) w0) in
  let w2 := step (DialogClosed (nextDialog w0) result) w1 in
  let w3 := run after w2 in
  let w4 := step SpeechEnd w3 in
  (isPathwayEvent result = true ->
   calls w2
   = calls w1 ++ [NewPathwayEventCreated result; SpeakUtterance successUtterance]
   /\ In (mkSubscription (nextSubscription w1) OnSpeechEndAfterCreatorDialog)
        (subscriptions w3)
   /\ calls w4
      = calls w3
        ++ List.concat (map (fun _ => restartCalls)
                     (filter (responds SpeechEnd) (subscriptions w3)))
   /\ (exists k, calls w4 = calls w3 ++ List.concat (repeat restartCalls (S k)))
   /\ (exists n, nextSubscription w3 <= n
                 /\ filter isRecognitionHandler (subscriptions w4) = generation n)
   /\ (forallb quiet during = true -> forallb quiet after = true ->
       exists l, calls w3 = calls w2 ++ l /\ ~ In StartRecognition l))
  /\ (truthy result = false ->
      calls w2 = calls w1 ++ restartCalls
      /\ filter isRecognitionHandler (subscriptions w2)
         = generation (nextSubscription w1)).
Proof.
  intros Hi Hc Hd Ha w0 w1 w2 w3 w4.
  pose proof (consistent_session supported events) as Hc0. fold w0 in Hc0.
  set (wc := step (SpeechRecognitionResultAvailable data) w0).
  set (s := mkSubscription (nextSubscription w0)
              (CreatorDialogAfterClosed (nextDialog w0))).
  assert (Ec : wc = exec (stopRecognition ;; caseBody CreateAppointment) w0)
    by (now apply create_command_step).
  assert (Hcc : Consistent wc) by (now apply consistent_step).
  assert (Hc1 : Consistent w1) by (now apply consistent_run).
  assert (Hc2 : Consistent w2) by (now apply consistent_step).
  assert (Hn1 : Numbered w1)
    by (apply numbered_run, numbered_step, numbered_session).
  assert (Hin1 : In s (subscriptions w1)).
  { apply (kept_run s eq_refl during wc).
    - rewrite <- Hd. apply forallb_pointwise. intros e.
      unfold s. now rewrite responds_creator.
    - apply kept_consistent; [exact Hcc|].
      rewrite Ec, create_command_exec. cbn [subscriptions].
      apply in_or_app. right. now left. }
  assert (E2 : w2 = complete (nextDialog w0)
                      (exec (creatorDialogAfterClosed result) w1)).
  { apply (step_creator_dialog_closed (nextDialog w0) (nextSubscription w0));
      [exact Hc1 | now apply existsb_same_In]. }
  assert (Ecalls : calls w2
                   = calls w1
                     ++ (if truthy result then
                           if isPathwayEvent result then
                             [ NewPathwayEventCreated result;
                               SpeakUtterance successUtterance ]
                           else
                             [ SnackBarOpen (getProperty result (js "data"));
                               SpeakUtterance (getProperty result (js "data")) ]
                         else restartCalls)).
  { rewrite E2, calls_complete. unfold exec.
    apply says_creatorDialogAfterClosed. }
  split.
  - intros Hp. pose proof (isPathwayEvent_truthy result Hp) as Ht.
    rewrite Ht, Hp in Ecalls. split; [exact Ecalls|].
    set (o := mkSubscription (nextSubscription w1) OnSpeechEndAfterCreatorDialog).
    assert (Hin2 : In o (subscriptions w2)).
    { destruct (creatorDialogAfterClosed_subscriptions result w1 Ht)
        as (Es & _ & _).
      rewrite E2. cbn [complete subscriptions setSubscriptions].
      rewrite Es. apply filter_In. split; [|reflexivity].
      apply in_or_app. right. now left. }
    assert (Hin3 : In o (subscriptions w3)).
    { apply (kept_run o eq_refl after w2).
      - rewrite <- Ha. apply forallb_pointwise. intros e.
        now rewrite (responds_speech_end o e (or_introl eq_refl)).
      - now apply kept_consistent. }
    assert (Hc3 : Consistent w3) by (now apply consistent_run).
    assert (Hn3 : Numbered w3) by (now apply numbered_run, numbered_step).
    split; [exact Hin3 | split; [|split; [|split]]].
    + exact (speech_end_log w3 Hc3 Hn3).
    + unfold w4. rewrite (speech_end_log w3 Hc3 Hn3), restarts_repeat.
      assert (Hf : In o (filter (responds SpeechEnd) (subscriptions w3)))
        by (apply filter_In; now split).
      destruct (filter (responds SpeechEnd) (subscriptions w3)) as [|x l];
        [destruct Hf|].
      now exists (List.length l).
    + now apply (speech_end_generation w3 o).
    + intros Hqd Hqa.
      destruct (creation_dialog_open supported events data Hi Hc during Hqd)
        as (_ & Hs1 & _ & _ & _).
      destruct (creation_dialog_closed w1 (nextDialog w0) (nextSubscription w0)
                  result Hc1 Hs1 Hin1 after Ht Hqa) as (_ & (l & El & Ql) & _).
      exists l. split; [exact El | apply (quiet_calls_no_start l Ql)].
  - intros Hf. rewrite Hf in Ecalls. split; [exact Ecalls|].
    rewrite (remembered Hc2), E2.
    exact (cancelled_dialog_generation (nextDialog w0) result w1 Hf).
Qed.

Lemma appointment_creation_round_trip_witness :
  let result := JsObject [ (js "date", JsString (js "2022-05-17"));
                           (js "header", JsString (js "Zahnarzt"));
                           (js "content", JsString (js "Kontrolle")) ] in
  let w0 := session true [SpeechRecognitionStarted] in
  let w1 := run [SpeechRecognitionEnded]
              (step (SpeechRecognitionResultAvailable (js "Neuer Termin")) w0) in
  let w2 := step (DialogClosed 0 result) w1 in
  let w3 := run [SpeechStart; DeactivateVoiceControl] w2 in
  installed w0 = true
  /\ classify (toLowerCase (js "Neuer Termin")) = CreateAppointment
  /\ isPathwayEvent result = true
  /\ calls w2
     = calls w1 ++ [NewPathwayEventCreated result; SpeakUtterance successUtterance]
  /\ (exists k, calls (step SpeechEnd w3)
                = calls w3 ++ List.concat (repeat restartCalls (S k)))
  /\ (exists l, calls w3 = calls w2 ++ l /\ ~ In StartRecognition l).
Proof.
  intros result w0 w1 w2 w3.
  assert (Hi : installed w0 = true) by reflexivity.
  assert (Hc : classify (toLowerCase (js "Neuer Termin")) = CreateAppointment)
    by reflexivity.
  assert (Hp : isPathwayEvent result = true) by reflexivity.
  split; [exact Hi | split; [exact Hc | split; [exact Hp|]]].
  destruct (proj1 (appointment_creation_round_trip true [SpeechRecognitionStarted]
                     (js "Neuer Termin") [SpeechRecognitionEnded]
                     [SpeechStart; DeactivateVoiceControl] result
                     Hi Hc eq_refl eq_refl) Hp)
    as (H1 & _ & _ & H3 & _ & H5).
  split; [exact H1 | split; [exact H3 | exact (H5 eq_refl eq_refl)]].
Defined.




(** C2, as the claim states it, fails. The one-shot callback the delete
    command leaves behind is not cancelled by a restart, and when the
    speech-end event fires afterwards it restarts recognition. *)
Lemma cancelled_one_shot_still_restarts :
  let w := session true
             [SpeechRecognitionResultAvailable (js "lösche zahnarzttermin")] in
  let oneShot := mkSubscription 10 OnSpeechEndAfterDeleteCommand in
  isSubscribed oneShot w = true
  /\ let w' := step (SpeechRecognitionError (js "no-speech")) w in
     calls w' = calls w ++ [ConsoleWarn (js "no-speech")] ++ restartCalls
     /\ isSubscribed oneShot w' = true
     /\ calls (step SpeechEnd w') = calls w' ++ restartCalls.
Proof.
  intros w oneShot. split; [vm_compute; reflexivity|].
  intros w'.
  split; [vm_compute; reflexivity | split; vm_compute; reflexivity].
Qed.

(** C2, amended. [restartSpeechRecognition] cancels the recognition
    callbacks of the current setup, installs four new ones and cancels
    nothing else: the one-shot callbacks are not among the remembered
    subscriptions and stay subscribed; the goodbye command cancels nothing
    at all. A one-shot callback that is called, whenever that is,
    unsubscribes itself and then runs the whole restart (the two that wait
    for speech-end) or stops recognition (the one that waits for
    speech-start). So after a restart the next speech-end event restarts
    recognition once for every callback that was waiting for it before the
    restart, and the next speech-start event stops it once for every
    callback that was waiting for that. *)
Theorem restart_cancels_recognition_callbacks_only (supported : bool)
  (events : list Event) :
  let w := session supported events in
  let w' := exec restartSpeechRecognition w in
  filter (fun s => negb (isRecognitionHandler s)) (subscriptions w')
  = filter (fun s => negb (isRecognitionHandler s)) (subscriptions w)
  /\ filter isRecognitionHandler (subscriptions w')
     = generation (nextSubscription w)
  /\ (forall s, isOneShot (handler s) = true ->
                In s (subscriptions w) -> In s (subscriptions w'))
  /\ (forall data, classify (toLowerCase data) = EndSession ->
        subscriptions (exec (speechRecognitionResultAvailable data) w)
        = subscriptions w)
  /\ (forall s e body,
        isOneShot (handler s) = true -> react s e = Some body ->
        says body (match handler s with
                   | OnSpeechStartAfterDeletion => [StopRecognition]
                   | _ => restartCalls
                   end)
        /\ forall v, ~ In s (subscriptions (exec body v)))
  /\ calls (step SpeechEnd w')
     = calls w'
       ++ List.concat (map (fun _ => restartCalls)
                    (filter (responds SpeechEnd) (subscriptions w)))
  /\ calls (step SpeechStart w')
     = calls w'
       ++ map (fun _ => StopRecognition)
            (filter (responds SpeechStart) (subscriptions w)).
Proof.
  intros w w'.
  pose proof (consistent_session supported events) as Hc. fold w in Hc.
  assert (Hc' : Consistent w')
    by (apply (consistent_step ActivateVoiceControl w Hc)).
  assert (Hn' : Numbered w')
    by (apply (numbered_step ActivateVoiceControl w), numbered_session).
  assert (Es : subscriptions w'
               = removeAll (filter isRecognitionHandler (subscriptions w))
                   (subscriptions w)
                 ++ generation (nextSubscription w)).
  { unfold w'. rewrite restartSpeechRecognition_exec. cbn [subscriptions].
    now rewrite (remembered Hc). }
  assert (Ek : filter (fun s => negb (isRecognitionHandler s)) (subscriptions w')
               = filter (fun s => negb (isRecognitionHandler s)) (subscriptions w)).
  { rewrite Es, filter_app, removeAll_other.
    - cbn. now rewrite app_nil_r.
    - intros x. now destruct (isRecognitionHandler x). }
  split; [exact Ek | split; [|split; [|split; [|split; [|split]]]]].
  - rewrite Es, filter_app, removeAll_recognition. reflexivity.
  - intros s Hs Hin.
    assert (Hn : negb (isRecognitionHandler s) = true).
    { unfold isRecognitionHandler. destruct (handler s); try discriminate;
        reflexivity. }
    assert (Hf : In s (filter (fun s => negb (isRecognitionHandler s))
                         (subscriptions w')))
      by (rewrite Ek; apply filter_In; now split).
    now apply filter_In in Hf.
  - intros data Hd. unfold speechRecognitionResultAvailable.
    now rewrite Hd.
  - intros s e body Hs Hr.
    unfold react in Hr.
    destruct (handler s) eqn:Hh, e; try discriminate; injection Hr as <-.
    + split.
      * apply (says_bind _ _ [] [StopRecognition]);
          [apply says_unsubscribe | intros ?; apply says_call].
      * intros v Hin. cbn in Hin. apply filter_In in Hin as [_ Hin].
        now rewrite sameSubscription_refl in Hin.
    + split.
      * apply (says_bind _ _ [] restartCalls);
          [apply says_unsubscribe
          | intros ?; apply says_restartSpeechRecognition].
      * intros v Hin. rewrite exec_seq, restartSpeechRecognition_exec in Hin.
        cbn [subscriptions] in Hin. apply in_app_or in Hin as [Hin | Hin].
        -- apply removeAll_In in Hin as [Hin _]. cbn in Hin.
           apply filter_In in Hin as [_ Hin].
           now rewrite sameSubscription_refl in Hin.
        -- cbn in Hin. destruct s as [k h]. cbn in Hh. subst h.
           intuition discriminate.
    + split.
      * apply (says_bind _ _ [] restartCalls);
          [apply says_unsubscribe
          | intros ?; apply says_restartSpeechRecognition].
      * intros v Hin. rewrite exec_seq, restartSpeechRecognition_exec in Hin.
        cbn [subscriptions] in Hin. apply in_app_or in Hin as [Hin | Hin].
        -- apply removeAll_In in Hin as [Hin _]. cbn in Hin.
           apply filter_In in Hin as [_ Hin].
           now rewrite sameSubscription_refl in Hin.
        -- cbn in Hin. destruct s as [k h]. cbn in Hh. subst h.
           intuition discriminate.
  - rewrite (speech_end_log w' Hc' Hn'). unfold w'.
    now rewrite (restart_keeps_responders SpeechEnd w Hc (or_intror eq_refl)).
  - rewrite (speech_start_log w' Hn'). unfold w'.
    now rewrite (restart_keeps_responders SpeechStart w Hc (or_introl eq_refl)).
Qed.

Lemma restart_cancels_recognition_callbacks_only_witness :
  let w := session true
             [SpeechRecognitionResultAvailable (js "lösche zahnarzttermin")] in
  let oneShot := mkSubscription 10 OnSpeechEndAfterDeleteCommand in
  isOneShot (handler oneShot) = true
  /\ In oneShot (subscriptions w)
  /\ In oneShot (subscriptions (exec restartSpeechRecognition w)).
Proof.
  intros w oneShot.
  assert (H1 : isOneShot (handler oneShot) = true) by reflexivity.
  assert (H2 : In oneShot (subscriptions w))
    by (apply existsb_same_In; reflexivity).
  split; [exact H1 | split; [exact H2|]].
  exact (proj1 (proj2 (proj2 (restart_cancels_recognition_callbacks_only true
           [SpeechRecognitionResultAvailable (js "lösche zahnarzttermin")])))
           oneShot H1 H2).
Defined.


(* ================================================================== *)
(** * Further properties of the component *)
(* ================================================================== *)

(** X1. Whatever the user says during a session, a name that the component
    emits with [userWantsDoDeleteEvent] or [userWantsToOpenEvent] is never
    empty, is in lower case and has no white space at its start or end. *)
Theorem emitted_names_well_formed (supported : bool) (events : list Event)
  (n : jsstring) :
  In (UserWantsDoDeleteEvent n) (calls (session supported events))
  \/ In (UserWantsToOpenEvent n) (calls (session supported events)) ->
  nonEmpty n = true /\ toLowerCase n = n /\ trim n = n.
Proof.
  intros H. destruct (logok_session events supported) as [Hl _].
  destruct H as [H | H];
    exact (proj1 (Forall_forall _ _) Hl _ H).
Qed.

Lemma emitted_names_well_formed_witness :
  In (UserWantsToOpenEvent (js "škoda werkstatt morgen"))
     (calls (session true
               [SpeechRecognitionResultAvailable (js "Zeige   ŠKODA Werkstatt MORGEN  ")]))
  /\ toLowerCase (js "škoda werkstatt morgen") = js "škoda werkstatt morgen"
  /\ trim (js "škoda werkstatt morgen") = js "škoda werkstatt morgen".
Proof.
  assert (H : In (UserWantsToOpenEvent (js "škoda werkstatt morgen"))
                (calls (session true
                   [SpeechRecognitionResultAvailable
                      (js "Zeige   ŠKODA Werkstatt MORGEN  ")]))).
  { vm_compute. do 4 right. left. reflexivity. }
  split; [exact H|].
  exact (proj2 (emitted_names_well_formed true
                  [SpeechRecognitionResultAvailable
                     (js "Zeige   ŠKODA Werkstatt MORGEN  ")]
                  (js "škoda werkstatt morgen") (or_intror H))).
Defined.

(** X2. [setVoice] is only ever called with a voice whose [lang] is "de-DE"
    and that the platform reported in a voice list update of the session. *)
Theorem selected_voices_are_german (supported : bool) (events : list Event)
  (voice : Voice) :
  In (SetVoice voice) (calls (session supported events)) ->
  lang voice = js "de-DE"
  /\ exists allVoices,
       In (VoiceListUpdated allVoices) events /\ In voice allVoices.
Proof.
  intros H. destruct (logok_session events supported) as [Hl _].
  exact (proj1 (Forall_forall _ _) Hl _ H).
Qed.

Lemma selected_voices_are_german_witness :
  let anna := mkVoice (js "urn:anna") (js "Anna") (js "de-DE") true true in
  let alex := mkVoice (js "urn:alex") (js "Alex") (js "en-US") true false in
  let events := [ VoiceListUpdated [alex; anna]; VoiceChanged (js "urn:alex");
                  VoiceChanged (js "urn:anna") ] in
  In (SetVoice anna) (calls (session true events))
  /\ lang anna = js "de-DE".
Proof.
  intros anna alex events.
  assert (H : In (SetVoice anna) (calls (session true events))).
  { vm_compute. do 2 right. left. reflexivity. }
  split; [exact H|].
  exact (proj1 (selected_voices_are_german true events anna H)).
Defined.

(** X3. At every moment of a session [availableVoices] holds the "de-DE"
    voices of the latest voice list update, in its order, and is empty
    before the first update: no command, restart, dialog or speech event
    changes it. *)
Theorem voice_list_is_latest_update (supported : bool) (events : list Event) :
  availableVoices (session supported events)
  = filter germanVoice (lastVoiceList events).
Proof.
  unfold session, lastVoiceList. apply voices_run.
  - apply consistent_ngOnInit.
  - now destruct supported.
Qed.

(** X4. Choosing a voice URI that none of the "de-DE" voices of the latest
    voice list update carries changes nothing: no call is made, not even
    when the platform knows a voice of another locale under that URI. *)
Theorem unknown_voice_is_ignored (supported : bool) (events : list Event)
  (chosenVoiceURI : jsstring) :
  forallb (fun voice => negb (jsstring_eqb (voiceURI voice) chosenVoiceURI))
    (filter germanVoice (lastVoiceList events)) = true ->
  step (VoiceChanged chosenVoiceURI) (session supported events)
  = session supported events.
Proof.
  intros H. cbn [step]. unfold exec, onVoiceChanged.
  assert (E : availableVoices (session supported events)
              = filter germanVoice (lastVoiceList events)).
  { unfold session, lastVoiceList. apply voices_run;
      [apply consistent_ngOnInit | now destruct supported]. }
  rewrite E. now rewrite (find_none_forallb _ _ H).
Qed.

Lemma unknown_voice_is_ignored_witness :
  let anna := mkVoice (js "urn:anna") (js "Anna") (js "de-DE") true true in
  let alex := mkVoice (js "urn:alex") (js "Alex") (js "en-US") true false in
  let events := [VoiceListUpdated [alex; anna]; ActivateVoiceControl] in
  forallb (fun voice => negb (jsstring_eqb (voiceURI voice) (js "urn:alex")))
    (filter germanVoice (lastVoiceList events)) = true
  /\ step (VoiceChanged (js "urn:alex")) (session true events)
     = session true events.
Proof.
  intros anna alex events.
  split; [vm_compute; reflexivity|].
  apply (unknown_voice_is_ignored true events (js "urn:alex")).
  vm_compute. reflexivity.
Defined.

(** X5. The listening flag has three writers only. It turns from false to
    true on no event but recognition-started, and from true to false on no
    event but recognition-ended and the command that opens the appointment
    creator; pressing the microphone button, a restart, an error or a
    speech event leave it as it is. *)
Theorem listening_flag_writers (e : Event) (w : World) :
  (pathIsListening w = false -> pathIsListening (step e w) = true ->
   e = SpeechRecognitionStarted)
  /\ (pathIsListening w = true -> pathIsListening (step e w) = false ->
      e = SpeechRecognitionEnded
      \/ exists data, e = SpeechRecognitionResultAvailable data
                      /\ classify (toLowerCase data) = CreateAppointment).
Proof.
  assert (Hstay : forall b ev,
             eventOk (fieldAllowance (fun b' => b' = b) (fun _ => True)) ev ->
             pathIsListening w = b -> pathIsListening (step ev w) = negb b ->
             False).
  { intros b ev Hok Hw Hs. rewrite (listening_frame b ev w Hok Hw) in Hs.
    now destruct b. }
  split; intros Hw Hs.
  - destruct e; try reflexivity; exfalso;
      apply (Hstay false _) in Hs; auto;
      (split; [|exact I || now cbn]); intros s _; cbn; auto.
    now destruct (classify (toLowerCase data)).
  - destruct e; try (left; reflexivity);
      try (exfalso; apply (Hstay true _) in Hs; auto;
           (split; [|exact I || now cbn]); intros s _; cbn; now auto).
    destruct (classify (toLowerCase data)) eqn:E;
      try (right; now exists data); exfalso;
      apply (Hstay true _) in Hs; auto;
      (split; [|exact I]); intros s _; cbn; now rewrite E.
Qed.

Lemma listening_flag_writers_witness :
  pathIsListening (session true [SpeechRecognitionStarted]) = true
  /\ pathIsListening
       (step (SpeechRecognitionResultAvailable (js "neuer termin"))
          (session true [SpeechRecognitionStarted])) = false
  /\ (SpeechRecognitionResultAvailable (js "neuer termin")
      = SpeechRecognitionEnded
      \/ exists data,
           SpeechRecognitionResultAvailable (js "neuer termin")
           = SpeechRecognitionResultAvailable data
           /\ classify (toLowerCase data) = CreateAppointment).
Proof.
  assert (H1 : pathIsListening (session true [SpeechRecognitionStarted]) = true)
    by (vm_compute; reflexivity).
  assert (H2 : pathIsListening
                 (step (SpeechRecognitionResultAvailable (js "neuer termin"))
                    (session true [SpeechRecognitionStarted])) = false)
    by (vm_compute; reflexivity).
  split; [exact H1 | split; [exact H2|]].
  exact (proj2 (listening_flag_writers
                  (SpeechRecognitionResultAvailable (js "neuer termin"))
                  (session true [SpeechRecognitionStarted])) H1 H2).
Defined.


(** X6. A recognition error that arrives while the recognition callbacks
    are installed is logged with [console.warn] and answered by a restart:
    recognition is started again and a new set of callbacks is installed,
    whatever the error was. *)
Theorem recognition_error_restarts (supported : bool) (events : list Event)
  (data : jsstring) :
  installed (session supported events) = true ->
  let w := session supported events in
  let w' := step (SpeechRecognitionError data) w in
  calls w' = calls w ++ ConsoleWarn data :: restartCalls
  /\ currentSpeechRecognitionServiceSubscriptions w'
     = generation (nextSubscription w)
  /\ pathIsListening w' = pathIsListening w.
Proof.
  intros Hi w w'.
  assert (E : w' = exec restartSpeechRecognition
                     (exec (call (ConsoleWarn data)) w)).
  { unfold w', w. rewrite step_error by apply consistent_session.
    now rewrite Hi. }
  rewrite E, restartSpeechRecognition_exec. cbn.
  now rewrite <- app_assoc.
Qed.

Lemma recognition_error_restarts_witness :
  installed (session true [SpeechRecognitionStarted]) = true
  /\ calls (step (SpeechRecognitionError (js "no-speech"))
              (session true [SpeechRecognitionStarted]))
     = calls (session true [SpeechRecognitionStarted])
       ++ ConsoleWarn (js "no-speech") :: restartCalls.
Proof.
  split; [vm_compute; reflexivity|].
  apply (recognition_error_restarts true [SpeechRecognitionStarted]
           (js "no-speech")).
  vm_compute. reflexivity.
Defined.

(** X7. The four recognition events reach the component through the
    callbacks of the current setup only. While these are installed, started
    and ended set and clear the listening flag, an error restarts and a
    result runs the command switch; while they are cancelled (the
    appointment creator is open, or recognition was unavailable) each of
    the four events leaves the component exactly as it was. *)
Theorem recognition_events_need_callbacks (supported : bool)
  (events : list Event) (data : jsstring) :
  let w := session supported events in
  step SpeechRecognitionStarted w
  = (if installed w then setPathIsListening true w else w)
  /\ step SpeechRecognitionEnded w
     = (if installed w then setPathIsListening false w else w)
  /\ step (SpeechRecognitionError data) w
     = (if installed w
        then exec (call (ConsoleWarn data) ;; restartSpeechRecognition) w
        else w)
  /\ step (SpeechRecognitionResultAvailable data) w
     = (if installed w
        then exec (speechRecognitionResultAvailable data) w
        else w).
Proof.
  intros w. pose proof (consistent_session supported events) as Hc.
  split; [now apply step_started|].
  split; [now apply step_ended|].
  split; [now apply step_error | now apply step_result].
Qed.

(** X8. A callback that is not one of the four recognition callbacks stays
    subscribed until an event arrives that it listens to: neither a
    restart, nor a command, nor the closing of another dialog, nor another
    speech event removes it. *)
Theorem callbacks_wait_for_their_event (supported : bool)
  (events later : list Event) (s : Subscription) :
  isSubscribed s (session supported events) = true ->
  isRecognitionHandler s = false ->
  forallb (fun e => negb (responds e s)) later = true ->
  isSubscribed s (run later (session supported events)) = true.
Proof.
  intros Hs Hr Hl. apply existsb_same_In.
  apply (kept_run s Hr later (session supported events) Hl).
  apply kept_consistent; [apply consistent_session|].
  now apply existsb_same_In.
Qed.

Lemma callbacks_wait_for_their_event_witness :
  let s := mkSubscription 6 (HelpDialogAfterClosed 0) in
  let events := [SpeechRecognitionResultAvailable (js "Hilfe")] in
  let later := [ SpeechRecognitionError (js "aborted"); PathwayEventDeleted true;
                 SpeechStart; SpeechEnd; ActivateVoiceControl;
                 SpeechRecognitionResultAvailable (js "hilfe");
                 DialogClosed 1 JsUndefined ] in
  isSubscribed s (session true events) = true
  /\ isSubscribed s (run later (session true events)) = true.
Proof.
  intros s events later.
  split; [vm_compute; reflexivity|].
  apply (callbacks_wait_for_their_event true events later s);
    vm_compute; reflexivity.
Defined.

(** X9. The help command stops recognition and opens the help dialog
    without cancelling the recognition callbacks or touching the listening
    flag. Whatever happens while the dialog is open, closing it, with any
    result, restarts the session, and does nothing else. *)
Theorem help_round_trip (supported : bool) (events : list Event)
  (data : jsstring) (during : list Event) (result : JsValue) :
  installed (session supported events) = true ->
  classify (toLowerCase data) = Help ->
  forallb (fun e => negb (closesDialog (nextDialog (session supported events)) e))
    during = true ->
  let w0 := session supported events in
  let w1 := step (SpeechRecognitionResultAvailable data) w0 in
  let w2 := run during w1 in
  calls w1
  = calls w0
    ++ [StopRecognition;
        DialogOpen PathwayControlHelpDialogComponent (nextDialog w0)]
  /\ currentSpeechRecognitionServiceSubscriptions w1
     = currentSpeechRecognitionServiceSubscriptions w0
  /\ pathIsListening w1 = pathIsListening w0
  /\ calls (step (DialogClosed (nextDialog w0) result) w2)
     = calls w2 ++ restartCalls.
Proof.
  intros Hi Hc Hd w0 w1 w2.
  pose proof (consistent_session supported events) as Hc0. fold w0 in Hc0.
  assert (E1 : w1 = exec (stopRecognition ;; caseBody Help) w0).
  { unfold w1. rewrite step_recognition_result by assumption.
    unfold speechRecognitionResultAvailable. now rewrite Hc. }
  rewrite E1, help_command_exec.
  split; [reflexivity | split; [reflexivity | split; [reflexivity|]]].
  set (s := mkSubscription (nextSubscription w0)
              (HelpDialogAfterClosed (nextDialog w0))).
  assert (Hc2 : Consistent w2)
    by (unfold w2, w1; apply consistent_run, consistent_step, Hc0).
  assert (Hin : In s (subscriptions w2)).
  { apply (kept_run s eq_refl during w1).
    - rewrite <- Hd. apply forallb_pointwise. intros e.
      unfold s. now rewrite responds_help.
    - apply kept_consistent.
      + unfold w1. now apply consistent_step.
      + rewrite E1, help_command_exec. cbn [subscriptions].
        apply in_or_app. right. now left. }
  rewrite (step_help_dialog_closed (nextDialog w0) (nextSubscription w0)
             result w2 Hc2 Hin).
  rewrite calls_complete. apply says_restartSpeechRecognition.
Qed.

Lemma help_round_trip_witness :
  let events := [SpeechRecognitionStarted] in
  let during := [SpeechRecognitionEnded; SpeechRecognitionError (js "aborted");
                 SpeechRecognitionResultAvailable (js "lösche x")] in
  let w2 := run during
              (step (SpeechRecognitionResultAvailable (js "Hilfe bitte"))
                 (session true events)) in
  installed (session true events) = true
  /\ classify (toLowerCase (js "Hilfe bitte")) = Help
  /\ calls (step (DialogClosed 0 JsUndefined) w2) = calls w2 ++ restartCalls.
Proof.
  intros events during w2.
  split; [vm_compute; reflexivity | split; [vm_compute; reflexivity|]].
  apply (help_round_trip true events (js "Hilfe bitte") during JsUndefined);
    vm_compute; reflexivity.
Defined.

(** X10. After a delete command, with or without a name, the next
    speech-end event restarts recognition once more, whatever arrives
    before it: errors, restarts, other commands and dialogs do not cancel
    the callback the command left behind. *)
Theorem delete_command_restarts_at_speech_end (supported : bool)
  (events : list Event) (data n : jsstring) (later : list Event) :
  installed (session supported events) = true ->
  classify (toLowerCase data) = Delete n ->
  forallb (fun e => negb (isSpeechEnd e)) later = true ->
  let w := run later
             (step (SpeechRecognitionResultAvailable data)
                (session supported events)) in
  exists l, calls (step SpeechEnd w) = calls w ++ l /\ In StartRecognition l.
Proof.
  intros Hi Hc Hl w.
  pose proof (consistent_session supported events) as Hc0.
  apply (pending_restart
           (mkSubscription (4 + nextSubscription (session supported events))
              OnSpeechEndAfterDeleteCommand)); [| |now right|exact Hl].
  - now apply consistent_step.
  - rewrite step_recognition_result by assumption.
    unfold speechRecognitionResultAvailable. rewrite Hc.
    apply delete_command_waits.
Qed.

Lemma delete_command_restarts_at_speech_end_witness :
  let later := [ SpeechRecognitionError (js "network"); ActivateVoiceControl;
                 PathwayEventDeleted false; SpeechStart ] in
  let w := run later
             (step (SpeechRecognitionResultAvailable (js "lösche"))
                (session true [])) in
  installed (session true []) = true
  /\ classify (toLowerCase (js "lösche")) = Delete (js "e")
  /\ exists l, calls (step SpeechEnd w) = calls w ++ l /\ In StartRecognition l.
Proof.
  intros later w.
  split; [vm_compute; reflexivity | split; [vm_compute; reflexivity|]].
  apply (delete_command_restarts_at_speech_end true [] (js "lösche") (js "e")
           later); vm_compute; reflexivity.
Defined.

(** X11. When the appointment creator closes with a result that is not a
    created appointment, its [data] is displayed and spoken; for every
    truthy result, created appointment or not, the session is not restarted
    by the closing itself but by the next speech-end event, whatever
    arrives before it. *)
Theorem creator_result_restarts_at_speech_end (supported : bool)
  (events : list Event) (d i : nat) (result : JsValue) (later : list Event) :
  isSubscribed (mkSubscription i (CreatorDialogAfterClosed d))
    (session supported events) = true ->
  truthy result = true ->
  forallb (fun e => negb (isSpeechEnd e)) later = true ->
  let w0 := session supported events in
  let w1 := step (DialogClosed d result) w0 in
  let w2 := run later w1 in
  (isPathwayEvent result = false ->
   calls w1
   = calls w0
     ++ [ SnackBarOpen (getProperty result (js "data"));
          SpeakUtterance (getProperty result (js "data")) ])
  /\ (exists u, calls w1 = calls w0 ++ u /\ ~ In StartRecognition u)
  /\ (exists l, calls (step SpeechEnd w2) = calls w2 ++ l
                /\ In StartRecognition l).
Proof.
  intros Hs Ht Hl w0 w1 w2.
  pose proof (consistent_session supported events) as Hc0. fold w0 in Hc0.
  assert (E1 : w1 = complete d (exec (creatorDialogAfterClosed result) w0))
    by (now apply (step_creator_dialog_closed d i)).
  assert (Ec : calls w1
               = calls w0
                 ++ (if isPathwayEvent result then
                       [ NewPathwayEventCreated result;
                         SpeakUtterance successUtterance ]
                     else
                       [ SnackBarOpen (getProperty result (js "data"));
                         SpeakUtterance (getProperty result (js "data")) ])).
  { rewrite E1, calls_complete. unfold exec.
    now rewrite says_creatorDialogAfterClosed, Ht. }
  split; [|split].
  - intros Hp. now rewrite Hp in Ec.
  - eexists. split; [exact Ec|].
    destruct (isPathwayEvent result); cbn; intuition discriminate.
  - apply (pending_restart
             (mkSubscription (nextSubscription w0) OnSpeechEndAfterCreatorDialog));
      [| |now left|exact Hl].
    + unfold w1. now apply consistent_step.
    + destruct (creatorDialogAfterClosed_subscriptions result w0 Ht)
        as (Es & _ & _).
      rewrite E1. cbn [complete subscriptions setSubscriptions].
      rewrite Es. apply filter_In. split; [|reflexivity].
      apply in_or_app. right. now left.
Qed.

Lemma creator_result_restarts_at_speech_end_witness :
  let events := [SpeechRecognitionResultAvailable (js "neuer termin")] in
  let result := JsObject [(js "data", JsString (js "Ungültiges Datum"))] in
  let later := [SpeechStart; ActivateVoiceControl; DeactivateVoiceControl] in
  let w1 := step (DialogClosed 0 result) (session true events) in
  isSubscribed (mkSubscription 6 (CreatorDialogAfterClosed 0))
    (session true events) = true
  /\ truthy result = true
  /\ calls w1
     = calls (session true events)
       ++ [ SnackBarOpen (JsString (js "Ungültiges Datum"));
            SpeakUtterance (JsString (js "Ungültiges Datum")) ]
  /\ exists l, calls (step SpeechEnd (run later w1)) = calls (run later w1) ++ l
               /\ In StartRecognition l.
Proof.
  intros events result later w1.
  split; [vm_compute; reflexivity | split; [vm_compute; reflexivity|]].
  destruct (creator_result_restarts_at_speech_end true events 0 6 result later)
    as (H1 & _ & H3); try (vm_compute; reflexivity).
  split; [|exact H3].
  apply H1. vm_compute. reflexivity.
Defined.

(** X12. The one-shot callbacks fire once. After a speech-end event no
    callback that waits for speech-end is left, and after a speech-start
    event none that waits for speech-start, so that the same event arriving
    a second time in a row does nothing. This holds in every state. *)
Theorem speech_callbacks_fire_once (w : World) :
  filter (responds SpeechEnd) (subscriptions (step SpeechEnd w)) = []
  /\ step SpeechEnd (step SpeechEnd w) = step SpeechEnd w
  /\ filter (responds SpeechStart) (subscriptions (step SpeechStart w)) = []
  /\ step SpeechStart (step SpeechStart w) = step SpeechStart w.
Proof.
  assert (H : forall e, e = SpeechStart \/ e = SpeechEnd ->
                        filter (responds e) (subscriptions (emit e w)) = []).
  { intros e He. apply filter_none. intros x Hx.
    apply (fold_one_shots e (subscriptions w) w He); auto. }
  pose proof (H SpeechEnd (or_intror eq_refl)) as He.
  pose proof (H SpeechStart (or_introl eq_refl)) as Hs.
  cbn [step].
  split; [exact He | split; [now apply emit_nobody | split]];
    [exact Hs | now apply emit_nobody].
Qed.

(** X13. The goodbye command. A transcript in which "auf ein wiederhören"
    occurs, and "termin" does not, displays the farewell notice and stops
    recognition; it changes nothing else: recognition is not restarted, and
    the callbacks, the listening flag and the voices stay as they are. *)
Theorem goodbye_command (supported : bool) (events : list Event)
  (data : jsstring) :
  installed (session supported events) = true ->
  includes (toLowerCase data) (js "auf ein wiederhören") = true ->
  includes (toLowerCase data) (js "termin") = false ->
  step (SpeechRecognitionResultAvailable data) (session supported events)
  = setCalls (calls (session supported events)
              ++ [ StopRecognition;
                   SnackBarOpen (JsString (js "Man hört sich."));
                   StopRecognition ])
      (session supported events).
Proof.
  intros Hi Hg Ht.
  rewrite step_recognition_result by (auto using consistent_session).
  unfold speechRecognitionResultAvailable.
  assert (Hc : classify (toLowerCase data) = EndSession).
  { unfold classify.
    destruct (regexMatch rxNeuerTermin (toLowerCase data)) eqn:E.
    - apply regexMatch_neuer_termin_inv in E. congruence.
    - now rewrite regexMatch_goodbye_includes. }
  rewrite Hc. apply goodbye_command_exec.
Qed.

Lemma goodbye_command_witness :
  installed (session true []) = true
  /\ includes (toLowerCase (js "Hilfe, auf ein Wiederhören"))
       (js "auf ein wiederhören") = true
  /\ includes (toLowerCase (js "Hilfe, auf ein Wiederhören")) (js "termin") = false
  /\ calls (step (SpeechRecognitionResultAvailable (js "Hilfe, auf ein Wiederhören"))
              (session true []))
     = calls (session true [])
       ++ [ StopRecognition; SnackBarOpen (JsString (js "Man hört sich."));
            StopRecognition ].
Proof.
  split; [vm_compute; reflexivity|].
  split; [vm_compute; reflexivity|].
  split; [vm_compute; reflexivity|].
  rewrite (goodbye_command true [] (js "Hilfe, auf ein Wiederhören"));
    vm_compute; reflexivity.
Defined.

(** X14. A transcript in which none of the words "termin", "wiederhören",
    "hilfe", "lösche" and "zeige" occurs, the empty transcript among them,
    is not a command: the "not supported" notice is displayed and
    recognition is restarted at once. *)
Theorem unrecognized_command (supported : bool) (events : list Event)
  (data : jsstring) :
  installed (session supported events) = true ->
  includes (toLowerCase data) (js "termin") = false ->
  includes (toLowerCase data) (js "wiederhören") = false ->
  includes (toLowerCase data) (js "hilfe") = false ->
  includes (toLowerCase data) (js "lösche") = false ->
  includes (toLowerCase data) (js "zeige") = false ->
  classify (toLowerCase data) = Unrecognized
  /\ calls (step (SpeechRecognitionResultAvailable data)
              (session supported events))
     = calls (session supported events)
       ++ [ StopRecognition;
            SnackBarOpen
              (JsString (js "Dieses Sprachkommando wird nicht unterstützt.")) ]
       ++ restartCalls.
Proof.
  intros Hi H1 H2 H3 H4 H5.
  assert (Hc : classify (toLowerCase data) = Unrecognized).
  { unfold classify.
    destruct (regexMatch rxNeuerTermin (toLowerCase data)) eqn:E1;
      [apply regexMatch_neuer_termin_inv in E1; congruence|].
    destruct (regexMatch rxAufEinWiederhoeren (toLowerCase data)) eqn:E2;
      [apply regexMatch_goodbye_inv in E2; congruence|].
    now rewrite regexMatch_hilfe, H3, regexMatch_loesche, H4,
      regexMatch_zeige, H5. }
  split; [exact Hc|].
  rewrite step_recognition_result by (auto using consistent_session).
  unfold speechRecognitionResultAvailable. rewrite Hc.
  apply says_unrecognized.
Qed.

Lemma unrecognized_command_witness :
  installed (session true []) = true
  /\ classify (toLowerCase []) = Unrecognized
  /\ calls (step (SpeechRecognitionResultAvailable []) (session true []))
     = calls (session true [])
       ++ [ StopRecognition;
            SnackBarOpen
              (JsString (js "Dieses Sprachkommando wird nicht unterstützt.")) ]
       ++ restartCalls.
Proof.
  split; [vm_compute; reflexivity|].
  apply (unrecognized_command true [] []); vm_compute; reflexivity.
Defined.

(** X15. Commands do not depend on case: in every state a transcript and
    its lower-case form are handled alike. *)
Theorem commands_ignore_case (data : jsstring) (w : World) :
  step (SpeechRecognitionResultAvailable (toLowerCase data)) w
  = step (SpeechRecognitionResultAvailable data) w.
Proof.
  assert (E : speechRecognitionResultAvailable (toLowerCase data)
              = speechRecognitionResultAvailable data).
  { unfold speechRecognitionResultAvailable.
    now rewrite toLowerCase_idempotent. }
  cbn [step]. unfold emit. generalize (subscriptions w) as l.
  intros l; revert w; induction l as [|s l IH]; intros w; cbn; [reflexivity|].
  rewrite IH. f_equal. unfold notify, react.
  destruct (handler s); try reflexivity. now rewrite E.
Qed.

(** X16. The availability that [initRecognition] reports is recorded by
    [ngOnInit] only: [speechRecognitionAvailable] never changes afterwards.
    The microphone button does not consult it; also where recognition is
    unavailable, pressing the button installs the recognition callbacks and
    calls [startRecognition]. *)
Theorem microphone_button_restarts_unconditionally (supported : bool)
  (events : list Event) :
  let w := session supported events in
  let w' := step ActivateVoiceControl w in
  speechRecognitionAvailable w = supported
  /\ speechRecognitionAvailable w' = supported
  /\ calls w' = calls w ++ restartCalls
  /\ installed w' = true.
Proof.
  intros w w'.
  assert (Ha : speechRecognitionAvailable w = supported).
  { unfold w, session. apply available_run. now destruct supported. }
  split; [exact Ha|]. unfold w'. cbn [step]. unfold onActivateVoiceControl.
  rewrite restartSpeechRecognition_exec. now cbn.
Qed.


Example two_delete_commands_two_restarts :
  let w := session true [ SpeechRecognitionResultAvailable (js "lösche a");
                          SpeechRecognitionResultAvailable (js "lösche b") ] in
  calls (step SpeechEnd w) = calls w ++ restartCalls ++ restartCalls.
Proof. vm_compute. reflexivity. Qed.
